(** * MilkFlow security core: a shallow embedding of [js/security.js] and of
      the authentication paths of [js/app.js].

    Conventions of the embedding.

    - A JavaScript string is a Rocq [string]; each character is one UTF-16
      code unit in the range U+0000..U+00FF, so [String.length] is the
      JavaScript [.length] and [String.append] is [+] on strings.  The
      password functions are also given on every JavaScript string, a
      list of 16-bit code units, in the module [Utf16].
    - A byte is a [Z] in [0, 256); a [Uint8Array] is a [list Z].
    - [Date.now()] is an integer number of milliseconds, a [Z].  Time does
      not advance inside a synchronous run of code; it may advance at an
      [await].  Every function that reads the clock takes the reading as
      an argument.
    - [localStorage] holds one JSON document per fixed key; each document is
      modelled by the typed value it serialises ([JSON.parse] of what
      [JSON.stringify] wrote).  A missing key is [None] or the empty list.
    - [crypto.getRandomValues] reads from a tape of bytes held in the
      state. *)

From Stdlib Require Import ZArith List String Ascii Bool Lia Arith DecimalString Sorted.
Import ListNotations.

Local Open Scope string_scope.
Local Open Scope list_scope.
Local Open Scope Z_scope.

(** ** Bytes, code units and hexadecimal text *)

Definition bytes := list Z.

Definition is_byte (b : Z) : Prop := 0 <= b < 256.

Definition code_unit (c : ascii) : Z := Z.of_N (N_of_ascii c).

(** [new TextEncoder().encode(s)]: UTF-8 of the code units of [s] (one byte
    below U+0080, two bytes from U+0080 to U+00FF). *)
Definition utf8_unit (u : Z) : bytes :=
  if u <? 128 then [u]
  else [Z.lor 192 (Z.shiftr u 6); Z.lor 128 (Z.land u 63)].

Fixpoint encode (s : string) : bytes :=
  match s with
  | EmptyString => []
  | String c s' => utf8_unit (code_unit c) ++ encode s'
  end.

(** One hexadecimal digit, as [Number.prototype.toString(16)] prints it. *)
Definition hex_digit (d : Z) : ascii :=
  if d <? 10 then ascii_of_N (Z.to_N (48 + d))
  else ascii_of_N (Z.to_N (87 + d)).

(** [b.toString(16).padStart(2, '0')] for a byte [b]. *)
Definition hex2 (b : Z) : string :=
  String (hex_digit (b / 16)) (String (hex_digit (b mod 16)) EmptyString).

(** [Array.from(arr).map(b => b.toString(16).padStart(2, '0')).join('')] *)
Fixpoint hex_of_bytes (bs : bytes) : string :=
  match bs with
  | [] => EmptyString
  | b :: bs' => (hex2 b ++ hex_of_bytes bs')%string
  end.

(** JavaScript truthiness of a string-valued property that may be absent. *)
Definition truthy (s : option string) : bool :=
  match s with
  | None => false
  | Some EmptyString => false
  | Some _ => true
  end.

(** ** SHA-256 (FIPS 180-4), the digest behind
       [crypto.subtle.digest('SHA-256', data)] *)

Module SHA256.

Definition w32 (x : Z) : Z := x mod 4294967296.

Definition rotr (n x : Z) : Z :=
  Z.lor (Z.shiftr x n) (w32 (Z.shiftl x (32 - n))).

Definition not32 (x : Z) : Z := Z.lxor x 4294967295.

Definition Ch (x y z : Z) : Z := Z.lxor (Z.land x y) (Z.land (not32 x) z).
Definition Maj (x y z : Z) : Z :=
  Z.lxor (Z.lxor (Z.land x y) (Z.land x z)) (Z.land y z).
Definition Sigma0 (x : Z) : Z := Z.lxor (Z.lxor (rotr 2 x) (rotr 13 x)) (rotr 22 x).
Definition Sigma1 (x : Z) : Z := Z.lxor (Z.lxor (rotr 6 x) (rotr 11 x)) (rotr 25 x).
Definition sigma0 (x : Z) : Z := Z.lxor (Z.lxor (rotr 7 x) (rotr 18 x)) (Z.shiftr x 3).
Definition sigma1 (x : Z) : Z := Z.lxor (Z.lxor (rotr 17 x) (rotr 19 x)) (Z.shiftr x 10).

(** The first 64 primes. *)
Definition primes : list Z :=
  [2; 3; 5; 7; 11; 13; 17; 19; 23; 29; 31; 37; 41; 43; 47; 53; 59; 61; 67; 71;
   73; 79; 83; 89; 97; 101; 103; 107; 109; 113; 127; 131; 137; 139; 149; 151;
   157; 163; 167; 173; 179; 181; 191; 193; 197; 199; 211; 223; 227; 229; 233;
   239; 241; 251; 257; 263; 269; 271; 277; 281; 283; 293; 307; 311].

(** Integer cube root, one bit at a time from bit [bits - 1] down. *)
Fixpoint cube_root (bits : nat) (n r : Z) : Z :=
  match bits with
  | O => r
  | S b =>
      let r' := r + 2 ^ Z.of_nat b in
      cube_root b n (if r' * r' * r' <=? n then r' else r)
  end.

(** The first 32 bits of the fractional part of the cube root of [p]. *)
Definition frac_cube_root (p : Z) : Z := w32 (cube_root 36 (p * 2 ^ 96) 0).

(** The first 32 bits of the fractional part of the square root of [p]. *)
Definition frac_square_root (p : Z) : Z := w32 (Z.sqrt (p * 2 ^ 64)).

(** The round constants. *)
Definition K : list Z := Eval vm_compute in map frac_cube_root primes.

(** The eight working variables, also the chaining value. *)
Record regs := Regs { ra : Z; rb : Z; rc : Z; rd : Z;
                      re : Z; rf : Z; rg : Z; rh : Z }.

(** The initial chaining value, from the first eight primes. *)
Definition H0 : regs :=
  Eval vm_compute in
    Regs (frac_square_root 2) (frac_square_root 3) (frac_square_root 5)
         (frac_square_root 7) (frac_square_root 11) (frac_square_root 13)
         (frac_square_root 17) (frac_square_root 19).

(** Big-endian bytes of a word of [n] bytes. *)
Fixpoint be_bytes (n : nat) (x : Z) : bytes :=
  match n with
  | O => []
  | S n' => Z.land (Z.shiftr x (8 * Z.of_nat n')) 255 :: be_bytes n' x
  end.

Fixpoint be_word (bs : bytes) (acc : Z) : Z :=
  match bs with
  | [] => acc
  | b :: bs' => be_word bs' (acc * 256 + b)
  end.

(** Padding: a one bit, zero bits up to 56 mod 64 bytes, the bit length. *)
Definition pad (msg : bytes) : bytes :=
  let len := Z.of_nat (List.length msg) in
  let zeros := Z.to_nat ((55 - len) mod 64) in
  msg ++ [128] ++ repeat 0 zeros ++ be_bytes 8 (8 * len).

(** Cut a byte string into groups of [n] bytes. *)
Fixpoint chunks (fuel n : nat) (bs : bytes) : list bytes :=
  match fuel with
  | O => []
  | S fuel' =>
      match bs with
      | [] => []
      | _ => firstn n bs :: chunks fuel' n (skipn n bs)
      end
  end.

Definition words_of_block (blk : bytes) : list Z :=
  map (fun w => be_word w 0) (chunks 16 4 blk).

(** Message schedule: extend the 16 block words to 64. *)
Fixpoint schedule (n : nat) (w : list Z) : list Z :=
  match n with
  | O => w
  | S n' =>
      let t := List.length w in
      let at_ (k : nat) := nth (t - k) w 0 in
      schedule n'
        (w ++ [w32 (sigma1 (at_ 2%nat) + at_ 7%nat + sigma0 (at_ 15%nat) + at_ 16%nat)])
  end.

Definition round (r : regs) (kw : Z * Z) : regs :=
  let (k, w) := kw in
  let t1 := w32 (rh r + Sigma1 (re r) + Ch (re r) (rf r) (rg r) + k + w) in
  let t2 := w32 (Sigma0 (ra r) + Maj (ra r) (rb r) (rc r)) in
  Regs (w32 (t1 + t2)) (ra r) (rb r) (rc r) (w32 (rd r + t1)) (re r) (rf r) (rg r).

Definition compress (h : regs) (blk : bytes) : regs :=
  let w := schedule 48 (words_of_block blk) in
  let r := fold_left round (combine K w) h in
  Regs (w32 (ra h + ra r)) (w32 (rb h + rb r)) (w32 (rc h + rc r)) (w32 (rd h + rd r))
       (w32 (re h + re r)) (w32 (rf h + rf r)) (w32 (rg h + rg r)) (w32 (rh h + rh r)).

Definition digest_regs (msg : bytes) : regs :=
  let p := pad msg in
  fold_left compress (chunks (List.length p) 64 p) H0.

Definition digest (msg : bytes) : bytes :=
  let r := digest_regs msg in
  be_bytes 4 (ra r) ++ be_bytes 4 (rb r) ++ be_bytes 4 (rc r) ++ be_bytes 4 (rd r) ++
  be_bytes 4 (re r) ++ be_bytes 4 (rf r) ++ be_bytes 4 (rg r) ++ be_bytes 4 (rh r).

End SHA256.

(** ** HMAC-SHA-256 (RFC 2104) and PBKDF2 (RFC 8018), the derivation behind
       [crypto.subtle.deriveKey({ name: 'PBKDF2', hash: 'SHA-256', ... })] *)

Module PBKDF2.

(** The HMAC key brought to the 64-byte block: hashed when longer,
    then padded with zero bytes. *)
Definition block_key (key : bytes) : bytes :=
  let k0 := if (64 <? List.length key)%nat then SHA256.digest key else key in
  k0 ++ repeat 0 (64 - List.length k0)%nat.

Definition hmac (key msg : bytes) : bytes :=
  let k := block_key key in
  SHA256.digest (map (Z.lxor 92) k ++ SHA256.digest (map (Z.lxor 54) k ++ msg)).

Fixpoint xor_bytes (a b : bytes) : bytes :=
  match a, b with
  | x :: a', y :: b' => Z.lxor x y :: xor_bytes a' b'
  | _, _ => []
  end.

Definition step (password : bytes) (ut : bytes * bytes) : bytes * bytes :=
  let u := hmac password (fst ut) in
  (u, xor_bytes (snd ut) u).

(** The first (and, for a 256-bit key, only) output block. *)
Definition derive (password salt : bytes) (iterations : N) : bytes :=
  let u1 := hmac password (salt ++ [0; 0; 0; 1]) in
  snd (N.iter (iterations - 1) (step password) (u1, u1)).

End PBKDF2.

(** ** The rest of the Web platform used by the backup encryption

    [JSON], [TextDecoder], [btoa]/[atob] and AES-GCM are taken as an
    interface with the laws that their specifications give: each decoder
    inverts its encoder, and AES-GCM decryption under the key and nonce of
    an encryption returns the plaintext (a byte string).  A rejected input
    is [None] (the exception named in the comment).  Nothing is assumed
    about what decryption does on any other input. *)

Class WebPlatform := {
  (** JSON documents: the values that [JSON.stringify] prints and
      [JSON.parse] reads back. *)
  Json : Type;
  JSON_null : Json;
  JSON_stringify : Json -> string;
  JSON_parse : string -> option Json;                      (* SyntaxError *)
  TextDecoder_decode : bytes -> string;
  btoa : string -> string;
  atob : string -> option string;                          (* InvalidCharacterError *)
  AES_GCM_encrypt : bytes -> bytes -> bytes -> bytes;      (* key, iv, plaintext *)
  AES_GCM_decrypt : bytes -> bytes -> bytes -> option bytes; (* OperationError *)
  JSON_parse_stringify : forall d, JSON_parse (JSON_stringify d) = Some d;
  decode_encode : forall s, TextDecoder_decode (encode s) = s;
  atob_btoa : forall s, atob (btoa s) = Some s;
  AES_GCM_bytes :
    forall k iv m, Forall is_byte m -> Forall is_byte (AES_GCM_encrypt k iv m);
  AES_GCM_decrypt_encrypt :
    forall k iv m, Forall is_byte m ->
                   AES_GCM_decrypt k iv (AES_GCM_encrypt k iv m) = Some m
}.

Inductive JsError := InvalidCharacterError | OperationError | SyntaxError.

(** A settled promise: the value it fulfils with, or the error it rejects
    with. *)
Inductive Settled (A : Type) :=
| Fulfilled (a : A)
| Rejected (e : JsError).
Arguments Fulfilled {A} a.
Arguments Rejected {A} e.

Record EncryptedBlob := mkBlob {
  b_encrypted : string;
  b_salt : string;
  b_iv : string;
  b_version : string;
  b_isEncrypted : bool
}.

(** ** Data model *)

(** A credential record of [mf_users].  A legacy record holds [password];
    a migrated one holds [passwordHash] and [salt].  Absent properties are
    [None]. *)
Record UserRecord := mkUser {
  u_username : string;
  u_password : option string;
  u_passwordHash : option string;
  u_salt : option string;
  u_role : string;
  u_name : string
}.

(** [currentUser] of app.js: [{ username, role, name }]. *)
Record CurrentUser := mkCurrentUser {
  c_username : string;
  c_role : string;
  c_name : string
}.

Record Session := mkSession {
  s_username : string;
  s_role : string;
  s_name : string;
  s_createdAt : Z;
  s_lastActivity : Z;
  s_token : string;
  s_expiresAt : Z
}.

Record LoginAttempt := mkAttempt {
  a_username : string;
  a_timestamp : Z;
  a_success : bool
}.

(** [e_timestamp] is the instant that [new Date().toISOString()] prints. *)
Record AuditEntry := mkAudit {
  e_action : string;
  e_details : string;
  e_username : string;
  e_timestamp : Z;
  e_userAgent : string
}.

(** The random tape behind [crypto.getRandomValues]. *)
Record Rng := mkRng { tape : nat -> Z; pos : nat }.

(** Everything the two modules keep between calls: the documents of
    [localStorage], the timers of the inactivity monitor, [currentUser] of
    app.js, and the environment ([navigator.userAgent], the random tape). *)
Record State := mkState {
  ls_session : option Session;        (* localStorage['mf_secure_session'] *)
  ls_attempts : list LoginAttempt;    (* localStorage['mf_login_attempts'] *)
  ls_audit : list AuditEntry;         (* localStorage['mf_audit_log'] *)
  ls_users : list UserRecord;         (* localStorage['mf_users'] *)
  monitor : bool;                     (* sessionCheckInterval and listeners set *)
  currentUser : option CurrentUser;
  userAgent : string;
  rng : Rng
}.

Definition set_session (v : option Session) (st : State) : State :=
  mkState v (ls_attempts st) (ls_audit st) (ls_users st) (monitor st)
          (currentUser st) (userAgent st) (rng st).
Definition set_attempts (v : list LoginAttempt) (st : State) : State :=
  mkState (ls_session st) v (ls_audit st) (ls_users st) (monitor st)
          (currentUser st) (userAgent st) (rng st).
Definition set_audit (v : list AuditEntry) (st : State) : State :=
  mkState (ls_session st) (ls_attempts st) v (ls_users st) (monitor st)
          (currentUser st) (userAgent st) (rng st).
Definition set_users (v : list UserRecord) (st : State) : State :=
  mkState (ls_session st) (ls_attempts st) (ls_audit st) v (monitor st)
          (currentUser st) (userAgent st) (rng st).
Definition set_monitor (v : bool) (st : State) : State :=
  mkState (ls_session st) (ls_attempts st) (ls_audit st) (ls_users st) v
          (currentUser st) (userAgent st) (rng st).
Definition set_currentUser (v : option CurrentUser) (st : State) : State :=
  mkState (ls_session st) (ls_attempts st) (ls_audit st) (ls_users st) (monitor st)
          v (userAgent st) (rng st).
Definition set_rng (v : Rng) (st : State) : State :=
  mkState (ls_session st) (ls_attempts st) (ls_audit st) (ls_users st) (monitor st)
          (currentUser st) (userAgent st) v.

(** ** A state monad for the stateful calls *)

Definition M (A : Type) : Type := State -> A * State.

Definition ret {A} (a : A) : M A := fun st => (a, st).
Definition bind {A B} (c : M A) (k : A -> M B) : M B :=
  fun st => let (a, st') := c st in k a st'.
Definition gets {A} (f : State -> A) : M A := fun st => (f st, st).
Definition modify (f : State -> State) : M unit := fun st => (tt, f st).

Declare Scope js_scope.
Delimit Scope js_scope with js.
Notation "x <- c ;; k" := (bind c (fun x => k))
  (at level 61, c at next level, right associativity) : js_scope.
Notation "c ;; k" := (bind c (fun _ => k))
  (at level 61, right associativity) : js_scope.
Local Open Scope js_scope.

Definition result {A} (c : M A) (st : State) : A := fst (c st).
Definition after {A} (c : M A) (st : State) : State := snd (c st).

(** ** js/security.js *)

Module MilkSecurity.

(** [crypto.getRandomValues(new Uint8Array(n))] *)
Definition getRandomValues (n : nat) : M bytes :=
  fun st =>
    let r := rng st in
    (map (fun i => tape r (pos r + i)%nat mod 256) (seq 0 n),
     set_rng (mkRng (tape r) (pos r + n)%nat) st).

(** *** Password hashing *)

Definition generateSalt : M string :=
  array <- getRandomValues 16 ;;
  ret (hex_of_bytes array).

(** [hashPassword(password, salt)] resolves to [{ hash, salt }], here the
    pair [(hash, salt)].  [salt] is [None] when the argument is omitted. *)
Definition hashPassword (password : string) (salt : option string)
  : M (string * string) :=
  salt <- (match salt with
           | Some s => if truthy (Some s) then ret s else generateSalt
           | None => generateSalt
           end) ;;
  let data := encode (salt ++ password)%string in
  let hashBuffer := SHA256.digest data in
  let hashHex := hex_of_bytes hashBuffer in
  ret (hashHex, salt).

Definition verifyPassword (password storedHash : string) (salt : option string)
  : M bool :=
  hs <- hashPassword password salt ;;
  ret (String.eqb (fst hs) storedHash).

(** *** Session management *)

Definition SESSION_TIMEOUT_MS : Z := 30 * 60 * 1000.

Definition generateSessionToken : M string :=
  array <- getRandomValues 32 ;;
  ret (hex_of_bytes array).

(** Clears the polling interval and removes the activity listeners. *)
Definition stopInactivityMonitor : M unit := modify (set_monitor false).

(** Installs the throttled activity listeners and the one-minute poll. *)
Definition startInactivityMonitor : M unit :=
  stopInactivityMonitor ;;
  modify (set_monitor true).

Definition destroySession : M unit :=
  modify (set_session None) ;;
  stopInactivityMonitor.

Definition createSession (user : CurrentUser) (now : Z) : M Session :=
  token <- generateSessionToken ;;
  let session :=
    mkSession (c_username user) (c_role user) (c_name user)
              now now token (now + SESSION_TIMEOUT_MS) in
  modify (set_session (Some session)) ;;
  startInactivityMonitor ;;
  ret session.

Definition getSession (now : Z) : M (option Session) :=
  raw <- gets ls_session ;;
  match raw with
  | None => ret None
  | Some session =>
      if now >? s_expiresAt session then
        destroySession ;;
        ret None
      else ret (Some session)
  end.

Definition refreshSession (now : Z) : M (option Session) :=
  session <- getSession now ;;
  match session with
  | Some s =>
      let s' := mkSession (s_username s) (s_role s) (s_name s) (s_createdAt s)
                          now (s_token s) (now + SESSION_TIMEOUT_MS) in
      modify (set_session (Some s')) ;;
      ret (Some s')
  | None => ret None
  end.

(** *** Login rate limiting *)

Definition MAX_LOGIN_ATTEMPTS : Z := 5.
Definition LOCKOUT_DURATION_MS : Z := 5 * 60 * 1000.
Definition ATTEMPT_WINDOW_MS : Z := 15 * 60 * 1000.

Definition getLoginAttempts : M (list LoginAttempt) := gets ls_attempts.

Definition recordLoginAttempt (username : string) (success : bool) (now : Z)
  : M unit :=
  attempts <- getLoginAttempts ;;
  let attempts := attempts ++ [mkAttempt username now success] in
  let cutoff := now - ATTEMPT_WINDOW_MS in
  let filtered := filter (fun a => a_timestamp a >? cutoff) attempts in
  modify (set_attempts filtered).

(** [Math.min(...ts)] on a non-empty argument list.  (On an empty one
    JavaScript gives [Infinity]; [isLoginLocked] calls it with at least
    [MAX_LOGIN_ATTEMPTS] arguments.) *)
Definition Math_min (ts : list Z) : Z :=
  match ts with
  | [] => 0
  | t :: ts' => fold_left Z.min ts' t
  end.

(** [Math.ceil(x / d)] for integers [x] and [d > 0]. *)
Definition Math_ceil_div (x d : Z) : Z := - ((- x) / d).

Definition decimal (z : Z) : string := NilZero.string_of_int (Z.to_int z).

(** [{ locked: true, remainingMinutes, message }] or
    [{ locked: false, remainingAttempts }]. *)
Inductive LockStatus :=
| Locked (remainingMinutes : Z) (message : string)
| NotLocked (remainingAttempts : Z).

Definition locked (r : LockStatus) : bool :=
  match r with Locked _ _ => true | NotLocked _ => false end.

Definition recentFailures (now : Z) (attempts : list LoginAttempt)
  : list LoginAttempt :=
  let cutoff := now - LOCKOUT_DURATION_MS in
  filter (fun a => negb (a_success a) && (a_timestamp a >? cutoff)) attempts.

(** [unlockTime] of the locked branch of [isLoginLocked]. *)
Definition unlockTime (failures : list LoginAttempt) : Z :=
  let oldestInWindow := Math_min (map a_timestamp failures) in
  oldestInWindow + LOCKOUT_DURATION_MS.

Definition isLoginLocked (now : Z) : M LockStatus :=
  attempts <- getLoginAttempts ;;
  let failures := recentFailures now attempts in
  if Z.of_nat (List.length failures) >=? MAX_LOGIN_ATTEMPTS then
    let remainingMs := unlockTime failures - now in
    let remainingMin := Math_ceil_div remainingMs 60000 in
    ret (Locked remainingMin
           ("Too many failed attempts. Try again in " ++ decimal remainingMin
            ++ " minute" ++ (if (remainingMin >? 1)%Z then "s" else EmptyString) ++ ".")%string)
  else
    ret (NotLocked (MAX_LOGIN_ATTEMPTS - Z.of_nat (List.length failures))).

(** *** Password validation *)

Fixpoint test (p : ascii -> bool) (s : string) : bool :=
  match s with
  | EmptyString => false
  | String c s' => p c || test p s'
  end.

Definition in_range (lo hi : Z) (c : ascii) : bool :=
  (lo <=? code_unit c) && (code_unit c <=? hi).

Definition is_lower : ascii -> bool := in_range 97 122.   (* /[a-z]/ *)
Definition is_upper : ascii -> bool := in_range 65 90.    (* /[A-Z]/ *)
Definition is_digit : ascii -> bool := in_range 48 57.    (* /[0-9]/ *)
Definition is_other (c : ascii) : bool :=                 (* /[^a-zA-Z0-9]/ *)
  negb (is_lower c || is_upper c || is_digit c).

Definition len (s : string) : Z := Z.of_nat (String.length s).

Record Strength := mkStrength { level : Z; label : string; color : string }.

Definition getPasswordStrength (password : string) : Strength :=
  if negb (truthy (Some password)) then mkStrength 0 "None" "#64748b"
  else
    let score :=
      (if len password >=? 6 then 1 else 0) +
      (if len password >=? 8 then 1 else 0) +
      (if len password >=? 12 then 1 else 0) +
      (if test is_lower password then 1 else 0) +
      (if test is_upper password then 1 else 0) +
      (if test is_digit password then 1 else 0) +
      (if test is_other password then 1 else 0) in
    if score <=? 2 then mkStrength 1 "Weak" "#ef4444"
    else if score <=? 4 then mkStrength 2 "Fair" "#eab308"
    else if score <=? 5 then mkStrength 3 "Good" "#22c55e"
    else mkStrength 4 "Strong" "#14b8a6".

Record Validation := mkValidation {
  valid : bool;
  issues : list string;
  strength : Strength
}.

Definition ISSUE_SHORT : string := "Must be at least 6 characters".
Definition ISSUE_LONG : string := "Must be under 128 characters".
Definition ISSUE_LOWER : string := "Must contain at least one lowercase letter".
Definition ISSUE_UPPER : string := "Must contain at least one uppercase letter".
Definition ISSUE_DIGIT : string := "Must contain at least one number".

(** [issues.push(msg)] under the guard [c]. *)
Definition push_if (c : bool) (msg : string) (issues : list string) : list string :=
  if c then issues ++ [msg] else issues.

Definition validatePassword (password : string) : Validation :=
  let nonempty := truthy (Some password) in
  let issues := [] in
  let issues := push_if (negb nonempty || (len password <? 6)) ISSUE_SHORT issues in
  let issues := push_if (nonempty && (len password >? 128)) ISSUE_LONG issues in
  let issues := push_if (nonempty && negb (test is_lower password)) ISSUE_LOWER issues in
  let issues := push_if (nonempty && negb (test is_upper password)) ISSUE_UPPER issues in
  let issues := push_if (nonempty && negb (test is_digit password)) ISSUE_DIGIT issues in
  mkValidation (Nat.eqb (List.length issues) 0) issues (getPasswordStrength password).

(** *** Utility functions used by the backup encryption *)

(** [String.fromCharCode(b)] for a byte [b]. *)
Definition fromCharCode (b : Z) : ascii := ascii_of_N (Z.to_N b).

Fixpoint binary_of_bytes (bs : bytes) : string :=
  match bs with
  | [] => EmptyString
  | b :: bs' => String (fromCharCode b) (binary_of_bytes bs')
  end.

Fixpoint bytes_of_binary (s : string) : bytes :=
  match s with
  | EmptyString => []
  | String c s' => code_unit c :: bytes_of_binary s'
  end.

Section Backup.

Context {platform : WebPlatform}.

Definition arrayBufferToBase64 (buffer : bytes) : string :=
  btoa (binary_of_bytes buffer).

(** Rejects when [atob] throws. *)
Definition base64ToArrayBuffer (base64 : string) : option bytes :=
  match atob base64 with
  | Some binary => Some (bytes_of_binary binary)
  | None => None
  end.

(** *** Secure backup encryption *)

Definition PBKDF2_ITERATIONS : N := 100000.

Definition encryptBackupData (data : Json) (passphrase : string)
  : M EncryptedBlob :=
  let jsonStr := JSON_stringify data in
  let keyMaterial := encode passphrase in
  salt <- getRandomValues 16 ;;
  iv <- getRandomValues 12 ;;
  let key := PBKDF2.derive keyMaterial salt PBKDF2_ITERATIONS in
  let encrypted := AES_GCM_encrypt key iv (encode jsonStr) in
  ret (mkBlob (arrayBufferToBase64 encrypted) (arrayBufferToBase64 salt)
              (arrayBufferToBase64 iv) "2.0" true).

Definition decryptBackupData (encryptedData : EncryptedBlob) (passphrase : string)
  : Settled Json :=
  match base64ToArrayBuffer (b_salt encryptedData) with
  | None => Rejected InvalidCharacterError
  | Some salt =>
  match base64ToArrayBuffer (b_iv encryptedData) with
  | None => Rejected InvalidCharacterError
  | Some iv =>
  match base64ToArrayBuffer (b_encrypted encryptedData) with
  | None => Rejected InvalidCharacterError
  | Some ciphertext =>
      let keyMaterial := encode passphrase in
      let key := PBKDF2.derive keyMaterial salt PBKDF2_ITERATIONS in
      match AES_GCM_decrypt key iv ciphertext with
      | None => Rejected OperationError
      | Some decrypted =>
          match JSON_parse (TextDecoder_decode decrypted) with
          | None => Rejected SyntaxError
          | Some data => Fulfilled data
          end
      end
  end end end.

End Backup.

(** *** Audit log *)

(** [auditLog(action, details, username)]; [username] is [None] when the
    caller passes [undefined]. *)
Definition auditLog (action details : string) (username : option string)
    (now : Z) : M unit :=
  logs <- gets ls_audit ;;
  ua <- gets userAgent ;;
  let entry :=
    mkAudit action details
            (match username with
             | Some u => if truthy (Some u) then u else "system"
             | None => "system"
             end)
            now (substring 0 100 ua) in
  let logs := entry :: logs in
  let logs := if Z.of_nat (List.length logs) >? 200 then firstn 200 logs else logs in
  modify (set_audit logs).

Definition getAuditLogs : M (list AuditEntry) := gets ls_audit.

(** *** Username validation *)

(** [{ valid, message }]; [message] is absent on success. *)
Record UsernameValidation := mkUsernameValidation {
  username_valid : bool;
  username_message : option string
}.

(** One character of the class [[a-zA-Z0-9_.-]]. *)
Definition is_username_char (c : ascii) : bool :=
  is_lower c || is_upper c || is_digit c ||
  (code_unit c =? 95) || (code_unit c =? 46) || (code_unit c =? 45).

(** [/^[a-zA-Z0-9_.-]+$/.test(s)]: at least one character, and every
    character in the class. *)
Fixpoint every (p : ascii -> bool) (s : string) : bool :=
  match s with
  | EmptyString => true
  | String c s' => p c && every p s'
  end.

Definition username_pattern (s : string) : bool :=
  truthy (Some s) && every is_username_char s.

Definition MSG_USERNAME_LENGTH : string :=
  "Username must be between 2 and 30 characters".
Definition MSG_USERNAME_CHARS : string :=
  "Username can only contain letters, numbers, dots, hyphens, and underscores".

Definition validateUsername (username : string) : UsernameValidation :=
  if negb (truthy (Some username)) || (len username <? 2) || (len username >? 30)
  then mkUsernameValidation false (Some MSG_USERNAME_LENGTH)
  else if negb (username_pattern username)
  then mkUsernameValidation false (Some MSG_USERNAME_CHARS)
  else mkUsernameValidation true None.

(** *** CSRF token

    The token lives in [sessionStorage] under [mf_csrf_token]; the item is
    passed and returned here, [None] when it is absent. *)

Definition generateCSRFToken : M (string * option string) :=
  token <- generateSessionToken ;;
  ret (token, Some token).

Definition getCSRFToken (item : option string) : option string := item.

(** [token === getCSRFToken()] for a string [token]. *)
Definition validateCSRFToken (token : string) (item : option string) : bool :=
  match getCSRFToken item with
  | Some stored => String.eqb token stored
  | None => false
  end.

(** *** The poll of the inactivity monitor

    The body of the callback that [startInactivityMonitor] hands to
    [setInterval]; [onSessionExpiredCallback] is [None] while no callback
    is registered.  The result tells whether the callback was called. *)
Definition sessionCheck (now : Z) (onSessionExpiredCallback : option (M unit))
  : M bool :=
  session <- getSession now ;;
  match session, onSessionExpiredCallback with
  | None, Some callback => callback ;; ret true
  | _, _ => ret false
  end.

(** One period of the interval: the body runs as long as
    [stopInactivityMonitor] has not cleared the interval. *)
Definition intervalTick (now : Z) (onSessionExpiredCallback : option (M unit))
  : M bool :=
  running <- gets monitor ;;
  if running then sessionCheck now onSessionExpiredCallback else ret false.

(** The throttled activity listener, when the throttle lets the event
    through. *)
Definition handleActivity (now : Z) : M unit :=
  refreshSession now ;; ret tt.

End MilkSecurity.

(** ** js/app.js: credential migration and login *)

Module MilkApp.

Import MilkSecurity.

(** [dbGetList(DB_KEYS.users)] *)
Definition dbGetList_users : M (list UserRecord) := gets ls_users.

(** [dbSet(DB_KEYS.users, users)] *)
Definition dbSet_users (users : list UserRecord) : M unit :=
  modify (set_users users).

Definition defaultWeakPasswords : list string :=
  ["owner123"; "staff123"; "admin"; "password"; "1234"].

(** [list.includes(s)] *)
Definition includes (l : list string) (s : string) : bool :=
  existsb (String.eqb s) l.

(** One iteration of the [for] loop of [migratePasswords]: the record
    after the iteration, and whether it set [migrated]. *)
Definition migrateUser (u : UserRecord) : M (UserRecord * bool) :=
  match u_password u with
  | Some p =>
      if truthy (Some p) && negb (truthy (u_passwordHash u)) then
        let newPassword :=
          if includes defaultWeakPasswords p
          then (if String.eqb (u_role u) "owner" then "Owner@123" else "Staff@123")
          else p in
        result <- hashPassword newPassword None ;;
        ret (mkUser (u_username u) None (Some (fst result)) (Some (snd result))
                    (u_role u) (u_name u), true)
      else ret (u, false)
  | None => ret (u, false)
  end.

Fixpoint migrateLoop (users : list UserRecord) : M (list UserRecord * bool) :=
  match users with
  | [] => ret ([], false)
  | u :: rest =>
      r <- migrateUser u ;;
      rs <- migrateLoop rest ;;
      ret (fst r :: fst rs, snd r || snd rs)
  end.

(** [now] is the clock reading when the loop has finished. *)
Definition migratePasswords (now : Z) : M unit :=
  users <- dbGetList_users ;;
  r <- migrateLoop users ;;
  if snd r then
    dbSet_users (fst r) ;;
    auditLog "PASSWORD_MIGRATION" "Migrated and strengthened passwords"
             (Some "system") now
  else ret tt.

(** The tail of [login] after a failed or impossible verification. *)
Definition loginFailed (username role : string) (now : Z) : M bool :=
  recordLoginAttempt username false now ;;
  auditLog "LOGIN_FAILED" ("Failed login attempt for role: " ++ role)%string
           (Some username) now ;;
  ret false.

(** [login(username, password, role)].  [now] is the clock when the call
    starts, [now'] the clock when [await verifyPassword(...)] resumes.
    [toast], [showApp] and [updateRateLimitDisplay] only touch the page
    and are left out. *)
Definition login (username password role : string) (now now' : Z) : M bool :=
  rateLimit <- isLoginLocked now ;;
  if locked rateLimit then ret false
  else
    users <- dbGetList_users ;;
    let user :=
      find (fun u => String.eqb (u_username u) username
                     && String.eqb (u_role u) role) users in
    match user with
    | Some u =>
        match u_passwordHash u with
        | Some h =>
            if truthy (Some h) then
              isValid <- verifyPassword password h (u_salt u) ;;
              if isValid then
                let cu := mkCurrentUser (u_username u) (u_role u) (u_name u) in
                modify (set_currentUser (Some cu)) ;;
                createSession cu now' ;;
                recordLoginAttempt username true now' ;;
                auditLog "LOGIN_SUCCESS" ("User logged in as " ++ role)%string
                         (Some username) now' ;;
                ret true
              else loginFailed username role now'
            else loginFailed username role now
        | None => loginFailed username role now
        end
    | None => loginFailed username role now
    end.

(** [logout()]; [showLogin] only touches the page. *)
Definition logout (now : Z) : M unit :=
  cu <- gets currentUser ;;
  auditLog "LOGOUT" "User logged out" (option_map c_username cu) now ;;
  modify (set_currentUser None) ;;
  destroySession.

(** The callback that [init] registers with [onSessionExpired]. *)
Definition sessionExpiredHandler (now : Z) : M unit :=
  cu <- gets currentUser ;;
  auditLog "SESSION_EXPIRED" "Session expired due to inactivity"
           (option_map c_username cu) now ;;
  logout now.

(** [checkSession()], run when the page loads. *)
Definition checkSession (now : Z) : M unit :=
  session <- getSession now ;;
  match session with
  | Some s =>
      modify (set_currentUser
                (Some (mkCurrentUser (s_username s) (s_role s) (s_name s))))
  | None => ret tt
  end.

(** What a call that may throw ends with. *)
Inductive Outcome (A : Type) :=
| Returned (a : A)
| TypeError.
Arguments Returned {A} a.
Arguments TypeError {A}.

(** The array after [user = users.find(p)] and the in-place update [f] of
    the record found. *)
Fixpoint updateFirst (p : UserRecord -> bool) (f : UserRecord -> UserRecord)
    (users : list UserRecord) : list UserRecord :=
  match users with
  | [] => []
  | u :: rest => if p u then f u :: rest else u :: updateFirst p f rest
  end.

(** [changePassword(newPass, confirmPass)]; [now'] is the clock when the
    hashing has resumed.  The callback of [find] reads
    [currentUser.username], which throws when [currentUser] is [null] and
    there is a record to test. *)
Definition changePassword (newPass confirmPass : string) (now' : Z)
  : M (Outcome bool) :=
  let validation := validatePassword newPass in
  if negb (valid validation) then ret (Returned false)
  else if negb (String.eqb newPass confirmPass) then ret (Returned false)
  else
    users <- dbGetList_users ;;
    cu <- gets currentUser ;;
    match users, cu with
    | [], _ => ret (Returned false)
    | _ :: _, None => ret TypeError
    | _ :: _, Some cu =>
        let is_user := fun u => String.eqb (u_username u) (c_username cu) in
        match find is_user users with
        | Some _ =>
            hashResult <- hashPassword newPass None ;;
            let users :=
              updateFirst is_user
                (fun u => mkUser (u_username u) None (Some (fst hashResult))
                                 (Some (snd hashResult)) (u_role u) (u_name u))
                users in
            dbSet_users users ;;
            auditLog "PASSWORD_CHANGED" "User changed their password"
                     (Some (c_username cu)) now' ;;
            ret (Returned true)
        | None => ret (Returned false)
        end
    end.

(** [users.find((u, i) => p(u) && i !== editIndex)] as a test, [i]
    counting from [start]. *)
Fixpoint existsOther (p : UserRecord -> bool) (editIndex : Z) (start : Z)
    (users : list UserRecord) : bool :=
  match users with
  | [] => false
  | u :: rest =>
      (p u && negb (start =? editIndex)) || existsOther p editIndex (start + 1) rest
  end.

(** [users[i] = v] for an index inside the array. *)
Fixpoint setAt (i : nat) (v : UserRecord) (users : list UserRecord)
  : list UserRecord :=
  match users, i with
  | [], _ => []
  | _ :: rest, O => v :: rest
  | u :: rest, S i' => u :: setAt i' v rest
  end.

(** [saveUser()], from the values it reads off the form: [displayName] is
    the display name after [sanitizeInput] and [trim], [editIndex] is [-1]
    for a new user.  [now'] is the clock when the hashing has resumed.
    Toasts, rendering and the dashboard feed of [addActivity] are outside
    the state. *)
Definition saveUser (displayName username password role : string)
    (editIndex : Z) (now' : Z) : M unit :=
  if negb (truthy (Some displayName)) || negb (truthy (Some username))
     || negb (truthy (Some password))
  then ret tt
  else if negb (username_valid (validateUsername username)) then ret tt
  else if negb (valid (validatePassword password)) then ret tt
  else
    users <- dbGetList_users ;;
    let duplicate :=
      existsOther (fun u => String.eqb (u_username u) username
                            && String.eqb (u_role u) role) editIndex 0 users in
    if duplicate then ret tt
    else
      hashResult <- hashPassword password None ;;
      if (editIndex >=? 0) && (editIndex <? Z.of_nat (List.length users)) then
        match nth_error users (Z.to_nat editIndex) with
        | Some oldUser =>
            let updated :=
              mkUser username None (Some (fst hashResult)) (Some (snd hashResult))
                     role displayName in
            dbSet_users (setAt (Z.to_nat editIndex) updated users) ;;
            cu <- gets currentUser ;;
            (match cu with
             | Some c =>
                 if String.eqb (u_username oldUser) (c_username c)
                    && String.eqb (u_role oldUser) (c_role c)
                 then
                   let c' := mkCurrentUser username role displayName in
                   modify (set_currentUser (Some c')) ;;
                   createSession c' now' ;; ret tt
                 else ret tt
             | None => ret tt
             end) ;;
            cu <- gets currentUser ;;
            auditLog "USER_UPDATED" ("Updated user: " ++ displayName)%string
                     (option_map c_username cu) now'
        | None => ret tt
        end
      else
        dbSet_users
          (users ++ [mkUser username None (Some (fst hashResult))
                            (Some (snd hashResult)) role displayName]) ;;
        cu <- gets currentUser ;;
        auditLog "USER_ADDED"
                 ("Added new user: " ++ displayName ++ " (" ++ role ++ ")")%string
                 (option_map c_username cu) now'.

(** [deleteUserConfirm(index)] up to the confirmation dialog: the record
    that the dialog asks about, or [None] when the call returns without
    showing it. *)
Definition deleteUserConfirm (index : Z) : M (option UserRecord) :=
  users <- dbGetList_users ;;
  if (index <? 0) || (index >=? Z.of_nat (List.length users)) then ret None
  else
    match nth_error users (Z.to_nat index) with
    | None => ret None
    | Some user =>
        cu <- gets currentUser ;;
        if match cu with
           | Some c => String.eqb (u_username user) (c_username c)
                       && String.eqb (u_role user) (c_role c)
           | None => false
           end
        then ret None
        else if String.eqb (u_role user) "owner"
                && (Z.of_nat (List.length
                      (filter (fun u => String.eqb (u_role u) "owner") users)) <=? 1)
        then ret None
        else ret (Some user)
    end.

(** [updated.splice(index, 1)] for [index >= 0]. *)
Definition splice1 (index : Z) (users : list UserRecord) : list UserRecord :=
  firstn (Z.to_nat index) users ++ skipn (Z.to_nat index + 1) users.

(** The callback of the dialog, run when the user confirms. *)
Definition deleteUserConfirmed (index : Z) (user : UserRecord) (now : Z) : M unit :=
  updated <- dbGetList_users ;;
  dbSet_users (splice1 index updated) ;;
  cu <- gets currentUser ;;
  auditLog "USER_DELETED"
           ("Deleted user: " ++ u_name user ++ " (" ++ u_username user ++ ")")%string
           (option_map c_username cu) now.

End MilkApp.

(** ** Passwords as arbitrary JavaScript strings

    The strings of the rest of the embedding hold code units up to U+00FF.
    Here [hashPassword] and [verifyPassword] are given on every JavaScript
    string: a sequence of 16-bit code units, in which a surrogate may
    stand without its partner.  [TextEncoder.encode] reads such a sequence
    as UTF-16, takes U+FFFD for every unpaired surrogate, and writes UTF-8
    in one to four bytes. *)

Module Utf16.

Import MilkSecurity.

Definition jsstring := list Z.

Definition is_unit (u : Z) : Prop := 0 <= u < 65536.

(** A string of the rest of the embedding as a sequence of code units. *)
Definition of_string (s : string) : jsstring := map code_unit (list_ascii_of_string s).

Definition is_high (u : Z) : bool := (55296 <=? u) && (u <=? 56319).   (* D800..DBFF *)
Definition is_low (u : Z) : bool := (56320 <=? u) && (u <=? 57343).    (* DC00..DFFF *)

(** The code point that a surrogate pair stands for. *)
Definition code_point (high low : Z) : Z :=
  65536 + (high - 55296) * 1024 + (low - 56320).

(** UTF-8 of one code point. *)
Definition utf8 (c : Z) : bytes :=
  if c <? 128 then [c]
  else if c <? 2048 then [192 + c / 64; 128 + c mod 64]
  else if c <? 65536 then [224 + c / 4096; 128 + (c / 64) mod 64; 128 + c mod 64]
  else [240 + c / 262144; 128 + (c / 4096) mod 64; 128 + (c / 64) mod 64; 128 + c mod 64].

(** UTF-8 of U+FFFD. *)
Definition REPLACEMENT : bytes := [239; 191; 189].

(** [new TextEncoder().encode(s)] *)
Fixpoint encode (s : jsstring) : bytes :=
  match s with
  | [] => []
  | u :: rest =>
      if is_high u then
        match rest with
        | l :: rest' =>
            if is_low l then utf8 (code_point u l) ++ encode rest'
            else REPLACEMENT ++ encode rest
        | [] => REPLACEMENT
        end
      else if is_low u then REPLACEMENT ++ encode rest
      else utf8 u ++ encode rest
  end.

(** No surrogate stands without its partner. *)
Fixpoint well_formed (s : jsstring) : bool :=
  match s with
  | [] => true
  | u :: rest =>
      if is_high u then
        match rest with
        | l :: rest' => is_low l && well_formed rest'
        | [] => false
        end
      else negb (is_low u) && well_formed rest
  end.

(** JavaScript truthiness of a string-valued argument that may be absent. *)
Definition truthy (s : option jsstring) : bool :=
  match s with
  | Some (_ :: _) => true
  | _ => false
  end.

(** [a === b] on strings. *)
Definition eqb (a b : jsstring) : bool :=
  if list_eq_dec Z.eq_dec a b then true else false.

Definition generateSalt : M jsstring :=
  salt <- MilkSecurity.generateSalt ;;
  ret (of_string salt).

Definition hashPassword (password : jsstring) (salt : option jsstring)
  : M (jsstring * jsstring) :=
  salt <- (match salt with
           | Some s => if truthy (Some s) then ret s else generateSalt
           | None => generateSalt
           end) ;;
  let data := encode (salt ++ password) in
  let hashBuffer := SHA256.digest data in
  let hashHex := of_string (hex_of_bytes hashBuffer) in
  ret (hashHex, salt).

Definition verifyPassword (password storedHash : jsstring) (salt : option jsstring)
  : M bool :=
  hs <- hashPassword password salt ;;
  ret (eqb (fst hs) storedHash).

End Utf16.

(** ** A call during which the clock moves

    [isLoginLocked] reads [Date.now()] twice: once for [cutoff] and once,
    in the locked branch, for [remainingMs].  Here the two readings are
    kept apart; [MilkSecurity.isLoginLocked now] is the call in which both
    readings give [now]. *)

Module Readings.

Import MilkSecurity.

Definition isLoginLocked (now now2 : Z) : M LockStatus :=
  attempts <- getLoginAttempts ;;
  let cutoff := now - LOCKOUT_DURATION_MS in
  let recentFailures :=
    filter (fun a => negb (a_success a) && (a_timestamp a >? cutoff)) attempts in
  if Z.of_nat (List.length recentFailures) >=? MAX_LOGIN_ATTEMPTS then
    let oldestInWindow := Math_min (map a_timestamp recentFailures) in
    let unlockTime := oldestInWindow + LOCKOUT_DURATION_MS in
    let remainingMs := unlockTime - now2 in
    let remainingMin := Math_ceil_div remainingMs 60000 in
    ret (Locked remainingMin
           ("Too many failed attempts. Try again in " ++ decimal remainingMin
            ++ " minute" ++ (if (remainingMin >? 1)%Z then "s" else EmptyString) ++ ".")%string)
  else
    let remainingAttempts := MAX_LOGIN_ATTEMPTS - Z.of_nat (List.length recentFailures) in
    ret (NotLocked remainingAttempts).

End Readings.

(** * Properties *)

Import MilkSecurity MilkApp.

(** ** Password validation *)

(** The five rules that [validatePassword] checks. *)
Inductive Rule := MinLength | MaxLength | Lowercase | Uppercase | Digit.

Definition violates (r : Rule) (p : string) : bool :=
  match r with
  | MinLength => len p <? 6
  | MaxLength => len p >? 128
  | Lowercase => negb (test is_lower p)
  | Uppercase => negb (test is_upper p)
  | Digit => negb (test is_digit p)
  end.

Definition issue_of (r : Rule) : string :=
  match r with
  | MinLength => ISSUE_SHORT
  | MaxLength => ISSUE_LONG
  | Lowercase => ISSUE_LOWER
  | Uppercase => ISSUE_UPPER
  | Digit => ISSUE_DIGIT
  end.

Definition meets_all_rules (p : string) : Prop :=
  6 <= len p <= 128 /\
  test is_lower p = true /\ test is_upper p = true /\ test is_digit p = true.

(** C10 as the specification words it. *)
Definition validatePassword_names_every_violation : Prop :=
  forall p : string,
    (valid (validatePassword p) = true <-> meets_all_rules p) /\
    (valid (validatePassword p) = false ->
       issues (validatePassword p) <> [] /\
       forall r, violates r p = true -> In (issue_of r) (issues (validatePassword p))).

Lemma validatePassword_empty :
  validatePassword EmptyString =
  mkValidation false [ISSUE_SHORT] (mkStrength 0 "None" "#64748b").
Proof. reflexivity. Qed.

(** The issues of a non-empty password, one guard per rule. *)
Lemma validatePassword_issues_nonempty c s :
  let p := String c s in
  issues (validatePassword p) =
    push_if (violates Digit p) ISSUE_DIGIT
      (push_if (violates Uppercase p) ISSUE_UPPER
         (push_if (violates Lowercase p) ISSUE_LOWER
            (push_if (violates MaxLength p) ISSUE_LONG
               (push_if (violates MinLength p) ISSUE_SHORT [])))).
Proof. reflexivity. Qed.

Lemma validatePassword_names_rule c s r :
  let p := String c s in
  violates r p = true <-> In (issue_of r) (issues (validatePassword p)).
Proof.
  intros p. subst p. rewrite validatePassword_issues_nonempty. cbv zeta.
  destruct r; cbn [issue_of];
    generalize (violates MinLength (String c s)) (violates MaxLength (String c s))
               (violates Lowercase (String c s)) (violates Uppercase (String c s))
               (violates Digit (String c s));
    intros [] [] [] [] []; unfold push_if; cbn [app In];
    unfold ISSUE_SHORT, ISSUE_LONG, ISSUE_LOWER, ISSUE_UPPER, ISSUE_DIGIT;
    (split; [ intros; try discriminate; auto 10 | intros H; try reflexivity;
              repeat (destruct H as [H | H]; try discriminate H); try contradiction ]).
Qed.

Lemma valid_length_zero p :
  valid (validatePassword p) = Nat.eqb (List.length (issues (validatePassword p))) 0.
Proof. reflexivity. Qed.

Lemma validatePassword_valid_nonempty c s :
  let p := String c s in
  valid (validatePassword p) = true <-> forall r, violates r p = false.
Proof.
  intros p. subst p. rewrite valid_length_zero, validatePassword_issues_nonempty.
  split.
  - intros H r. revert H.
    destruct r;
      destruct (violates MinLength (String c s)), (violates MaxLength (String c s)),
               (violates Lowercase (String c s)), (violates Uppercase (String c s)),
               (violates Digit (String c s));
      unfold push_if; cbn [app List.length Nat.eqb]; intros H;
      first [ reflexivity | discriminate H ].
  - intros H.
    rewrite (H MinLength), (H MaxLength), (H Lowercase), (H Uppercase), (H Digit).
    reflexivity.
Qed.

Lemma meets_all_rules_no_violation p :
  meets_all_rules p <-> forall r, violates r p = false.
Proof.
  unfold meets_all_rules. split.
  - intros (Hlen & Hl & Hu & Hd) r. destruct r; cbn [violates].
    + apply Z.ltb_ge. lia.
    + rewrite Z.gtb_ltb. apply Z.ltb_ge. lia.
    + now rewrite Hl.
    + now rewrite Hu.
    + now rewrite Hd.
  - intros H.
    pose proof (H MinLength) as H1. pose proof (H MaxLength) as H2.
    pose proof (H Lowercase) as H3. pose proof (H Uppercase) as H4.
    pose proof (H Digit) as H5. cbn [violates] in *.
    apply Z.ltb_ge in H1. rewrite Z.gtb_ltb in H2. apply Z.ltb_ge in H2.
    apply negb_false_iff in H3, H4, H5. repeat split; auto; lia.
Qed.

Lemma validatePassword_valid_iff p :
  valid (validatePassword p) = true <-> meets_all_rules p.
Proof.
  destruct p as [| c s].
  - rewrite validatePassword_empty. cbn [valid]. split; [discriminate |].
    intros (Hlen & _). unfold len in Hlen. cbn in Hlen. lia.
  - rewrite meets_all_rules_no_violation.
    apply (validatePassword_valid_nonempty c s).
Qed.

(** C10, the claim as stated, fails at the empty password: only the length
    rule is named although the three character-class rules are violated
    too. *)
Lemma validatePassword_empty_names_one_rule :
  ~ validatePassword_names_every_violation.
Proof.
  intros H. destruct (H EmptyString) as [_ Hissues].
  destruct (Hissues eq_refl) as [_ Hnames].
  specialize (Hnames Lowercase eq_refl).
  cbn in Hnames. destruct Hnames as [Heq | []]. discriminate Heq.
Qed.

(** C10 (amended).  For every string [p], [validatePassword p] is valid
    exactly when [p] has between 6 and 128 characters and contains a
    lowercase letter, an uppercase letter and a digit; when it is not valid
    the issues list is not empty; for a non-empty [p] the issues list names
    exactly the violated rules; for the empty string it holds the
    minimum-length issue alone. *)
Theorem validatePassword_spec (p : string) :
  (valid (validatePassword p) = true <-> meets_all_rules p) /\
  (valid (validatePassword p) = false -> issues (validatePassword p) <> []) /\
  (p <> EmptyString ->
     forall r, violates r p = true <-> In (issue_of r) (issues (validatePassword p))) /\
  (p = EmptyString -> issues (validatePassword p) = [ISSUE_SHORT]).
Proof.
  split; [apply validatePassword_valid_iff |].
  split; [| split].
  - rewrite valid_length_zero. intros H Hnil. rewrite Hnil in H. discriminate H.
  - destruct p as [| c s]; [congruence |]. intros _ r.
    apply (validatePassword_names_rule c s r).
  - intros ->. reflexivity.
Qed.

Lemma validatePassword_spec_witness :
  valid (validatePassword "Owner@123") = true /\
  valid (validatePassword "owner123") = false /\
  issues (validatePassword "owner123") <> [] /\
  In ISSUE_UPPER (issues (validatePassword "owner123")) /\
  issues (validatePassword EmptyString) = [ISSUE_SHORT].
Proof.
  destruct (validatePassword_spec "Owner@123") as [Hv _].
  destruct (validatePassword_spec "owner123") as (_ & Hi & Hn & _).
  destruct (validatePassword_spec EmptyString) as (_ & _ & _ & He).
  split; [| split; [| split; [| split]]].
  - apply Hv. unfold meets_all_rules. vm_compute. intuition discriminate.
  - reflexivity.
  - apply Hi. reflexivity.
  - apply (Hn ltac:(discriminate) Uppercase). reflexivity.
  - apply He. reflexivity.
Defined.

(** ** Login rate limiting *)

Lemma LOCKOUT_DURATION_MS_value : LOCKOUT_DURATION_MS = 300000.
Proof. reflexivity. Qed.

Lemma ATTEMPT_WINDOW_MS_value : ATTEMPT_WINDOW_MS = 900000.
Proof. reflexivity. Qed.

Lemma fold_min_le (l : list Z) (x : Z) :
  fold_left Z.min l x <= x /\ forall y, In y l -> fold_left Z.min l x <= y.
Proof.
  revert x. induction l as [| z l IH]; intros x; cbn [fold_left].
  - split; [lia | intros y []].
  - destruct (IH (Z.min x z)) as [H1 H2]. split; [lia |].
    intros y [-> | Hy]; [lia | auto].
Qed.

Lemma fold_min_in (l : list Z) (x : Z) :
  fold_left Z.min l x = x \/ In (fold_left Z.min l x) l.
Proof.
  revert x. induction l as [| z l IH]; intros x; cbn [fold_left].
  - now left.
  - destruct (IH (Z.min x z)) as [H | H].
    + rewrite H. destruct (Z.min_spec x z) as [[_ ->] | [_ ->]]; [now left | right; now left].
    + right. now right.
Qed.

Lemma Math_min_least (l : list Z) :
  l <> [] -> In (Math_min l) l /\ forall y, In y l -> Math_min l <= y.
Proof.
  destruct l as [| x l]; [congruence |]. intros _. unfold Math_min.
  destruct (fold_min_le l x) as [H1 H2]. split.
  - destruct (fold_min_in l x) as [-> | H]; [now left | now right].
  - intros y [<- | Hy]; auto.
Qed.

(** [Math_ceil_div x d] is the least integer [m] with [x <= m * d]. *)
Lemma Math_ceil_div_spec (x d : Z) :
  0 < d ->
  x <= Math_ceil_div x d * d /\ (Math_ceil_div x d - 1) * d < x.
Proof.
  intros Hd. unfold Math_ceil_div.
  pose proof (Z.div_mod (- x) d ltac:(lia)) as Hdm.
  pose proof (Z.mod_pos_bound (- x) d Hd) as Hm.
  nia.
Qed.

Lemma recentFailures_In now attempts a :
  In a (recentFailures now attempts) <->
  In a attempts /\ a_success a = false /\ now - LOCKOUT_DURATION_MS < a_timestamp a.
Proof.
  unfold recentFailures. rewrite filter_In, andb_true_iff, negb_true_iff.
  rewrite Z.gtb_ltb, Z.ltb_lt. tauto.
Qed.

(** The oldest of a non-empty list of recent failures fixes [unlockTime]. *)
Lemma unlockTime_oldest (failures : list LoginAttempt) :
  failures <> [] ->
  exists oldest,
    In oldest failures /\
    (forall a, In a failures -> a_timestamp oldest <= a_timestamp a) /\
    unlockTime failures = a_timestamp oldest + LOCKOUT_DURATION_MS.
Proof.
  intros Hne. unfold unlockTime.
  assert (Hmap : map a_timestamp failures <> []) by (destruct failures; [congruence | discriminate]).
  destruct (Math_min_least _ Hmap) as [Hin Hle].
  apply in_map_iff in Hin. destruct Hin as (oldest & Hts & Hin).
  exists oldest. repeat split; auto.
  - intros a Ha. rewrite Hts. apply Hle. now apply in_map.
  - now rewrite Hts.
Qed.

Lemma isLoginLocked_reads_only now st : after (isLoginLocked now) st = st.
Proof.
  unfold after, isLoginLocked, bind, getLoginAttempts, gets, ret. cbn.
  destruct (_ >=? _); reflexivity.
Qed.

Lemma isLoginLocked_locked_iff now st :
  locked (result (isLoginLocked now) st) = true <->
  MAX_LOGIN_ATTEMPTS <= Z.of_nat (List.length (recentFailures now (ls_attempts st))).
Proof.
  unfold result, isLoginLocked, bind, getLoginAttempts, gets, ret. cbn.
  rewrite Z.geb_leb.
  destruct (Z.leb_spec MAX_LOGIN_ATTEMPTS
              (Z.of_nat (List.length (recentFailures now (ls_attempts st)))));
    cbn; split; intros; try lia; try discriminate; reflexivity.
Qed.

(** C1.  [isLoginLocked] reports locked exactly when at least
    [MAX_LOGIN_ATTEMPTS] (5) recorded attempts are failures with a timestamp
    later than [now - LOCKOUT_DURATION_MS] (5 minutes); when locked, the
    unlock time is the timestamp of the oldest such failure plus 5 minutes
    and [remainingMinutes] is the least whole number of minutes covering
    the time left until then, which is at least 1; the call changes
    nothing. *)
Theorem isLoginLocked_spec (now : Z) (st : State) :
  let failures := recentFailures now (ls_attempts st) in
  let r := result (isLoginLocked now) st in
  (forall a, In a failures <->
             In a (ls_attempts st) /\ a_success a = false /\
             now - 300000 < a_timestamp a) /\
  (locked r = true <-> 5 <= Z.of_nat (List.length failures)) /\
  (locked r = true ->
     exists oldest m msg,
       In oldest failures /\
       (forall a, In a failures -> a_timestamp oldest <= a_timestamp a) /\
       unlockTime failures = a_timestamp oldest + 300000 /\
       r = Locked m msg /\
       unlockTime failures - now <= m * 60000 /\
       (m - 1) * 60000 < unlockTime failures - now /\
       1 <= m) /\
  after (isLoginLocked now) st = st.
Proof.
  intros failures r.
  split; [intros a; apply recentFailures_In |].
  split; [apply isLoginLocked_locked_iff |].
  split; [| apply isLoginLocked_reads_only].
  intros Hlocked.
  pose proof (proj1 (isLoginLocked_locked_iff now st) Hlocked) as Hcount.
  fold failures in Hcount. unfold MAX_LOGIN_ATTEMPTS in Hcount.
  assert (Hne : failures <> []).
  { intros Hnil. rewrite Hnil in Hcount. cbn in Hcount. lia. }
  destruct (unlockTime_oldest failures Hne) as (oldest & Hin & Hleast & Hunlock).
  pose proof (Math_ceil_div_spec (unlockTime failures - now) 60000 ltac:(lia)) as [Hc1 Hc2].
  exists oldest, (Math_ceil_div (unlockTime failures - now) 60000).
  eexists. repeat split; try eassumption.
  - subst r. unfold result, isLoginLocked, bind, getLoginAttempts, gets, ret. cbn.
    fold failures. rewrite Z.geb_leb.
    destruct (Z.leb_spec MAX_LOGIN_ATTEMPTS (Z.of_nat (List.length failures)));
      [reflexivity | unfold MAX_LOGIN_ATTEMPTS in *; lia].
  - apply recentFailures_In in Hin. destruct Hin as (_ & _ & Hts).
    rewrite LOCKOUT_DURATION_MS_value in *. lia.
Qed.

(** A state to run examples from: empty storage, no session, and a random
    tape that counts 0, 1, 2, ... *)
Definition counting_tape : Rng := mkRng (fun i => Z.of_nat i) 0.

Definition freshState : State :=
  mkState None [] [] [] false None "Mozilla/5.0 (X11; Linux x86_64)" counting_tape.

(** Failed attempts recorded one after the other, each at its own time. *)
Fixpoint recordFailures (fs : list (string * Z)) : M unit :=
  match fs with
  | [] => ret tt
  | f :: fs' => recordLoginAttempt (fst f) false (snd f) ;; recordFailures fs'
  end.

Definition five_failures : list (string * Z) :=
  [("owner", 0); ("owner", 60000); ("owner", 120000); ("owner", 180000);
   ("owner", 240000)].

Lemma isLoginLocked_spec_witness :
  let st := after (recordFailures five_failures) freshState in
  let failures := recentFailures 241000 (ls_attempts st) in
  locked (result (isLoginLocked 241000) st) = true /\
  exists oldest m msg,
    In oldest failures /\
    (forall a, In a failures -> a_timestamp oldest <= a_timestamp a) /\
    unlockTime failures = a_timestamp oldest + 300000 /\
    result (isLoginLocked 241000) st = Locked m msg /\
    unlockTime failures - 241000 <= m * 60000 /\
    (m - 1) * 60000 < unlockTime failures - 241000 /\
    1 <= m.
Proof.
  intros st failures.
  destruct (isLoginLocked_spec 241000 st) as (_ & _ & Hlocked & _).
  split; [reflexivity |]. apply Hlocked. reflexivity.
Defined.

Example isLoginLocked_after_five :
  result (isLoginLocked 241000) (after (recordFailures five_failures) freshState) =
  Locked 1 "Too many failed attempts. Try again in 1 minute.".
Proof. reflexivity. Qed.

Example isLoginLocked_after_four :
  result (isLoginLocked 300000) (after (recordFailures five_failures) freshState) =
  NotLocked 1.
Proof. reflexivity. Qed.

Definition failure_of (f : string * Z) : LoginAttempt :=
  mkAttempt (fst f) (snd f) false.

(** C2 as the specification words it: on a fresh log, five failures within
    five minutes of the earliest, then a sixth; whenever [isLoginLocked]
    reports locked afterwards, the unlock time is at most the earliest
    failure's timestamp plus five minutes. *)
Definition sixth_failure_never_extends : Prop :=
  forall (st : State) (fs : list (string * Z)) (earliest : Z)
         (u6 : string) (t6 now : Z),
    ls_attempts st = [] ->
    List.length fs = 5%nat ->
    In earliest (map snd fs) ->
    (forall t, In t (map snd fs) -> earliest <= t < earliest + 300000 /\ t <= t6) ->
    t6 <= now ->
    let st5 := after (recordFailures fs) st in
    let st6 := after (recordLoginAttempt u6 false t6) st5 in
    locked (result (isLoginLocked now) st6) = true ->
    unlockTime (recentFailures now (ls_attempts st6)) <= earliest + 300000.

Lemma recordLoginAttempt_attempts username success now st :
  ls_attempts (after (recordLoginAttempt username success now) st) =
  filter (fun a => a_timestamp a >? now - ATTEMPT_WINDOW_MS)
         (ls_attempts st ++ [mkAttempt username now success]).
Proof. reflexivity. Qed.

Lemma recentFailures_app now l l' :
  recentFailures now (l ++ l') = recentFailures now l ++ recentFailures now l'.
Proof. unfold recentFailures. apply filter_app. Qed.

(** Pruning to the 15-minute window at time [t] keeps every failure that
    counts at [now], as long as [t] is not more than 10 minutes after
    [now]. *)
Lemma recentFailures_prune now t l :
  t <= now + 600000 ->
  recentFailures now (filter (fun a => a_timestamp a >? t - ATTEMPT_WINDOW_MS) l) =
  recentFailures now l.
Proof.
  intros Ht. unfold recentFailures. induction l as [| a l IH]; [reflexivity |].
  cbn [filter].
  destruct (Z.ltb_spec (t - ATTEMPT_WINDOW_MS) (a_timestamp a)) as [Hin | Hout];
    rewrite Z.gtb_ltb.
  - apply Z.ltb_lt in Hin. rewrite Hin. cbn [filter]. now rewrite IH.
  - assert (Hcut : (a_timestamp a >? now - LOCKOUT_DURATION_MS) = false).
    { rewrite Z.gtb_ltb. apply Z.ltb_ge.
      rewrite ATTEMPT_WINDOW_MS_value in Hout. rewrite LOCKOUT_DURATION_MS_value. lia. }
    apply Z.ltb_ge in Hout. rewrite Hout, Hcut, andb_false_r. exact IH.
Qed.

Lemma recentFailures_record now username success t st :
  t <= now + 600000 ->
  recentFailures now (ls_attempts (after (recordLoginAttempt username success t) st)) =
  recentFailures now (ls_attempts st) ++ recentFailures now [mkAttempt username t success].
Proof.
  intros Ht. rewrite recordLoginAttempt_attempts, recentFailures_prune by exact Ht.
  apply recentFailures_app.
Qed.

Lemma recordFailures_cons f fs st :
  after (recordFailures (f :: fs)) st =
  after (recordFailures fs) (after (recordLoginAttempt (fst f) false (snd f)) st).
Proof.
  unfold after. cbn [recordFailures]. unfold bind.
  destruct (recordLoginAttempt (fst f) false (snd f) st). reflexivity.
Qed.

Lemma recentFailures_recordFailures now fs st :
  (forall t, In t (map snd fs) -> t <= now + 600000) ->
  recentFailures now (ls_attempts (after (recordFailures fs) st)) =
  recentFailures now (ls_attempts st) ++ recentFailures now (map failure_of fs).
Proof.
  revert st. induction fs as [| f fs IH]; intros st Hts.
  - cbn. now rewrite app_nil_r.
  - rewrite recordFailures_cons, IH by (intros t Ht; apply Hts; now right).
    rewrite recentFailures_record by (apply Hts; now left).
    rewrite <- app_assoc. f_equal. now rewrite <- recentFailures_app.
Qed.

Lemma recentFailures_all_recent now fs :
  (forall t, In t (map snd fs) -> now - 300000 < t) ->
  recentFailures now (map failure_of fs) = map failure_of fs.
Proof.
  intros Hts. induction fs as [| f fs IH]; [reflexivity |].
  unfold recentFailures in *. cbn [map filter failure_of a_success a_timestamp negb andb].
  assert (Hf : (snd f >? now - LOCKOUT_DURATION_MS) = true).
  { rewrite Z.gtb_ltb. apply Z.ltb_lt. rewrite LOCKOUT_DURATION_MS_value.
    apply Hts. now left. }
  rewrite Hf. f_equal. apply IH. intros t Ht. apply Hts. now right.
Qed.

Lemma Math_min_unique (l : list Z) (m : Z) :
  In m l -> (forall y, In y l -> m <= y) -> Math_min l = m.
Proof.
  intros Hin Hle.
  assert (Hne : l <> []) by (destruct l; [destruct Hin | discriminate]).
  destruct (Math_min_least l Hne) as [Hin' Hle'].
  pose proof (Hle _ Hin'). pose proof (Hle' _ Hin). lia.
Qed.

(** A further failure no older than some failure already counted leaves the
    unlock time where it is. *)
Lemma unlockTime_snoc (failures : list LoginAttempt) (a b : LoginAttempt) :
  In a failures -> a_timestamp a <= a_timestamp b ->
  unlockTime (failures ++ [b]) = unlockTime failures.
Proof.
  intros Hin Hab. unfold unlockTime. f_equal.
  assert (Hne : map a_timestamp failures <> [])
    by (destruct failures; [destruct Hin | discriminate]).
  destruct (Math_min_least _ Hne) as [Hmin Hle].
  apply Math_min_unique.
  - rewrite map_app, in_app_iff. now left.
  - intros y Hy. rewrite map_app, in_app_iff in Hy. destruct Hy as [Hy | [<- | []]].
    + now apply Hle.
    + pose proof (Hle _ (in_map a_timestamp _ _ Hin)). lia.
Qed.

Lemma unlockTime_le (failures : list LoginAttempt) (a : LoginAttempt) :
  In a failures -> unlockTime failures <= a_timestamp a + 300000.
Proof.
  intros Hin. unfold unlockTime.
  assert (Hne : map a_timestamp failures <> [])
    by (destruct failures; [destruct Hin | discriminate]).
  destruct (Math_min_least _ Hne) as [_ Hle].
  pose proof (Hle _ (in_map a_timestamp _ _ Hin)).
  rewrite LOCKOUT_DURATION_MS_value. lia.
Qed.

(** C2, the claim as stated, fails: failures at 0, 1, 2, 3 and 4 minutes
    and a sixth at 4 min 10 s.  At minute 5 the first failure has left the
    window, the other five still count, and the unlock time is minute 6,
    later than the earliest failure plus five minutes. *)
Lemma sixth_failure_extends_lockout : ~ sixth_failure_never_extends.
Proof.
  intros H.
  specialize (H freshState five_failures 0 "owner" 250000 300000
                eq_refl eq_refl).
  cbv zeta in H.
  assert (Hbad : unlockTime
            (recentFailures 300000
               (ls_attempts
                  (after (recordLoginAttempt "owner" false 250000)
                     (after (recordFailures five_failures) freshState)))) = 360000)
    by reflexivity.
  rewrite Hbad in H. clear Hbad.
  assert (360000 <= 0 + 300000); [| lia].
  apply H.
  - cbn. now left.
  - cbn. intros t Ht. repeat (destruct Ht as [<- | Ht]; [lia |]). destruct Ht.
  - lia.
  - reflexivity.
Qed.

(** C2 (amended).  After five failed attempts recorded within five minutes
    of the earliest, [isLoginLocked] reports locked at every time before
    the earliest failure's timestamp plus five minutes; recording a sixth
    failed attempt leaves the unlock time unchanged at every later time
    before that instant, where it is never later than the earliest
    failure's timestamp plus five minutes.  (From that instant on the
    window has moved past the earliest failure and the claim is silent.) *)
Theorem sixth_failure_within_window
    (st : State) (fs : list (string * Z)) (earliest : Z)
    (u6 : string) (t6 now5 now : Z) :
  List.length fs = 5%nat ->
  In earliest (map snd fs) ->
  (forall t, In t (map snd fs) -> earliest <= t /\ t <= now5 /\ t <= t6) ->
  now5 < earliest + 300000 ->
  t6 <= now ->
  now < earliest + 300000 ->
  let st5 := after (recordFailures fs) st in
  let st6 := after (recordLoginAttempt u6 false t6) st5 in
  locked (result (isLoginLocked now5) st5) = true /\
  locked (result (isLoginLocked now) st6) = true /\
  unlockTime (recentFailures now (ls_attempts st6)) =
    unlockTime (recentFailures now (ls_attempts st5)) /\
  unlockTime (recentFailures now (ls_attempts st6)) <= earliest + 300000.
Proof.
  intros Hlen Hin Hts Hnow5 Ht6 Hnow st5 st6.
  assert (Hearliest6 : earliest <= t6) by (apply Hts in Hin; lia).
  assert (H5 : recentFailures now5 (ls_attempts st5) =
               recentFailures now5 (ls_attempts st) ++ map failure_of fs).
  { subst st5. rewrite recentFailures_recordFailures
      by (intros t Ht; apply Hts in Ht; lia).
    f_equal. apply recentFailures_all_recent. intros t Ht. apply Hts in Ht. lia. }
  assert (H5' : recentFailures now (ls_attempts st5) =
                recentFailures now (ls_attempts st) ++ map failure_of fs).
  { subst st5. rewrite recentFailures_recordFailures
      by (intros t Ht; apply Hts in Ht; lia).
    f_equal. apply recentFailures_all_recent. intros t Ht. apply Hts in Ht. lia. }
  assert (H6 : recentFailures now (ls_attempts st6) =
               recentFailures now (ls_attempts st5) ++ [mkAttempt u6 t6 false]).
  { subst st6. rewrite recentFailures_record by lia. f_equal.
    apply (recentFailures_all_recent now [(u6, t6)]).
    intros t [<- | []]. cbn. lia. }
  apply in_map_iff in Hin. destruct Hin as (fe & Hfe & Hin).
  assert (Holdest : In (failure_of fe) (recentFailures now (ls_attempts st5))).
  { rewrite H5', in_app_iff. right. now apply in_map. }
  split; [| split; [| split]].
  - apply isLoginLocked_locked_iff. rewrite H5, length_app, length_map, Hlen.
    unfold MAX_LOGIN_ATTEMPTS. lia.
  - apply isLoginLocked_locked_iff.
    rewrite H6, H5', !length_app, length_map, Hlen.
    unfold MAX_LOGIN_ATTEMPTS. cbn [List.length]. lia.
  - rewrite H6. apply (unlockTime_snoc _ (failure_of fe)); [exact Holdest |].
    cbn. lia.
  - rewrite H6, (unlockTime_snoc _ (failure_of fe)) by (try exact Holdest; cbn; lia).
    pose proof (unlockTime_le _ _ Holdest) as Hle. cbn in Hle. lia.
Qed.

Lemma sixth_failure_within_window_witness :
  let st5 := after (recordFailures five_failures) freshState in
  let st6 := after (recordLoginAttempt "owner" false 250000) st5 in
  locked (result (isLoginLocked 240000) st5) = true /\
  locked (result (isLoginLocked 299999) st6) = true /\
  unlockTime (recentFailures 299999 (ls_attempts st6)) =
    unlockTime (recentFailures 299999 (ls_attempts st5)) /\
  unlockTime (recentFailures 299999 (ls_attempts st6)) <= 0 + 300000.
Proof.
  apply (sixth_failure_within_window freshState five_failures 0 "owner"
           250000 240000 299999).
  - reflexivity.
  - cbn. now left.
  - cbn. intros t Ht. repeat (destruct Ht as [<- | Ht]; [lia |]). destruct Ht.
  - lia.
  - lia.
  - lia.
Defined.

(** ** Password hashing *)

(** The digest agrees with the published test vectors. *)
Example sha256_abc :
  hex_of_bytes (SHA256.digest (encode "abc")) =
  "ba7816bf8f01cfea414140de5dae2223b00361a396177a9cb410ff61f20015ad".
Proof. vm_compute. reflexivity. Qed.

Example sha256_empty :
  hex_of_bytes (SHA256.digest []) =
  "e3b0c44298fc1c149afbf4c8996fb92427ae41e4649b934ca495991b7852b855".
Proof. vm_compute. reflexivity. Qed.

Example sha256_two_blocks :
  hex_of_bytes (SHA256.digest (repeat 97 100)) =
  "2816597888e4a0d3a36b82b83316ab32680eb8f00f8cd3b904d681246d285a0e".
Proof. vm_compute. reflexivity. Qed.

Lemma be_bytes_range n x : Forall is_byte (SHA256.be_bytes n x).
Proof.
  induction n as [| n IH]; cbn [SHA256.be_bytes]; constructor; [| exact IH].
  unfold is_byte. change 255 with (Z.ones 8). rewrite Z.land_ones by lia.
  pose proof (Z.mod_pos_bound (Z.shiftr x (8 * Z.of_nat n)) (2 ^ 8) ltac:(lia)). lia.
Qed.

Lemma be_bytes_length n x : List.length (SHA256.be_bytes n x) = n.
Proof. induction n as [| n IH]; cbn [SHA256.be_bytes List.length]; congruence. Qed.

Lemma digest_bytes msg : Forall is_byte (SHA256.digest msg).
Proof.
  unfold SHA256.digest. cbv zeta.
  repeat (apply Forall_app; split); apply be_bytes_range.
Qed.

Lemma digest_length msg : List.length (SHA256.digest msg) = 32%nat.
Proof.
  unfold SHA256.digest. cbv zeta. rewrite !length_app, !be_bytes_length. reflexivity.
Qed.

Lemma hex_digit_inj d e :
  0 <= d < 16 -> 0 <= e < 16 -> hex_digit d = hex_digit e -> d = e.
Proof.
  intros Hd He.
  assert (Hcases : forall x, 0 <= x < 16 ->
            x = 0 \/ x = 1 \/ x = 2 \/ x = 3 \/ x = 4 \/ x = 5 \/ x = 6 \/ x = 7 \/
            x = 8 \/ x = 9 \/ x = 10 \/ x = 11 \/ x = 12 \/ x = 13 \/ x = 14 \/ x = 15)
    by (intros; lia).
  destruct (Hcases d Hd) as [-> | [-> | [-> | [-> | [-> | [-> | [-> | [-> |
             [-> | [-> | [-> | [-> | [-> | [-> | [-> | ->]]]]]]]]]]]]]]];
    destruct (Hcases e He) as [-> | [-> | [-> | [-> | [-> | [-> | [-> | [-> |
               [-> | [-> | [-> | [-> | [-> | [-> | [-> | ->]]]]]]]]]]]]]]];
    vm_compute; intros H; first [ reflexivity | discriminate H ].
Qed.

Lemma hex2_inj b c : is_byte b -> is_byte c -> hex2 b = hex2 c -> b = c.
Proof.
  unfold is_byte, hex2. intros Hb Hc H. injection H as H1 H2.
  apply hex_digit_inj in H1;
    [| split; [apply Z.div_pos | apply Z.div_lt_upper_bound]; lia ..].
  apply hex_digit_inj in H2; [| apply Z.mod_pos_bound; lia ..].
  rewrite (Z.div_mod b 16), (Z.div_mod c 16) by lia. congruence.
Qed.

Lemma hex_of_bytes_inj bs cs :
  Forall is_byte bs -> Forall is_byte cs ->
  hex_of_bytes bs = hex_of_bytes cs -> bs = cs.
Proof.
  intros Hbs. revert cs. induction Hbs as [| b bs Hb Hbs IH]; intros cs Hcs H.
  - destruct cs; [reflexivity | discriminate H].
  - destruct Hcs as [| c cs Hc Hcs]; [discriminate H |].
    cbn [hex_of_bytes] in H. unfold hex2 in H. cbn [String.append] in H.
    injection H as H1 H2 H3.
    f_equal; [| now apply IH].
    apply hex2_inj; auto. unfold hex2. congruence.
Qed.

(** [encode] has a left inverse on the strings of code units up to
    U+00FF. *)
Fixpoint utf8_decode (bs : bytes) : string :=
  match bs with
  | [] => EmptyString
  | b :: rest =>
      if b <? 128 then String (ascii_of_N (Z.to_N b)) (utf8_decode rest)
      else
        match rest with
        | [] => EmptyString
        | b2 :: rest' =>
            String (ascii_of_N (Z.to_N (Z.land b 3 * 64 + Z.land b2 63)))
                   (utf8_decode rest')
        end
  end.

Lemma utf8_decode_unit c rest :
  utf8_decode (utf8_unit (code_unit c) ++ rest) = String c (utf8_decode rest).
Proof.
  destruct c as [[] [] [] [] [] [] [] []]; reflexivity.
Qed.

Lemma utf8_decode_encode s : utf8_decode (encode s) = s.
Proof.
  induction s as [| c s IH]; [reflexivity |].
  cbn [encode]. now rewrite utf8_decode_unit, IH.
Qed.

(** A SHA-256 collision between the salted encodings of two passwords. *)
Definition collide (salt p p' : string) : Prop :=
  SHA256.digest (encode (salt ++ p')) = SHA256.digest (encode (salt ++ p)).

(** C3 as the specification words it, for every salt. *)
Definition verifyPassword_for_every_salt : Prop :=
  forall (password salt : string) (st : State),
    let h := hashPassword password (Some salt) in
    let stored := fst (result h st) in
    result (verifyPassword password stored (Some salt)) (after h st) = true /\
    forall p', p' <> password -> ~ collide salt password p' ->
               result (verifyPassword p' stored (Some salt)) (after h st) = false.

Lemma hashPassword_with_salt password c salt st :
  hashPassword password (Some (String c salt)) st =
  ((hex_of_bytes (SHA256.digest (encode (String c salt ++ password))), String c salt), st).
Proof. reflexivity. Qed.

Lemma verifyPassword_with_salt password stored c salt st :
  verifyPassword password stored (Some (String c salt)) st =
  (String.eqb (hex_of_bytes (SHA256.digest (encode (String c salt ++ password)))) stored,
   st).
Proof. reflexivity. Qed.


(** *** Every JavaScript string *)

(** A UTF-8 decoder into code units, for the output of [Utf16.encode]. *)
Fixpoint utf16_decode (bs : bytes) : Utf16.jsstring :=
  match bs with
  | [] => []
  | b0 :: r0 =>
      if b0 <? 128 then b0 :: utf16_decode r0
      else
        match r0 with
        | [] => []
        | b1 :: r1 =>
            if b0 <? 224 then ((b0 - 192) * 64 + (b1 - 128)) :: utf16_decode r1
            else
              match r1 with
              | [] => []
              | b2 :: r2 =>
                  if b0 <? 240
                  then ((b0 - 224) * 4096 + (b1 - 128) * 64 + (b2 - 128)) :: utf16_decode r2
                  else
                    match r2 with
                    | [] => []
                    | b3 :: r3 =>
                        let c := (b0 - 240) * 262144 + (b1 - 128) * 4096
                                 + (b2 - 128) * 64 + (b3 - 128) in
                        (55296 + (c - 65536) / 1024)
                          :: (56320 + (c - 65536) mod 1024) :: utf16_decode r3
                    end
              end
        end
  end.

(** The encoder on one, two, three and four bytes (U+0041, U+00E9, U+20AC,
    U+1F600 as the pair D83D DE00) and on unpaired surrogates. *)
Example utf16_encode_vectors :
  Utf16.encode [65; 233; 8364; 55357; 56832] =
    [65; 195; 169; 226; 130; 172; 240; 159; 152; 128] /\
  Utf16.encode [55357] = [239; 191; 189] /\
  Utf16.encode [56832; 55357; 65] = [239; 191; 189; 239; 191; 189; 65].
Proof. repeat split. Qed.

(** Unicode text: code units in range and no unpaired surrogate. *)
Definition text (s : Utf16.jsstring) : Prop :=
  Forall Utf16.is_unit s /\ Utf16.well_formed s = true.

Ltac ltb_cases :=
  repeat match goal with
         | |- context [?a <? ?b] => destruct (Z.ltb_spec a b)
         end.

Lemma utf16_decode_unit c rest :
  0 <= c < 65536 -> utf16_decode (Utf16.utf8 c ++ rest) = c :: utf16_decode rest.
Proof.
  intros Hc. unfold Utf16.utf8.
  destruct (Z.ltb_spec c 128); [| destruct (Z.ltb_spec c 2048); [| destruct (Z.ltb_spec c 65536)]];
    cbn [app utf16_decode]; ltb_cases;
    try (exfalso; Z.div_mod_to_equations; lia);
    try (f_equal; Z.div_mod_to_equations; lia).
Qed.

Lemma utf16_decode_pair h l rest :
  Utf16.is_high h = true -> Utf16.is_low l = true ->
  utf16_decode (Utf16.utf8 (Utf16.code_point h l) ++ rest) = h :: l :: utf16_decode rest.
Proof.
  unfold Utf16.is_high, Utf16.is_low, Utf16.code_point. intros Hh Hl.
  apply andb_true_iff in Hh, Hl. rewrite !Z.leb_le in Hh, Hl.
  set (c := 65536 + (h - 55296) * 1024 + (l - 56320)).
  assert (Hc : 65536 <= c < 1114112) by (subst c; lia).
  unfold Utf16.utf8.
  destruct (Z.ltb_spec c 128); [lia |]. destruct (Z.ltb_spec c 2048); [lia |].
  destruct (Z.ltb_spec c 65536); [lia |].
  cbn [app utf16_decode]. cbv zeta.
  ltb_cases; try (exfalso; Z.div_mod_to_equations; lia).
  replace ((240 + c / 262144 - 240) * 262144 + (128 + (c / 4096) mod 64 - 128) * 4096
           + (128 + (c / 64) mod 64 - 128) * 64 + (128 + c mod 64 - 128)) with c
    by (Z.div_mod_to_equations; lia).
  f_equal; [| f_equal]; subst c; Z.div_mod_to_equations; lia.
Qed.

Lemma utf16_decode_encode_upto (n : nat) (s : Utf16.jsstring) :
  (List.length s <= n)%nat -> text s -> utf16_decode (Utf16.encode s) = s.
Proof.
  revert s. induction n as [| n IH]; intros s Hlen [Hunits Hwf].
  - destruct s; [reflexivity | cbn in Hlen; lia].
  - destruct s as [| u rest]; [reflexivity |].
    cbn [Utf16.encode Utf16.well_formed] in *. cbn [List.length] in Hlen.
    inversion Hunits as [| ? ? Hu Hrest]; subst.
    destruct (Utf16.is_high u) eqn:Hhigh.
    + destruct rest as [| l rest']; [discriminate Hwf |].
      apply andb_true_iff in Hwf. destruct Hwf as [Hlow Hwf]. rewrite Hlow.
      inversion Hrest as [| ? ? Hl Hrest']; subst.
      rewrite utf16_decode_pair by assumption.
      rewrite IH; [reflexivity | cbn [List.length] in Hlen; lia | now split].
    + apply andb_true_iff in Hwf. destruct Hwf as [Hlow Hwf].
      apply negb_true_iff in Hlow. rewrite Hlow.
      rewrite utf16_decode_unit by exact Hu.
      rewrite IH; [reflexivity | lia | now split].
Qed.

(** On Unicode text [TextEncoder.encode] loses nothing. *)
Lemma utf16_encode_inj (s t : Utf16.jsstring) :
  text s -> text t -> Utf16.encode s = Utf16.encode t -> s = t.
Proof.
  intros Hs Ht H.
  rewrite <- (utf16_decode_encode_upto (List.length s) s (le_n _) Hs).
  rewrite <- (utf16_decode_encode_upto (List.length t) t (le_n _) Ht).
  now rewrite H.
Qed.

Lemma well_formed_app_upto (n : nat) (s t : Utf16.jsstring) :
  (List.length s <= n)%nat ->
  Utf16.well_formed s = true -> Utf16.well_formed t = true ->
  Utf16.well_formed (s ++ t) = true.
Proof.
  revert s. induction n as [| n IH]; intros s Hlen Hs Ht.
  - destruct s; [exact Ht | cbn in Hlen; lia].
  - destruct s as [| u rest]; [exact Ht |].
    cbn [app Utf16.well_formed] in *. cbn [List.length] in Hlen.
    destruct (Utf16.is_high u).
    + destruct rest as [| l rest']; [discriminate Hs |]. cbn [app].
      apply andb_true_iff in Hs. destruct Hs as [Hlow Hs]. rewrite Hlow. cbn [andb].
      apply IH; [cbn [List.length] in Hlen; lia | exact Hs | exact Ht].
    + apply andb_true_iff in Hs. destruct Hs as [Hlow Hs]. rewrite Hlow. cbn [andb].
      apply IH; [lia | exact Hs | exact Ht].
Qed.

Lemma text_app (s t : Utf16.jsstring) : text s -> text t -> text (s ++ t).
Proof.
  intros [Hs Hws] [Ht Hwt]. split.
  - apply Forall_app. now split.
  - now apply (well_formed_app_upto (List.length s)).
Qed.

(** On the strings of code units up to U+00FF the functions of [Utf16]
    are those of [MilkSecurity]. *)
Lemma utf8_code_unit c : Utf16.utf8 (code_unit c) = utf8_unit (code_unit c).
Proof. destruct c as [[] [] [] [] [] [] [] []]; reflexivity. Qed.

Lemma code_unit_no_surrogate c :
  Utf16.is_high (code_unit c) = false /\ Utf16.is_low (code_unit c) = false.
Proof. destruct c as [[] [] [] [] [] [] [] []]; split; reflexivity. Qed.

Lemma encode_of_string s : Utf16.encode (Utf16.of_string s) = encode s.
Proof.
  induction s as [| c s IH]; [reflexivity |].
  unfold Utf16.of_string in *. cbn [list_ascii_of_string map Utf16.encode encode].
  destruct (code_unit_no_surrogate c) as [-> ->]. now rewrite utf8_code_unit, IH.
Qed.

Lemma code_unit_inj c d : code_unit c = code_unit d -> c = d.
Proof.
  unfold code_unit. intros H. apply N2Z.inj in H.
  rewrite <- (ascii_N_embedding c), <- (ascii_N_embedding d). now rewrite H.
Qed.

Lemma of_string_inj s t : Utf16.of_string s = Utf16.of_string t -> s = t.
Proof.
  unfold Utf16.of_string. revert t.
  induction s as [| c s IH]; intros [| d t] H; cbn [list_ascii_of_string map] in H;
    try discriminate; [reflexivity |].
  injection H as Hc Hs. f_equal; [now apply code_unit_inj | now apply IH].
Qed.

Lemma of_string_app s t :
  Utf16.of_string (s ++ t) = Utf16.of_string s ++ Utf16.of_string t.
Proof.
  unfold Utf16.of_string. induction s as [| c s IH]; [reflexivity |].
  cbn [String.append list_ascii_of_string map app]. now rewrite IH.
Qed.

Lemma jsstring_eqb_eq a b : Utf16.eqb a b = true <-> a = b.
Proof.
  unfold Utf16.eqb. destruct (list_eq_dec Z.eq_dec a b); split; congruence.
Qed.

Lemma jsstring_eqb_of_string s t :
  Utf16.eqb (Utf16.of_string s) (Utf16.of_string t) = String.eqb s t.
Proof.
  destruct (String.eqb_spec s t) as [-> | Hne].
  - now apply jsstring_eqb_eq.
  - destruct (Utf16.eqb _ _) eqn:H; [| reflexivity].
    apply jsstring_eqb_eq, of_string_inj in H. contradiction.
Qed.

Lemma hashPassword_of_string password salt st :
  Utf16.hashPassword (Utf16.of_string password) (option_map Utf16.of_string salt) st =
  let r := hashPassword password salt st in
  ((Utf16.of_string (fst (fst r)), Utf16.of_string (snd (fst r))), snd r).
Proof.
  assert (Hfresh : Utf16.hashPassword (Utf16.of_string password) None st =
                   let r := hashPassword password None st in
                   ((Utf16.of_string (fst (fst r)), Utf16.of_string (snd (fst r))), snd r)).
  { unfold Utf16.hashPassword, Utf16.generateSalt, hashPassword, bind, ret.
    destruct (generateSalt st) as [salt' st1]. cbv zeta. cbn [fst snd].
    now rewrite <- of_string_app, encode_of_string. }
  destruct salt as [[| c salt] |]; [exact Hfresh | | exact Hfresh].
  unfold Utf16.hashPassword, hashPassword, bind, ret. cbv zeta.
  cbn [option_map Utf16.truthy truthy fst snd].
  change (Utf16.of_string (String c salt)) with (code_unit c :: Utf16.of_string salt).
  cbn [Utf16.truthy fst snd].
  change (code_unit c :: Utf16.of_string salt) with (Utf16.of_string (String c salt)).
  now rewrite <- of_string_app, encode_of_string.
Qed.

Lemma verifyPassword_of_string password storedHash salt st :
  Utf16.verifyPassword (Utf16.of_string password) (Utf16.of_string storedHash)
                       (option_map Utf16.of_string salt) st =
  verifyPassword password storedHash salt st.
Proof.
  unfold Utf16.verifyPassword, verifyPassword, bind, ret.
  rewrite hashPassword_of_string. cbv zeta.
  destruct (hashPassword password salt st) as [[h s0] st1]. cbn [fst snd].
  now rewrite jsstring_eqb_of_string.
Qed.

Lemma utf16_hashPassword_with_salt password u salt st :
  Utf16.hashPassword password (Some (u :: salt)) st =
  ((Utf16.of_string (hex_of_bytes (SHA256.digest (Utf16.encode ((u :: salt) ++ password)))),
    u :: salt), st).
Proof. reflexivity. Qed.

Lemma utf16_verifyPassword_with_salt password stored u salt st :
  Utf16.verifyPassword password stored (Some (u :: salt)) st =
  (Utf16.eqb
     (Utf16.of_string (hex_of_bytes (SHA256.digest (Utf16.encode ((u :: salt) ++ password)))))
     stored,
   st).
Proof. reflexivity. Qed.



(** ** Session management *)

Lemma SESSION_TIMEOUT_MS_value : SESSION_TIMEOUT_MS = 1800000.
Proof. reflexivity. Qed.

Definition minutes (n : Z) : Z := n * 60000.

Lemma createSession_stores user T st :
  let s := result (createSession user T) st in
  ls_session (after (createSession user T) st) = Some s /\
  monitor (after (createSession user T) st) = true /\
  s_createdAt s = T /\ s_lastActivity s = T /\ s_expiresAt s = T + minutes 30.
Proof. cbv zeta. repeat split. Qed.

Lemma getSession_valid now s st :
  ls_session st = Some s -> now <= s_expiresAt s ->
  getSession now st = (Some s, st).
Proof.
  intros Hs Hnow. unfold getSession, bind, gets. rewrite Hs.
  rewrite Z.gtb_ltb. destruct (Z.ltb_spec (s_expiresAt s) now); [lia | reflexivity].
Qed.

Lemma getSession_expired now s st :
  ls_session st = Some s -> s_expiresAt s < now ->
  getSession now st = (None, set_monitor false (set_session None st)).
Proof.
  intros Hs Hnow. unfold getSession, bind, gets. rewrite Hs.
  rewrite Z.gtb_ltb. destruct (Z.ltb_spec (s_expiresAt s) now); [reflexivity | lia].
Qed.

Lemma getSession_absent now st :
  ls_session st = None -> getSession now st = (None, st).
Proof. intros Hs. unfold getSession, bind, gets. now rewrite Hs. Qed.

(** C4.  A session created at time [T] and left alone is returned, with the
    state unchanged, by [getSession] at every time up to and including
    [T + 30 minutes]; at every later time [getSession] returns none and
    destroys the stored session (the key is removed, the inactivity monitor
    stopped), so that every further read returns none; [getSession] with no
    stored session returns none and changes nothing. *)
Theorem getSession_after_createSession (user : CurrentUser) (T now : Z) (st : State) :
  let s := result (createSession user T) st in
  let st1 := after (createSession user T) st in
  (now <= T + minutes 30 -> getSession now st1 = (Some s, st1)) /\
  (T + minutes 30 < now ->
     result (getSession now) st1 = None /\
     after (getSession now) st1 = set_monitor false (set_session None st1) /\
     ls_session (after (getSession now) st1) = None /\
     forall later, result (getSession later) (after (getSession now) st1) = None) /\
  (forall st0, ls_session st0 = None -> getSession now st0 = (None, st0)).
Proof.
  intros s st1.
  destruct (createSession_stores user T st) as (Hstored & _ & _ & _ & Hexp).
  fold s st1 in Hstored, Hexp.
  split; [| split].
  - intros Hnow. apply getSession_valid; [exact Hstored | lia].
  - intros Hnow. unfold result, after.
    rewrite (getSession_expired now s st1 Hstored) by lia. cbn [fst snd].
    split; [reflexivity |]. split; [reflexivity |]. split; [reflexivity |].
    intros later. now rewrite getSession_absent.
  - intros st0. apply getSession_absent.
Qed.

Definition owner_user : CurrentUser := mkCurrentUser "owner" "owner" "Shop Owner".

Lemma getSession_after_createSession_witness :
  let s := result (createSession owner_user 0) freshState in
  let st1 := after (createSession owner_user 0) freshState in
  getSession (minutes 29) st1 = (Some s, st1) /\
  getSession (minutes 30) st1 = (Some s, st1) /\
  result (getSession (minutes 31)) st1 = None /\
  ls_session (after (getSession (minutes 31)) st1) = None.
Proof.
  intros s st1.
  destruct (getSession_after_createSession owner_user 0 (minutes 29) freshState)
    as (H29 & _ & _).
  destruct (getSession_after_createSession owner_user 0 (minutes 30) freshState)
    as (H30 & _ & _).
  destruct (getSession_after_createSession owner_user 0 (minutes 31) freshState)
    as (_ & H31 & _).
  split; [apply H29; vm_compute; discriminate |].
  split; [apply H30; vm_compute; discriminate |].
  destruct (H31 ltac:(reflexivity)) as (Hnone & _ & Hgone & _).
  split; [exact Hnone | exact Hgone].
Defined.

(** The refreshed copy of a session: [lastActivity] and [expiresAt] are
    overwritten, every other property is kept. *)
Definition refreshed (s : Session) (now : Z) : Session :=
  mkSession (s_username s) (s_role s) (s_name s) (s_createdAt s)
            now (s_token s) (now + SESSION_TIMEOUT_MS).

(** C8 as the specification words it: without a valid session,
    [refreshSession] changes nothing. *)
Definition refreshSession_noop_without_valid_session : Prop :=
  forall (now : Z) (st : State),
    (forall s, result (getSession now) st = Some s ->
       refreshSession now st = (Some (refreshed s now),
                                set_session (Some (refreshed s now)) st)) /\
    (result (getSession now) st = None -> refreshSession now st = (None, st)).

(** C8, the claim as stated, fails on an expired session: the refresh at
    [T + 30 min + 1 ms] returns none, but removes the stored session and
    stops the inactivity monitor on the way. *)
Lemma refreshSession_destroys_expired_session :
  ~ refreshSession_noop_without_valid_session.
Proof.
  intros H.
  destruct (H (minutes 30 + 1) (after (createSession owner_user 0) freshState))
    as [_ Hnoop].
  specialize (Hnoop eq_refl).
  apply (f_equal (fun r => ls_session (snd r))) in Hnoop.
  vm_compute in Hnoop. discriminate Hnoop.
Qed.

(** C8 (amended).  If the stored session has not expired, [refreshSession]
    at time [T'] stores and returns it with [lastActivity = T'] and
    [expiresAt = T' + 30 minutes], all else unchanged; if no session is
    stored it changes nothing and returns none; if the stored session has
    expired it writes no session and returns none, and the stored session
    is removed and the inactivity monitor stopped. *)
Theorem refreshSession_spec (now : Z) (st : State) :
  (forall s, ls_session st = Some s -> now <= s_expiresAt s ->
     refreshSession now st =
       (Some (refreshed s now), set_session (Some (refreshed s now)) st) /\
     s_expiresAt (refreshed s now) = now + minutes 30 /\
     s_lastActivity (refreshed s now) = now) /\
  (ls_session st = None -> refreshSession now st = (None, st)) /\
  (forall s, ls_session st = Some s -> s_expiresAt s < now ->
     refreshSession now st = (None, set_monitor false (set_session None st))).
Proof.
  split; [| split].
  - intros s Hs Hnow. split; [| split; reflexivity].
    unfold refreshSession, bind. now rewrite (getSession_valid now s st Hs Hnow).
  - intros Hs. unfold refreshSession, bind. now rewrite (getSession_absent now st Hs).
  - intros s Hs Hnow. unfold refreshSession, bind.
    now rewrite (getSession_expired now s st Hs Hnow).
Qed.

Lemma refreshSession_spec_witness :
  let s := result (createSession owner_user 0) freshState in
  let st1 := after (createSession owner_user 0) freshState in
  refreshSession (minutes 10) st1 =
    (Some (refreshed s (minutes 10)), set_session (Some (refreshed s (minutes 10))) st1) /\
  s_expiresAt (refreshed s (minutes 10)) = minutes 40 /\
  refreshSession (minutes 10) freshState = (None, freshState) /\
  refreshSession (minutes 31) st1 = (None, set_monitor false (set_session None st1)).
Proof.
  intros s st1.
  destruct (refreshSession_spec (minutes 10) st1) as (Hvalid & _ & _).
  destruct (refreshSession_spec (minutes 10) freshState) as (_ & Habsent & _).
  destruct (refreshSession_spec (minutes 31) st1) as (_ & _ & Hexpired).
  destruct (Hvalid s eq_refl ltac:(vm_compute; discriminate)) as (Hrun & Hexp & _).
  split; [exact Hrun |].
  split; [exact Hexp |].
  split; [apply Habsent; reflexivity |].
  apply (Hexpired s eq_refl). reflexivity.
Defined.

(** ** Audit log *)

(** The arguments of one [auditLog] call and the clock when it runs. *)
Record AuditCall := mkCall {
  call_action : string;
  call_details : string;
  call_username : option string;
  call_time : Z
}.

(** The entry that the call writes. *)
Definition entry_of (ua : string) (c : AuditCall) : AuditEntry :=
  mkAudit (call_action c) (call_details c)
          (if truthy (call_username c)
           then match call_username c with Some u => u | None => "system" end
           else "system")
          (call_time c) (substring 0 100 ua).

Definition auditCall (c : AuditCall) : M unit :=
  auditLog (call_action c) (call_details c) (call_username c) (call_time c).

Fixpoint auditCalls (cs : list AuditCall) : M unit :=
  match cs with
  | [] => ret tt
  | c :: cs' => auditCall c ;; auditCalls cs'
  end.

Lemma auditCall_log c st :
  ls_audit (after (auditCall c) st) = firstn 200 (entry_of (userAgent st) c :: ls_audit st).
Proof.
  unfold after, auditCall, auditLog, bind, gets, modify. cbn [snd ls_audit set_audit].
  assert (Hentry :
    mkAudit (call_action c) (call_details c)
      match call_username c with
      | Some u => if truthy (Some u) then u else "system"
      | None => "system"
      end (call_time c) (substring 0 100 (userAgent st)) = entry_of (userAgent st) c).
  { unfold entry_of. destruct (call_username c) as [[| ch u] |]; reflexivity. }
  rewrite Hentry. rewrite Z.gtb_ltb.
  destruct (Z.ltb_spec 200 (Z.of_nat (List.length (entry_of (userAgent st) c :: ls_audit st))));
    [reflexivity |].
  symmetry. apply firstn_all2. lia.
Qed.

Lemma auditCall_userAgent c st : userAgent (after (auditCall c) st) = userAgent st.
Proof. reflexivity. Qed.

Lemma auditCalls_cons c cs st :
  after (auditCalls (c :: cs)) st = after (auditCalls cs) (after (auditCall c) st).
Proof.
  unfold after. cbn [auditCalls]. unfold bind. destruct (auditCall c st). reflexivity.
Qed.

Lemma firstn_app_firstn {A} (n : nat) (a b : list A) :
  firstn n (a ++ firstn n b) = firstn n (a ++ b).
Proof. rewrite !firstn_app, firstn_firstn. do 2 f_equal. lia. Qed.

Lemma auditCalls_log cs st :
  (List.length (ls_audit st) <= 200)%nat ->
  ls_audit (after (auditCalls cs) st) =
  firstn 200 (rev (map (entry_of (userAgent st)) cs) ++ ls_audit st).
Proof.
  revert st. induction cs as [| c cs IH]; intros st Hlen.
  - unfold after. cbn [auditCalls ret snd map rev app].
    symmetry. now apply firstn_all2.
  - rewrite auditCalls_cons, IH by (rewrite auditCall_log; apply firstn_le_length).
    rewrite auditCall_log, auditCall_userAgent, firstn_app_firstn.
    cbn [map rev]. now rewrite <- app_assoc.
Qed.

(** C6.  Starting from a stored audit log of at most 200 entries (the empty
    log of a fresh installation in particular), after any sequence of
    [auditLog] calls the log that [getAuditLogs] returns holds the entries
    of the calls in reverse order of the calls (most recent first) in front
    of the older entries, cut to the first 200, so it never holds more than
    200 entries; one more call puts its entry at the head in front of the
    first 199 entries of the log: all of them when the log held fewer than
    200, all but the last (oldest) when it held 200. *)
Theorem auditLog_capped_most_recent_first
    (cs : list AuditCall) (c : AuditCall) (st : State) :
  (List.length (ls_audit st) <= 200)%nat ->
  let ua := userAgent st in
  let st' := after (auditCalls cs) st in
  let st'' := after (auditCall c) st' in
  result getAuditLogs st' = firstn 200 (rev (map (entry_of ua) cs) ++ ls_audit st) /\
  (List.length (result getAuditLogs st') <= 200)%nat /\
  result getAuditLogs st'' = entry_of ua c :: firstn 199 (result getAuditLogs st') /\
  (List.length (result getAuditLogs st'') <= 200)%nat /\
  ((List.length (result getAuditLogs st') < 200)%nat ->
     result getAuditLogs st'' = entry_of ua c :: result getAuditLogs st') /\
  (List.length (result getAuditLogs st') = 200%nat ->
     result getAuditLogs st'' = entry_of ua c :: removelast (result getAuditLogs st')).
Proof.
  intros Hinit ua st' st''.
  change (result getAuditLogs st') with (ls_audit st').
  change (result getAuditLogs st'') with (ls_audit st'').
  assert (Hlog : ls_audit st' = firstn 200 (rev (map (entry_of ua) cs) ++ ls_audit st))
    by (subst st' ua; now apply auditCalls_log).
  assert (Hlen : (List.length (ls_audit st') <= 200)%nat)
    by (rewrite Hlog; apply firstn_le_length).
  assert (Hua : userAgent st' = ua).
  { subst st' ua. clear. revert st. induction cs as [| c cs IH]; intros st; [reflexivity |].
    now rewrite auditCalls_cons, IH. }
  assert (Hnext : ls_audit st'' = entry_of ua c :: firstn 199 (ls_audit st')).
  { subst st''. rewrite auditCall_log, Hua. apply firstn_cons. }
  split; [exact Hlog |]. split; [exact Hlen |]. split; [exact Hnext |].
  split; [| split].
  - rewrite Hnext. cbn [List.length].
    pose proof (firstn_le_length 199 (ls_audit st')). lia.
  - intros Hlt. rewrite Hnext. f_equal. apply firstn_all2. lia.
  - intros Hfull. rewrite Hnext. f_equal.
    rewrite removelast_firstn_len, Hfull. reflexivity.
Qed.

(** Calls numbered by their clock reading. *)
Definition numbered_calls (n : nat) : list AuditCall :=
  map (fun i => mkCall "LOGIN_FAILED" "Failed login attempt for role: owner"
                       (Some "owner") (Z.of_nat i))
      (seq 0 n).

Lemma auditLog_capped_most_recent_first_witness :
  let c := mkCall "LOGOUT" "User logged out" None 200 in
  let ua := userAgent freshState in
  let st' := after (auditCalls (numbered_calls 200)) freshState in
  let st'' := after (auditCall c) st' in
  List.length (result getAuditLogs st') = 200%nat /\
  result getAuditLogs st'' = entry_of ua c :: removelast (result getAuditLogs st') /\
  (List.length (result getAuditLogs st'') <= 200)%nat /\
  e_username (entry_of ua c) = "system".
Proof.
  intros c ua st' st''.
  destruct (auditLog_capped_most_recent_first (numbered_calls 200) c freshState
              ltac:(cbn; lia))
    as (_ & _ & _ & Hcap & _ & Hevict).
  assert (Hfull : List.length (result getAuditLogs st') = 200%nat)
    by (vm_compute; reflexivity).
  split; [exact Hfull |].
  split; [exact (Hevict Hfull) |].
  split; [exact Hcap | reflexivity].
Defined.

(** ** Credential migration *)

(** The record holds a plaintext password and no password hash. *)
Definition plaintext_only (u : UserRecord) : bool :=
  truthy (u_password u) && negb (truthy (u_passwordHash u)).

Definition strong_default (role : string) : string :=
  if String.eqb role "owner" then "Owner@123" else "Staff@123".

(** The password that the migration hashes for a legacy record. *)
Definition upgraded_password (u : UserRecord) : string :=
  match u_password u with
  | Some p => if includes defaultWeakPasswords p then strong_default (u_role u) else p
  | None => EmptyString
  end.

(** What the migration makes of one record. *)
Definition migrated_from (u u' : UserRecord) : Prop :=
  if plaintext_only u then
    u_password u' = None /\
    (exists salt,
        salt <> EmptyString /\
        u_salt u' = Some salt /\
        u_passwordHash u' =
          Some (hex_of_bytes (SHA256.digest (encode (salt ++ upgraded_password u))))) /\
    u_username u' = u_username u /\ u_role u' = u_role u /\ u_name u' = u_name u
  else u' = u.

(** Only the random tape separates the two states. *)
Definition same_but_rng (st st' : State) : Prop := st' = set_rng (rng st') st.

Lemma same_but_rng_refl st : same_but_rng st st.
Proof. unfold same_but_rng. now destruct st. Qed.

Lemma migrateUser_skip u st :
  plaintext_only u = false -> migrateUser u st = ((u, false), st).
Proof.
  unfold plaintext_only, migrateUser. destruct (u_password u) as [p |]; [| reflexivity].
  intros ->. reflexivity.
Qed.

Lemma generateSalt_nonempty st : fst (generateSalt st) <> EmptyString.
Proof.
  unfold generateSalt, bind, getRandomValues, ret. cbn [fst seq map hex_of_bytes].
  unfold hex2. cbn [String.append]. discriminate.
Qed.

Lemma hashPassword_fresh_salt password st :
  hashPassword password None st =
  ((hex_of_bytes (SHA256.digest (encode (fst (generateSalt st) ++ password))),
    fst (generateSalt st)),
   snd (generateSalt st)).
Proof.
  unfold hashPassword, bind, ret. destruct (generateSalt st). reflexivity.
Qed.

Lemma generateSalt_same_but_rng st : same_but_rng st (snd (generateSalt st)).
Proof. reflexivity. Qed.

Lemma migrateUser_rewrites u st :
  plaintext_only u = true ->
  exists u',
    migrateUser u st = ((u', true), snd (generateSalt st)) /\
    migrated_from u u' /\ plaintext_only u' = false.
Proof.
  intros Hu. unfold migrateUser. pose proof Hu as Hu'. unfold plaintext_only in Hu'.
  destruct (u_password u) as [p |] eqn:Hp; [| discriminate Hu'].
  rewrite Hu'. unfold bind. rewrite hashPassword_fresh_salt. cbn [fst snd ret].
  eexists. split; [reflexivity |]. split; [| reflexivity].
  unfold migrated_from. rewrite Hu. cbn [u_password u_salt u_passwordHash u_username u_role u_name].
  split; [reflexivity |]. split; [| repeat split].
  exists (fst (generateSalt st)). split; [apply generateSalt_nonempty |].
  split; [reflexivity |]. unfold upgraded_password, strong_default. now rewrite Hp.
Qed.

Lemma migrateLoop_spec users st :
  Forall2 migrated_from users (fst (fst (migrateLoop users st))) /\
  Forall (fun u' => plaintext_only u' = false) (fst (fst (migrateLoop users st))) /\
  snd (fst (migrateLoop users st)) = existsb plaintext_only users /\
  same_but_rng st (snd (migrateLoop users st)).
Proof.
  revert st. induction users as [| u users IH]; intros st.
  - cbn. repeat split; try constructor. apply same_but_rng_refl.
  - cbn [migrateLoop existsb]. unfold bind.
    destruct (plaintext_only u) eqn:Hu.
    + destruct (migrateUser_rewrites u st Hu) as (u' & Hrun & Hfrom & Hdone).
      rewrite Hrun. specialize (IH (snd (generateSalt st))).
      destruct (migrateLoop users (snd (generateSalt st))) as [[us' flag] st'].
      cbn [fst snd ret] in *. destruct IH as (IH1 & IH2 & IH3 & IH4).
      repeat split; auto.
    + rewrite (migrateUser_skip u st Hu). specialize (IH st).
      destruct (migrateLoop users st) as [[us' flag] st'].
      cbn [fst snd ret orb] in *. destruct IH as (IH1 & IH2 & IH3 & IH4).
      repeat split; auto. constructor; [| exact IH1].
      unfold migrated_from. now rewrite Hu.
Qed.

Lemma migrateLoop_nothing_to_do users st :
  Forall (fun u => plaintext_only u = false) users ->
  migrateLoop users st = ((users, false), st).
Proof.
  intros Hall. induction Hall as [| u users Hu Hall IH]; [reflexivity |].
  cbn [migrateLoop]. unfold bind. rewrite (migrateUser_skip u st Hu), IH. reflexivity.
Qed.

Lemma migratePasswords_unfold now st :
  migratePasswords now st =
  (tt,
   if snd (fst (migrateLoop (ls_users st) st)) then
     after (auditLog "PASSWORD_MIGRATION" "Migrated and strengthened passwords"
                     (Some "system") now)
           (set_users (fst (fst (migrateLoop (ls_users st) st)))
                      (snd (migrateLoop (ls_users st) st)))
   else snd (migrateLoop (ls_users st) st)).
Proof.
  unfold migratePasswords, bind, dbGetList_users, dbSet_users, gets, modify, after.
  cbn [fst snd]. destruct (migrateLoop (ls_users st) st) as [[us flag] st'].
  cbn [fst snd]. destruct flag; [| reflexivity].
  destruct (auditLog _ _ _ _ _) as [[] st'']. reflexivity.
Qed.

Lemma migratePasswords_nothing_to_do now st :
  Forall (fun u => plaintext_only u = false) (ls_users st) ->
  migratePasswords now st = (tt, st).
Proof.
  intros Hall. rewrite migratePasswords_unfold.
  rewrite (migrateLoop_nothing_to_do _ st Hall). reflexivity.
Qed.

Lemma existsb_false_Forall {A} (f : A -> bool) (l : list A) :
  existsb f l = false -> Forall (fun x => f x = false) l.
Proof.
  induction l as [| x l IH]; cbn [existsb]; intros H; constructor.
  - now apply orb_false_iff in H.
  - apply IH. now apply orb_false_iff in H.
Qed.

Lemma migratePasswords_users now st :
  ls_users (after (migratePasswords now) st) = fst (fst (migrateLoop (ls_users st) st)).
Proof.
  unfold after. rewrite migratePasswords_unfold. cbn [snd].
  destruct (migrateLoop_spec (ls_users st) st) as (_ & _ & Hflag & Hrng).
  destruct (snd (fst (migrateLoop (ls_users st) st))) eqn:Hf.
  - reflexivity.
  - symmetry in Hflag. apply existsb_false_Forall in Hflag.
    now rewrite (migrateLoop_nothing_to_do _ st Hflag).
Qed.

(** C9.  [migratePasswords] leaves every record that does not hold both a
    plaintext password and no password hash exactly as it is (a record
    holding a password hash in particular); every other record keeps its
    username, role and name, loses the plaintext field and receives a
    fresh non-empty salt and the SHA-256 hash of salt and password, the
    password being the strong default of the record's role when the
    plaintext was a known weak default.  No record of the output holds
    a plaintext password without a hash, and a second run on the output
    changes nothing at all. *)
Theorem migratePasswords_idempotent (now now' : Z) (st : State) :
  let st1 := after (migratePasswords now) st in
  Forall2 migrated_from (ls_users st) (ls_users st1) /\
  (forall i u, nth_error (ls_users st) i = Some u ->
               truthy (u_passwordHash u) = true ->
               nth_error (ls_users st1) i = Some u) /\
  Forall (fun u' => plaintext_only u' = false) (ls_users st1) /\
  migratePasswords now' st1 = (tt, st1).
Proof.
  intros st1.
  destruct (migrateLoop_spec (ls_users st) st) as (Hfrom & Hdone & _ & _).
  assert (Husers : ls_users st1 = fst (fst (migrateLoop (ls_users st) st)))
    by apply migratePasswords_users.
  rewrite <- Husers in Hfrom, Hdone.
  split; [exact Hfrom |]. split; [| split; [exact Hdone |]].
  - clear Hdone Husers. induction Hfrom as [| u u' us us' Hu Hfrom IH]; intros i v Hi Hv.
    + destruct i; discriminate Hi.
    + destruct i as [| i]; cbn [nth_error] in *.
      * injection Hi as ->. unfold migrated_from, plaintext_only in Hu.
        rewrite Hv, andb_false_r in Hu. now rewrite Hu.
      * eapply IH; eassumption.
  - now apply migratePasswords_nothing_to_do.
Qed.

Definition legacy_users : list UserRecord :=
  [ mkUser "owner" (Some "owner123") None None "owner" "Shop Owner";
    mkUser "ravi" (Some "Milk#2024") None None "staff" "Ravi";
    mkUser "staff" None
           (Some "5e884898da28047151d0e56f8dc6292773603d0d6aabbdd62a11ef721d1542d8")
           (Some "00112233445566778899aabbccddeeff") "staff" "Staff Member" ].

Lemma migratePasswords_idempotent_witness :
  let st := set_users legacy_users freshState in
  let st1 := after (migratePasswords 1000) st in
  nth_error (ls_users st1) 2 = nth_error legacy_users 2 /\
  map u_password (ls_users st1) = [None; None; None] /\
  migratePasswords 2000 st1 = (tt, st1).
Proof.
  intros st st1.
  destruct (migratePasswords_idempotent 1000 2000 st) as (_ & Hkept & _ & Hagain).
  split; [apply Hkept; reflexivity |].
  split; [reflexivity | exact Hagain].
Defined.

Example migratePasswords_upgrades_weak_default :
  let st1 := after (migratePasswords 1000) (set_users legacy_users freshState) in
  map u_salt (ls_users st1) =
    [ Some "000102030405060708090a0b0c0d0e0f";
      Some "101112131415161718191a1b1c1d1e1f";
      Some "00112233445566778899aabbccddeeff" ] /\
  result (verifyPassword "Owner@123"
            (hex_of_bytes (SHA256.digest (encode "000102030405060708090a0b0c0d0e0fOwner@123")))
            (Some "000102030405060708090a0b0c0d0e0f")) st1 = true /\
  nth_error (map u_passwordHash (ls_users st1)) 0 =
    Some (Some (hex_of_bytes
                  (SHA256.digest (encode "000102030405060708090a0b0c0d0e0fOwner@123")))) /\
  List.length (ls_audit st1) = 1%nat.
Proof. vm_compute. repeat split. Qed.

(** ** Login *)

(** The arguments of one [login] call, the clock when it starts and the
    clock when the password verification has resumed. *)
Record LoginCall := mkLogin {
  l_username : string;
  l_password : string;
  l_role : string;
  l_start : Z;
  l_resumed : Z
}.

Definition loginCall (c : LoginCall) : M bool :=
  login (l_username c) (l_password c) (l_role c) (l_start c) (l_resumed c).

(** The credentials of the call pass the check that [login] makes: a
    record with that username and role exists, holds a password hash, and
    [verifyPassword] accepts the password against it. *)
Definition authenticates (st : State) (username password role : string) : bool :=
  match find (fun u => String.eqb (u_username u) username
                       && String.eqb (u_role u) role) (ls_users st) with
  | Some u =>
      match u_passwordHash u with
      | Some h => truthy (Some h) && result (verifyPassword password h (u_salt u)) st
      | None => false
      end
  | None => false
  end.

(** Five [login] calls with a wrong password in a row, and the state they
    lead to. *)
Inductive wrong_logins : State -> list LoginCall -> State -> Prop :=
| wrong_nil st : wrong_logins st [] st
| wrong_cons st c cs st' :
    authenticates st (l_username c) (l_password c) (l_role c) = false ->
    wrong_logins (after (loginCall c) st) cs st' ->
    wrong_logins st (c :: cs) st'.

Lemma isLoginLocked_run now st :
  isLoginLocked now st = (result (isLoginLocked now) st, st).
Proof.
  pose proof (isLoginLocked_reads_only now st) as H. unfold after in H.
  unfold result. destruct (isLoginLocked now st) as [r st2]. cbn [fst snd] in *.
  now subst st2.
Qed.

Lemma login_locked username password role now now' st :
  locked (result (isLoginLocked now) st) = true ->
  login username password role now now' st = (false, st).
Proof.
  intros Hlocked. unfold login, bind. rewrite isLoginLocked_run, Hlocked. reflexivity.
Qed.

Lemma verifyPassword_same_but_rng password h salt st :
  same_but_rng st (snd (verifyPassword password h salt st)).
Proof.
  unfold verifyPassword, hashPassword, bind.
  destruct salt as [[| c s] |]; cbn [truthy]; try apply same_but_rng_refl;
    destruct (generateSalt st) eqn:Hg; cbn [ret snd];
    pose proof (generateSalt_same_but_rng st) as H; rewrite Hg in H; exact H.
Qed.

(** A call that is not locked out and does not authenticate ends in the
    failure tail, run at the start or at the resumption time, on a state
    that differs from the initial one in the random tape at most. *)
Lemma login_wrong_password username password role now now' st :
  locked (result (isLoginLocked now) st) = false ->
  authenticates st username password role = false ->
  exists t st_v,
    (t = now \/ t = now') /\ same_but_rng st st_v /\
    login username password role now now' st = loginFailed username role t st_v.
Proof.
  intros Hlocked Hauth. unfold login, bind.
  rewrite isLoginLocked_run, Hlocked. unfold dbGetList_users, gets at 1.
  unfold authenticates in Hauth.
  destruct (find _ (ls_users st)) as [u |];
    [| exists now, st; split; [now left | split; [apply same_but_rng_refl | reflexivity]]].
  destruct (u_passwordHash u) as [h |];
    [| exists now, st; split; [now left | split; [apply same_but_rng_refl | reflexivity]]].
  destruct (truthy (Some h));
    [| exists now, st; split; [now left | split; [apply same_but_rng_refl | reflexivity]]].
  cbn [andb] in Hauth. unfold result in Hauth.
  pose proof (verifyPassword_same_but_rng password h (u_salt u) st) as Hrng.
  destruct (verifyPassword password h (u_salt u) st) as [b st_v].
  cbn [fst snd] in *. subst b.
  exists now', st_v. split; [now right | split; [exact Hrng | reflexivity]].
Qed.

Lemma same_but_rng_attempts st st' : same_but_rng st st' -> ls_attempts st' = ls_attempts st.
Proof. intros ->. reflexivity. Qed.

Lemma loginFailed_attempts username role t st :
  ls_attempts (after (loginFailed username role t) st) =
  ls_attempts (after (recordLoginAttempt username false t) st).
Proof. reflexivity. Qed.

(** At every time of the five minutes from [a] on, exactly [k] recorded
    failures count towards the lockout. *)
Definition counts (k : nat) (a : Z) (st : State) : Prop :=
  forall q, a <= q < a + 300000 ->
            List.length (recentFailures q (ls_attempts st)) = k.

Lemma counts_no_recent_failure a st :
  (forall x, In x (ls_attempts st) -> a_success x = false ->
             a_timestamp x <= a - 300000) ->
  counts 0 a st.
Proof.
  intros Hold q Hq.
  destruct (recentFailures q (ls_attempts st)) as [| x l] eqn:Hrf; [reflexivity |].
  assert (Hx : In x (recentFailures q (ls_attempts st))) by (rewrite Hrf; now left).
  apply recentFailures_In in Hx. destruct Hx as (Hin & Hfail & Hts).
  specialize (Hold x Hin Hfail). rewrite LOCKOUT_DURATION_MS_value in Hts. lia.
Qed.

Lemma counts_not_locked k a st q :
  counts k a st -> (k < 5)%nat -> a <= q < a + 300000 ->
  locked (result (isLoginLocked q) st) = false.
Proof.
  intros Hk Hlt Hq.
  destruct (locked (result (isLoginLocked q) st)) eqn:Hl; [| reflexivity].
  apply isLoginLocked_locked_iff in Hl. rewrite (Hk q Hq) in Hl.
  unfold MAX_LOGIN_ATTEMPTS in Hl. lia.
Qed.

Lemma wrong_login_counts k a c st :
  counts k a st -> (k < 5)%nat ->
  a <= l_start c <= a + 120000 -> a <= l_resumed c <= a + 120000 ->
  authenticates st (l_username c) (l_password c) (l_role c) = false ->
  counts (S k) a (after (loginCall c) st).
Proof.
  intros Hk Hlt Hstart Hres Hauth q Hq.
  pose proof (counts_not_locked k a st (l_start c) Hk Hlt ltac:(lia)) as Hfree.
  destruct (login_wrong_password (l_username c) (l_password c) (l_role c)
              (l_start c) (l_resumed c) st Hfree Hauth)
    as (t & st_v & Ht & Hrng & Hrun).
  unfold after, loginCall. rewrite Hrun.
  change (snd (loginFailed (l_username c) (l_role c) t st_v))
    with (after (loginFailed (l_username c) (l_role c) t) st_v).
  rewrite loginFailed_attempts, recentFailures_record by (destruct Ht; subst t; lia).
  rewrite (same_but_rng_attempts _ _ Hrng), length_app, (Hk q Hq).
  change [mkAttempt (l_username c) t false] with (map failure_of [(l_username c, t)]).
  rewrite (recentFailures_all_recent q [(l_username c, t)]).
  - cbn [map List.length]. lia.
  - intros t' [<- | []]. cbn [snd]. destruct Ht; subst t; lia.
Qed.

Lemma wrong_logins_counts a st cs st' :
  wrong_logins st cs st' ->
  forall k, counts k a st -> (k + List.length cs <= 5)%nat ->
  (forall c, In c cs -> a <= l_start c <= a + 120000 /\ a <= l_resumed c <= a + 120000) ->
  counts (k + List.length cs) a st'.
Proof.
  induction 1 as [st | st c cs st' Hauth Hrest IH]; intros k Hk Hle Htimes.
  - cbn [List.length]. now rewrite Nat.add_0_r.
  - cbn [List.length] in *. rewrite Nat.add_succ_r. apply (IH (S k)).
    + destruct (Htimes c (or_introl eq_refl)) as [Hs Hr].
      apply wrong_login_counts; auto. lia.
    + lia.
    + intros c' Hc'. apply Htimes. now right.
Qed.

(** When locked, the reported minutes are at least one. *)
Lemma isLoginLocked_locked_minutes now st :
  locked (result (isLoginLocked now) st) = true ->
  exists m msg, result (isLoginLocked now) st = Locked m msg /\ 1 <= m.
Proof.
  intros Hlocked.
  pose proof (proj1 (isLoginLocked_locked_iff now st) Hlocked) as Hcount.
  unfold MAX_LOGIN_ATTEMPTS in Hcount.
  set (failures := recentFailures now (ls_attempts st)) in *.
  assert (Hne : failures <> []).
  { intros Hnil. rewrite Hnil in Hcount. cbn in Hcount. lia. }
  destruct (unlockTime_oldest failures Hne) as (oldest & Hin & _ & Hunlock).
  apply recentFailures_In in Hin. destruct Hin as (_ & _ & Hts).
  pose proof (Math_ceil_div_spec (unlockTime failures - now) 60000 ltac:(lia)) as [Hc _].
  exists (Math_ceil_div (unlockTime failures - now) 60000). eexists. split.
  - unfold result, isLoginLocked, bind, getLoginAttempts, gets, ret. cbn.
    fold failures. rewrite Z.geb_leb.
    destruct (Z.leb_spec MAX_LOGIN_ATTEMPTS (Z.of_nat (List.length failures)));
      [reflexivity | unfold MAX_LOGIN_ATTEMPTS in *; lia].
  - rewrite LOCKOUT_DURATION_MS_value in *. lia.
Qed.

(** C7.  Whenever [isLoginLocked] reports locked, [login] returns false and
    leaves the whole state as it was, whatever the credentials: no attempt
    is recorded and no session created.  In the scenario of five [login]
    calls with a wrong password that start and resume within two minutes
    of a time [a], on a log without a failure younger than five minutes at
    [a], [isLoginLocked] reports locked with [remainingMinutes >= 1] at
    every time of the five minutes from [a] on, and a sixth [login] then
    returns false and changes nothing, whatever the password. *)
Theorem login_rejected_while_locked
    (st : State) (username password role : string) (now now' : Z)
    (st0 st5 : State) (calls : list LoginCall) (a q q' : Z) :
  (locked (result (isLoginLocked now) st) = true ->
   login username password role now now' st = (false, st)) /\
  ((forall x, In x (ls_attempts st0) -> a_success x = false ->
              a_timestamp x <= a - 300000) ->
   List.length calls = 5%nat ->
   (forall c, In c calls ->
              a <= l_start c <= a + 120000 /\ a <= l_resumed c <= a + 120000) ->
   wrong_logins st0 calls st5 ->
   a <= q < a + 300000 ->
   exists m msg,
     result (isLoginLocked q) st5 = Locked m msg /\ 1 <= m /\
     login username password role q q' st5 = (false, st5)).
Proof.
  split; [apply login_locked |].
  intros Hfresh Hlen Htimes Hwrong Hq.
  pose proof (wrong_logins_counts a st0 calls st5 Hwrong 0%nat
                (counts_no_recent_failure a st0 Hfresh)
                ltac:(rewrite Hlen; cbn; lia) Htimes) as Hcount.
  rewrite Hlen in Hcount. cbn [Nat.add] in Hcount.
  assert (Hlocked : locked (result (isLoginLocked q) st5) = true).
  { apply isLoginLocked_locked_iff. rewrite (Hcount q Hq).
    unfold MAX_LOGIN_ATTEMPTS. lia. }
  destruct (isLoginLocked_locked_minutes q st5 Hlocked) as (m & msg & Hr & Hm).
  exists m, msg. split; [exact Hr |]. split; [exact Hm |].
  now apply login_locked.
Qed.

Definition owner_salt : string := "00112233445566778899aabbccddeeff".

Definition owner_record : UserRecord :=
  mkUser "owner" None
         (Some (fst (result (hashPassword "Owner@123" (Some owner_salt)) freshState)))
         (Some owner_salt) "owner" "Shop Owner".

Definition shopState : State := set_users [owner_record] freshState.

Definition wrong_calls : list LoginCall :=
  [ mkLogin "owner" "owner123" "owner" 0 4;
    mkLogin "owner" "Owner123" "owner" 30000 30005;
    mkLogin "owner" "owner@123" "owner" 60000 60003;
    mkLogin "admin" "admin" "owner" 90000 90000;
    mkLogin "owner" "Owner@1234" "owner" 119000 119006 ].

Definition after_logins (cs : list LoginCall) (st : State) : State :=
  fold_left (fun st c => after (loginCall c) st) cs st.

Lemma login_rejected_while_locked_witness :
  let st5 := after_logins wrong_calls shopState in
  authenticates st5 "owner" "Owner@123" "owner" = true /\
  login "owner" "Owner@123" "owner" 120000 120004 st5 = (false, st5) /\
  exists m msg,
    result (isLoginLocked 120000) st5 = Locked m msg /\ 1 <= m /\
    login "owner" "Owner@123" "owner" 120000 120004 st5 = (false, st5).
Proof.
  intros st5.
  destruct (login_rejected_while_locked st5 "owner" "Owner@123" "owner" 120000 120004
              shopState st5 wrong_calls 0 120000 120004) as [Hlocked Hscenario].
  split; [vm_compute; reflexivity |].
  split; [apply Hlocked; vm_compute; reflexivity |].
  apply Hscenario.
  - intros x [].
  - reflexivity.
  - intros c Hc. cbn [wrong_calls In] in Hc.
    repeat (destruct Hc as [<- | Hc]; [cbn; lia |]). destruct Hc.
  - subst st5. unfold after_logins, wrong_calls. cbn [fold_left].
    repeat (apply wrong_cons; [vm_compute; reflexivity |]). apply wrong_nil.
  - lia.
Defined.

Example login_succeeds_when_not_locked :
  let r := login "owner" "Owner@123" "owner" 0 4 shopState in
  fst r = true /\
  option_map s_expiresAt (ls_session (snd r)) = Some (4 + minutes 30) /\
  ls_attempts (snd r) = [mkAttempt "owner" 4 true] /\
  monitor (snd r) = true.
Proof. vm_compute. repeat split. Qed.

(** ** Backup encryption *)

Definition is_byteb (b : Z) : bool := (0 <=? b) && (b <? 256).

Lemma is_byteb_Forall bs : forallb is_byteb bs = true -> Forall is_byte bs.
Proof.
  intros H. apply Forall_forall. intros b Hb.
  pose proof (proj1 (forallb_forall is_byteb bs) H b Hb) as Hbyte.
  unfold is_byteb in Hbyte. unfold is_byte. lia.
Qed.

Lemma utf8_unit_bytes c : Forall is_byte (utf8_unit (code_unit c)).
Proof.
  apply is_byteb_Forall. destruct c as [[] [] [] [] [] [] [] []]; reflexivity.
Qed.

Lemma encode_bytes s : Forall is_byte (encode s).
Proof.
  induction s as [| c s IH]; cbn [encode]; [constructor |].
  apply Forall_app. split; [apply utf8_unit_bytes | exact IH].
Qed.

Lemma encode_app s t : encode (s ++ t) = encode s ++ encode t.
Proof.
  induction s as [| c s IH]; cbn [String.append encode]; [reflexivity |].
  now rewrite IH, app_assoc.
Qed.

Lemma getRandomValues_bytes n st : Forall is_byte (result (getRandomValues n) st).
Proof.
  unfold result, getRandomValues. cbn [fst]. apply Forall_forall.
  intros b Hb. apply in_map_iff in Hb. destruct Hb as (i & <- & _).
  unfold is_byte. apply Z.mod_pos_bound. lia.
Qed.

Lemma code_unit_fromCharCode b : is_byte b -> code_unit (fromCharCode b) = b.
Proof.
  unfold is_byte, code_unit, fromCharCode. intros Hb.
  rewrite N_ascii_embedding by lia. lia.
Qed.

Lemma bytes_of_binary_of_bytes bs :
  Forall is_byte bs -> bytes_of_binary (binary_of_bytes bs) = bs.
Proof.
  induction 1 as [| b bs Hb Hbs IH]; cbn [binary_of_bytes bytes_of_binary]; [reflexivity |].
  now rewrite code_unit_fromCharCode, IH.
Qed.

(** *** The passphrase reaches the key through the HMAC block key only *)

Lemma block_key_trailing_zero key :
  (List.length key < 64)%nat ->
  PBKDF2.block_key (key ++ [0]) = PBKDF2.block_key key.
Proof.
  intros Hlen. unfold PBKDF2.block_key. rewrite length_app. cbn [List.length].
  destruct (Nat.ltb_spec 64 (List.length key + 1)); [lia |].
  destruct (Nat.ltb_spec 64 (List.length key)); [lia |].
  rewrite length_app. cbn [List.length]. rewrite <- app_assoc. f_equal.
  replace (64 - List.length key)%nat with (S (64 - (List.length key + 1)))%nat by lia.
  reflexivity.
Qed.

Lemma hmac_trailing_zero key msg :
  (List.length key < 64)%nat -> PBKDF2.hmac (key ++ [0]) msg = PBKDF2.hmac key msg.
Proof. intros Hlen. unfold PBKDF2.hmac. now rewrite block_key_trailing_zero. Qed.

Lemma N_iter_ext {A} (f g : A -> A) (n : N) (x : A) :
  (forall y, f y = g y) -> N.iter n f x = N.iter n g x.
Proof.
  intros Hfg. induction n as [| n IH] using N.peano_ind; [reflexivity |].
  now rewrite !N.iter_succ, IH, Hfg.
Qed.

Lemma derive_trailing_zero key salt iterations :
  (List.length key < 64)%nat ->
  PBKDF2.derive (key ++ [0]) salt iterations = PBKDF2.derive key salt iterations.
Proof.
  intros Hlen. unfold PBKDF2.derive. rewrite hmac_trailing_zero by exact Hlen.
  f_equal. apply N_iter_ext. intros ut. unfold PBKDF2.step.
  now rewrite hmac_trailing_zero.
Qed.

(** The derivation agrees with published PBKDF2-HMAC-SHA-256 vectors. *)
Example pbkdf2_two_iterations :
  hex_of_bytes (PBKDF2.derive (encode "password") (encode "salt") 2) =
  "ae4d0c95af6b46d32d0adff928f06dd02a303f8ef3c251dfd6e2d85a95474c43".
Proof. vm_compute. reflexivity. Qed.

Example hmac_long_key :
  hex_of_bytes (PBKDF2.hmac (repeat 107 100) (encode "msg")) =
  "bd56a1782c2830e8abc6ed866a57a1230661e650b84c62f7ee3accc5fa5af491".
Proof. vm_compute. reflexivity. Qed.

(** The derived key is 32 bytes long. *)
Lemma lxor_byte a b : is_byte a -> is_byte b -> is_byte (Z.lxor a b).
Proof.
  unfold is_byte. intros Ha Hb.
  assert (Hnn : 0 <= Z.lxor a b) by (apply Z.lxor_nonneg; lia).
  split; [exact Hnn |].
  destruct (Z.eq_dec (Z.lxor a b) 0) as [-> | Hne]; [lia |].
  change 256 with (2 ^ 8). apply Z.log2_lt_pow2; [lia |].
  pose proof (Z.log2_lxor a b ltac:(lia) ltac:(lia)) as Hlog.
  assert (Hla : Z.log2 a < 8).
  { destruct (Z.eq_dec a 0) as [-> | Ha0]; [cbn; lia |].
    apply Z.log2_lt_pow2; [lia | change (2 ^ 8) with 256; lia]. }
  assert (Hlb : Z.log2 b < 8).
  { destruct (Z.eq_dec b 0) as [-> | Hb0]; [cbn; lia |].
    apply Z.log2_lt_pow2; [lia | change (2 ^ 8) with 256; lia]. }
  lia.
Qed.

Lemma xor_bytes_key a b :
  Forall is_byte a -> Forall is_byte b ->
  List.length a = 32%nat -> List.length b = 32%nat ->
  Forall is_byte (PBKDF2.xor_bytes a b) /\ List.length (PBKDF2.xor_bytes a b) = 32%nat.
Proof.
  intros Ha. generalize 32%nat as n. revert b.
  induction Ha as [| x a Hx Ha IH]; intros b n Hb Hla Hlb; cbn [PBKDF2.xor_bytes].
  - split; [constructor | exact Hla].
  - destruct Hb as [| y b Hy Hb]; [split; [constructor | exact Hlb] |].
    cbn [List.length] in *. destruct n as [| n]; [discriminate |].
    destruct (IH b n Hb ltac:(lia) ltac:(lia)) as [Hbytes Hlen].
    split; [constructor; [now apply lxor_byte | exact Hbytes] | now rewrite Hlen].
Qed.

Lemma hmac_key key msg :
  Forall is_byte (PBKDF2.hmac key msg) /\ List.length (PBKDF2.hmac key msg) = 32%nat.
Proof. unfold PBKDF2.hmac. split; [apply digest_bytes | apply digest_length]. Qed.

Lemma derive_key password salt iterations :
  Forall is_byte (PBKDF2.derive password salt iterations) /\
  List.length (PBKDF2.derive password salt iterations) = 32%nat.
Proof.
  unfold PBKDF2.derive. cbv zeta.
  apply (@N.iter_invariant (iterations - 1) (bytes * bytes) (PBKDF2.step password)
           (fun ut => Forall is_byte (snd ut) /\ List.length (snd ut) = 32%nat)).
  - intros [u t] [Htb Htl]. unfold PBKDF2.step. cbn [fst snd] in *.
    destruct (hmac_key password u) as [Hub Hul]. apply xor_bytes_key; assumption.
  - cbn [snd]. exact (hmac_key password (salt ++ [0; 0; 0; 1])).
Qed.

(** The derivation is never unfolded in the proofs below. *)
Opaque PBKDF2.derive.

(** The NUL character, U+0000. *)
Definition NUL : string := String zero EmptyString.

Section BackupProperties.

Context {platform : WebPlatform}.

(** The salt, the nonce and the key of [encryptBackupData] run in [st]. *)
Definition backup_salt (st : State) : bytes := result (getRandomValues 16) st.
Definition backup_iv (st : State) : bytes :=
  result (getRandomValues 12) (after (getRandomValues 16) st).
Definition backup_key (passphrase : string) (salt : bytes) : bytes :=
  PBKDF2.derive (encode passphrase) salt PBKDF2_ITERATIONS.
Definition backup_ciphertext (data : Json) (passphrase : string) (st : State) : bytes :=
  AES_GCM_encrypt (backup_key passphrase (backup_salt st)) (backup_iv st)
                  (encode (JSON_stringify data)).

Lemma encryptBackupData_result data passphrase st :
  result (encryptBackupData data passphrase) st =
  mkBlob (arrayBufferToBase64 (backup_ciphertext data passphrase st))
         (arrayBufferToBase64 (backup_salt st))
         (arrayBufferToBase64 (backup_iv st)) "2.0" true.
Proof.
  unfold backup_ciphertext, backup_key, backup_salt, backup_iv.
  unfold result, after, encryptBackupData, bind.
  destruct (getRandomValues 16 st) as [salt st1]. cbn [fst snd].
  destruct (getRandomValues 12 st1) as [iv st2]. reflexivity.
Qed.

Lemma base64ToArrayBuffer_arrayBufferToBase64 bs :
  Forall is_byte bs -> base64ToArrayBuffer (arrayBufferToBase64 bs) = Some bs.
Proof.
  intros Hbs. unfold base64ToArrayBuffer, arrayBufferToBase64.
  now rewrite atob_btoa, bytes_of_binary_of_bytes.
Qed.

Lemma backup_ciphertext_bytes data passphrase st :
  Forall is_byte (backup_ciphertext data passphrase st).
Proof. apply AES_GCM_bytes, encode_bytes. Qed.

(** Decryption reads [encrypted], [salt] and [iv] and nothing else. *)
Lemma decryptBackupData_fields data passphrase passphrase' st version flag :
  backup_key passphrase' (backup_salt st) = backup_key passphrase (backup_salt st) ->
  decryptBackupData
    (mkBlob (arrayBufferToBase64 (backup_ciphertext data passphrase st))
            (arrayBufferToBase64 (backup_salt st))
            (arrayBufferToBase64 (backup_iv st)) version flag)
    passphrase' = Fulfilled data.
Proof.
  intros Hkey. unfold decryptBackupData. cbn [b_salt b_iv b_encrypted].
  rewrite !base64ToArrayBuffer_arrayBufferToBase64
    by first [apply getRandomValues_bytes | apply backup_ciphertext_bytes].
  fold (backup_key passphrase' (backup_salt st)). rewrite Hkey.
  unfold backup_ciphertext.
  rewrite AES_GCM_decrypt_encrypt by apply encode_bytes.
  now rewrite decode_encode, JSON_parse_stringify.
Qed.

Lemma backup_key_trailing_nul passphrase salt :
  (List.length (encode passphrase) < 64)%nat ->
  backup_key (passphrase ++ NUL) salt = backup_key passphrase salt.
Proof.
  intros Hlen. unfold backup_key. rewrite encode_app.
  change (encode NUL) with [0]. now apply derive_trailing_zero.
Qed.

(** When decryption fulfils, every field was valid base64, AES-GCM
    accepted the whole ciphertext under the key derived from the given
    passphrase and the stored salt, and the result is the parse of the
    whole plaintext. *)
Lemma decryptBackupData_fulfilled blob passphrase d :
  decryptBackupData blob passphrase = Fulfilled d <->
  exists salt iv ciphertext plaintext,
    base64ToArrayBuffer (b_salt blob) = Some salt /\
    base64ToArrayBuffer (b_iv blob) = Some iv /\
    base64ToArrayBuffer (b_encrypted blob) = Some ciphertext /\
    AES_GCM_decrypt (backup_key passphrase salt) iv ciphertext = Some plaintext /\
    JSON_parse (TextDecoder_decode plaintext) = Some d.
Proof.
  unfold decryptBackupData, backup_key. split.
  - destruct (base64ToArrayBuffer (b_salt blob)) as [salt |]; [| discriminate].
    destruct (base64ToArrayBuffer (b_iv blob)) as [iv |]; [| discriminate].
    destruct (base64ToArrayBuffer (b_encrypted blob)) as [c |]; [| discriminate].
    destruct (AES_GCM_decrypt _ iv c) as [m |] eqn:Hdec; [| discriminate].
    destruct (JSON_parse (TextDecoder_decode m)) as [d' |] eqn:Hparse; [| discriminate].
    intros H. injection H as ->. exists salt, iv, c, m. auto.
  - intros (salt & iv & c & m & -> & -> & -> & -> & ->). reflexivity.
Qed.

(** AES-GCM as an ideal authenticated cipher, for 256-bit keys: a
    ciphertext is accepted under no key but the one that produced it. *)
Definition rejects_other_keys : Prop :=
  forall k k' iv m,
    Forall is_byte k -> List.length k = 32%nat ->
    Forall is_byte k' -> List.length k' = 32%nat ->
    Forall is_byte m ->
    k' <> k -> AES_GCM_decrypt k' iv (AES_GCM_encrypt k iv m) = None.

(** C5 as the specification words it, for the passphrase: the same
    passphrase decrypts, and every other passphrase is rejected. *)
Definition decryptBackupData_rejects_other_passphrases : Prop :=
  forall (data : Json) (passphrase : string) (st : State),
    let blob := result (encryptBackupData data passphrase) st in
    decryptBackupData blob passphrase = Fulfilled data /\
    forall passphrase', passphrase' <> passphrase ->
      exists e, decryptBackupData blob passphrase' = Rejected e.


End BackupProperties.


(** *** The interface has a model

    One platform that meets every law of [WebPlatform]: JSON documents are
    their own text, base64 is the identity, and the cipher appends to the
    plaintext a tag that holds the bytes of key and nonce, and checks it
    on decryption.  It offers authentication without secrecy, which is
    all that the laws ask for, and it accepts a ciphertext under no other
    key. *)

Definition tag (k iv : bytes) : bytes := map (fun b => b mod 256) (k ++ iv).

Definition tag_encrypt (k iv m : bytes) : bytes := m ++ tag k iv.

Definition tag_decrypt (k iv c : bytes) : option bytes :=
  let n := (List.length c - List.length (tag k iv))%nat in
  if list_eq_dec Z.eq_dec (skipn n c) (tag k iv) then Some (firstn n c) else None.

Lemma tag_encrypt_bytes k iv m : Forall is_byte m -> Forall is_byte (tag_encrypt k iv m).
Proof.
  intros Hm. unfold tag_encrypt, tag. apply Forall_app. split; [exact Hm |].
  apply Forall_forall. intros b Hb. apply in_map_iff in Hb. destruct Hb as (x & <- & _).
  unfold is_byte. apply Z.mod_pos_bound. lia.
Qed.

Lemma tag_decrypt_encrypt k iv m :
  Forall is_byte m -> tag_decrypt k iv (tag_encrypt k iv m) = Some m.
Proof.
  intros _. unfold tag_decrypt, tag_encrypt. cbv zeta.
  rewrite length_app, Nat.add_sub.
  rewrite firstn_app, firstn_all, Nat.sub_diag, firstn_O, app_nil_r.
  rewrite skipn_app, skipn_all, Nat.sub_diag, skipn_O. cbn [app].
  destruct (list_eq_dec Z.eq_dec _ _) as [_ | Hne]; [reflexivity | contradiction].
Qed.

Definition tagPlatform : WebPlatform :=
  {| Json := string;
     JSON_null := "null";
     JSON_stringify := fun d => d;
     JSON_parse := fun s => Some s;
     TextDecoder_decode := utf8_decode;
     btoa := fun s => s;
     atob := fun s => Some s;
     AES_GCM_encrypt := tag_encrypt;
     AES_GCM_decrypt := tag_decrypt;
     JSON_parse_stringify := fun d => eq_refl;
     decode_encode := utf8_decode_encode;
     atob_btoa := fun s => eq_refl;
     AES_GCM_bytes := tag_encrypt_bytes;
     AES_GCM_decrypt_encrypt := tag_decrypt_encrypt |}.

Lemma map_mod_bytes bs : Forall is_byte bs -> map (fun b => b mod 256) bs = bs.
Proof.
  induction 1 as [| b bs Hb Hbs IH]; cbn [map]; [reflexivity |].
  rewrite IH. f_equal. unfold is_byte in Hb. now apply Z.mod_small.
Qed.

Lemma tagPlatform_rejects_other_keys : @rejects_other_keys tagPlatform.
Proof.
  intros k k' iv m Hk Hlk Hk' Hlk' _ Hne.
  cbn [AES_GCM_encrypt AES_GCM_decrypt tagPlatform].
  unfold tag_decrypt, tag_encrypt. cbv zeta.
  assert (Hlen : List.length (tag k' iv) = List.length (tag k iv)).
  { unfold tag. rewrite !length_map, !length_app. congruence. }
  rewrite length_app, Hlen, Nat.add_sub.
  rewrite skipn_app, skipn_all, Nat.sub_diag, skipn_O. cbn [app].
  destruct (list_eq_dec Z.eq_dec _ _) as [Heq | _]; [| reflexivity].
  exfalso. apply Hne. unfold tag in Heq. rewrite !map_app in Heq.
  apply app_inv_tail in Heq. rewrite !map_mod_bytes in Heq by assumption.
  congruence.
Qed.


(** * Further properties of the two files *)

(** ** Hash and salt formats *)

(** One lowercase hexadecimal digit. *)
Definition is_hex_char (c : ascii) : bool := is_digit c || in_range 97 102 c.

Lemma append_length (s t : string) :
  String.length (s ++ t) = (String.length s + String.length t)%nat.
Proof. induction s as [| c s IH]; simpl; [reflexivity | now rewrite IH]. Qed.

Lemma every_append p (s t : string) :
  every p (s ++ t) = every p s && every p t.
Proof.
  induction s as [| c s IH]; cbn [String.append every]; [reflexivity |].
  now rewrite IH, andb_assoc.
Qed.

Lemma hex_digit_is_hex d : 0 <= d < 16 -> is_hex_char (hex_digit d) = true.
Proof.
  intros Hd.
  assert (Hcases : d = 0 \/ d = 1 \/ d = 2 \/ d = 3 \/ d = 4 \/ d = 5 \/ d = 6 \/ d = 7 \/
            d = 8 \/ d = 9 \/ d = 10 \/ d = 11 \/ d = 12 \/ d = 13 \/ d = 14 \/ d = 15)
    by lia.
  repeat (destruct Hcases as [-> | Hcases]; [reflexivity |]). now subst d.
Qed.

Lemma hex_of_bytes_length bs :
  String.length (hex_of_bytes bs) = (2 * List.length bs)%nat.
Proof.
  induction bs as [| b bs IH]; [reflexivity |].
  cbn [hex_of_bytes List.length]. rewrite append_length, IH. cbn [hex2 String.length]. lia.
Qed.

Lemma hex_of_bytes_is_hex bs :
  Forall is_byte bs -> every is_hex_char (hex_of_bytes bs) = true.
Proof.
  induction 1 as [| b bs Hb Hbs IH]; [reflexivity |].
  cbn [hex_of_bytes]. rewrite every_append, IH, andb_true_r.
  unfold hex2. cbn [every]. unfold is_byte in Hb.
  rewrite !hex_digit_is_hex; [reflexivity | apply Z.mod_pos_bound; lia |].
  split; [apply Z.div_pos | apply Z.div_lt_upper_bound]; lia.
Qed.

Lemma getRandomValues_length n st :
  List.length (result (getRandomValues n) st) = n.
Proof. unfold result, getRandomValues. cbn [fst]. now rewrite length_map, length_seq. Qed.

(** The [n] bytes that [crypto.getRandomValues] yields in [st] once [skip]
    bytes have been drawn from there. *)
Definition drawn (skip n : nat) (st : State) : bytes :=
  map (fun i => tape (rng st) (pos (rng st) + skip + i)%nat mod 256) (seq 0 n).

Lemma getRandomValues_drawn k n st st' :
  tape (rng st') = tape (rng st) -> pos (rng st') = (pos (rng st) + k)%nat ->
  result (getRandomValues n) st' = drawn k n st.
Proof.
  intros Htape Hpos. unfold result, getRandomValues, drawn. cbn [fst].
  now rewrite Htape, Hpos.
Qed.

Lemma drawn_length k n st : List.length (drawn k n st) = n.
Proof. unfold drawn. now rewrite length_map, length_seq. Qed.

Lemma drawn_bytes k n st : Forall is_byte (drawn k n st).
Proof.
  apply Forall_forall. intros b Hb. apply in_map_iff in Hb. destruct Hb as (i & <- & _).
  unfold is_byte. apply Z.mod_pos_bound. lia.
Qed.

Lemma generateSalt_format st :
  String.length (fst (generateSalt st)) = 32%nat /\
  every is_hex_char (fst (generateSalt st)) = true /\
  pos (rng (snd (generateSalt st))) = (pos (rng st) + 16)%nat.
Proof.
  unfold generateSalt, bind, ret.
  pose proof (getRandomValues_length 16 st) as Hlen.
  pose proof (getRandomValues_bytes 16 st) as Hbytes.
  unfold result in Hlen, Hbytes.
  assert (Hpos : pos (rng (snd (getRandomValues 16 st))) = (pos (rng st) + 16)%nat)
    by reflexivity.
  destruct (getRandomValues 16 st) as [array st1]. cbn [fst snd] in *.
  rewrite hex_of_bytes_length, Hlen. split; [reflexivity |].
  split; [now apply hex_of_bytes_is_hex | exact Hpos].
Qed.

(** The salt that [hashPassword] uses and returns. *)
Definition salt_used (salt : option string) (st : State) : string :=
  match salt with
  | Some s => if truthy (Some s) then s else fst (generateSalt st)
  | None => fst (generateSalt st)
  end.

Lemma hashPassword_result password salt st :
  result (hashPassword password salt) st =
  (hex_of_bytes (SHA256.digest (encode (salt_used salt st ++ password))),
   salt_used salt st).
Proof.
  unfold result, salt_used.
  destruct salt as [[| c s] |]; cbn [truthy];
    first [ now rewrite hashPassword_with_salt
          | unfold hashPassword, bind, ret; cbn [truthy];
            destruct (generateSalt st); reflexivity ].
Qed.

Lemma salt_used_nonempty salt st : salt_used salt st <> EmptyString.
Proof.
  unfold salt_used. destruct salt as [[| c s] |]; cbn [truthy];
    first [ apply generateSalt_nonempty | discriminate ].
Qed.



(** The hash depends on salt and password through their concatenation
    only: two pairs of non-empty salt and password that concatenate to the
    same text have the same hash, and two pairs have the same hash exactly
    when SHA-256 agrees on the encodings of the two concatenations. *)
Theorem hashPassword_concatenation
    (p1 p2 s1 s2 : string) (st1 st2 : State) :
  s1 <> EmptyString -> s2 <> EmptyString ->
  let h1 := fst (result (hashPassword p1 (Some s1)) st1) in
  let h2 := fst (result (hashPassword p2 (Some s2)) st2) in
  ((s1 ++ p1)%string = (s2 ++ p2)%string -> h1 = h2) /\
  (h1 = h2 <->
   SHA256.digest (encode (s1 ++ p1)) = SHA256.digest (encode (s2 ++ p2))).
Proof.
  intros H1 H2 h1 h2. subst h1 h2.
  destruct s1 as [| c1 s1]; [congruence |]. destruct s2 as [| c2 s2]; [congruence |].
  unfold result. rewrite !hashPassword_with_salt. cbn [fst].
  split; [intros ->; reflexivity |].
  split; [apply hex_of_bytes_inj; apply digest_bytes | intros ->; reflexivity].
Qed.

Lemma hashPassword_concatenation_witness :
  fst (result (hashPassword "bc123" (Some "a")) freshState) =
  fst (result (hashPassword "c123" (Some "ab")) freshState).
Proof.
  apply (hashPassword_concatenation "bc123" "c123" "a" "ab" freshState freshState);
    [discriminate | discriminate | reflexivity].
Defined.

(** ** Username validation *)

(** The code units of [[a-zA-Z0-9_.-]]. *)
Definition allowed_code (u : Z) : Prop :=
  97 <= u <= 122 \/ 65 <= u <= 90 \/ 48 <= u <= 57 \/ u = 95 \/ u = 46 \/ u = 45.

Lemma is_username_char_allowed c :
  is_username_char c = true <-> allowed_code (code_unit c).
Proof.
  unfold is_username_char, is_lower, is_upper, is_digit, in_range, allowed_code.
  rewrite !orb_true_iff, !andb_true_iff, !Z.leb_le, !Z.eqb_eq. tauto.
Qed.

Lemma every_forall p s :
  every p s = true <-> forall c, In c (list_ascii_of_string s) -> p c = true.
Proof.
  induction s as [| c s IH]; cbn [every list_ascii_of_string In].
  - split; [intros _ c [] | reflexivity].
  - rewrite andb_true_iff, IH. split.
    + intros [Hc Hs] d [<- | Hd]; auto.
    + intros H. split; [apply H; now left | intros d Hd; apply H; now right].
Qed.

(** [validateUsername] accepts exactly the strings of 2 to 30 characters
    drawn from letters, digits, underscore, dot and hyphen, with no
    message; a string of another length gets the length message, whatever
    its characters, and a string of the right length with another
    character gets the character message. *)
Theorem validateUsername_spec (username : string) :
  let v := validateUsername username in
  (username_valid v = true <->
   2 <= len username <= 30 /\
   forall c, In c (list_ascii_of_string username) -> allowed_code (code_unit c)) /\
  (username_valid v = true -> username_message v = None) /\
  (~ 2 <= len username <= 30 -> v = mkUsernameValidation false (Some MSG_USERNAME_LENGTH)) /\
  (2 <= len username <= 30 ->
   (exists c, In c (list_ascii_of_string username) /\ ~ allowed_code (code_unit c)) ->
   v = mkUsernameValidation false (Some MSG_USERNAME_CHARS)).
Proof.
  intros v. subst v. unfold validateUsername.
  assert (Hchars : every is_username_char username = true <->
            forall c, In c (list_ascii_of_string username) -> allowed_code (code_unit c)).
  { rewrite every_forall. split; intros H c Hc; apply is_username_char_allowed; auto. }
  assert (Hpattern : forall c s, username_pattern (String c s) = every is_username_char (String c s))
    by reflexivity.
  destruct username as [| c s].
  - cbn. repeat split; try discriminate; try reflexivity.
    + intros [Hlen _]. unfold len in Hlen. cbn in Hlen. lia.
    + intros Hlen. unfold len in Hlen. cbn in Hlen. lia.
  - cbn [truthy negb orb]. rewrite Z.gtb_ltb, Hpattern.
    destruct (Z.ltb_spec (len (String c s)) 2) as [Hshort | Hmin]; cbn [orb].
    { repeat split; try discriminate; try reflexivity; intros; lia. }
    destruct (Z.ltb_spec 30 (len (String c s))) as [Hlong | Hmax]; cbn [orb].
    { repeat split; try discriminate; try reflexivity; intros; lia. }
    destruct (every is_username_char (String c s)) eqn:He; cbn [negb username_valid username_message].
    + split; [split; [intros _; split; [lia | now apply Hchars] | reflexivity] |].
      split; [reflexivity |]. split; [intros; lia |].
      intros _ (d & Hd & Hbad). exfalso. apply Hbad.
      apply (proj1 Hchars eq_refl d Hd).
    + split; [split; [discriminate | intros [_ Hall]; apply Hchars in Hall; discriminate] |].
      split; [discriminate |]. split; [intros; lia | reflexivity].
Qed.

Lemma validateUsername_spec_witness :
  username_valid (validateUsername "ravi.k-2") = true /\
  validateUsername "a" = mkUsernameValidation false (Some MSG_USERNAME_LENGTH) /\
  validateUsername "ravi k" = mkUsernameValidation false (Some MSG_USERNAME_CHARS).
Proof.
  destruct (validateUsername_spec "ravi.k-2") as ((_ & Hvalid) & _).
  destruct (validateUsername_spec "a") as (_ & _ & Hlen & _).
  destruct (validateUsername_spec "ravi k") as (_ & _ & _ & Hchars).
  split; [| split].
  - apply Hvalid. split; [vm_compute; split; discriminate |].
    intros c Hc. apply is_username_char_allowed.
    cbn in Hc. repeat (destruct Hc as [<- | Hc]; [reflexivity |]). destruct Hc.
  - apply Hlen. vm_compute. intros [H _]. now apply H.
  - apply Hchars; [vm_compute; split; discriminate |].
    exists " "%char. split; [cbn; tauto |].
    intros Hbad. apply is_username_char_allowed in Hbad. discriminate Hbad.
Defined.

(** ** Password strength *)

Lemma label_of_level p :
  let s := getPasswordStrength p in
  (level s = 0 /\ label s = "None") \/ (level s = 1 /\ label s = "Weak") \/
  (level s = 2 /\ label s = "Fair") \/ (level s = 3 /\ label s = "Good") \/
  (level s = 4 /\ label s = "Strong").
Proof.
  cbv zeta. unfold getPasswordStrength.
  destruct (negb (truthy (Some p))); [now left |].
  repeat match goal with
         | |- context [if ?b then mkStrength _ _ _ else _] => destruct b
         end; cbn [level label]; tauto.
Qed.

(** The strength meter rates the empty password 0 and every other one 1
    to 4, with the label of the level.  A password that
    [validatePassword] accepts is rated at least 2 (Fair), at least 3
    (Good) from 8 characters on, and 4 (Strong) from 12 characters on or
    from 8 characters on with a character that is neither letter nor
    digit; a password rated 1 (Weak) is never accepted. *)
Theorem getPasswordStrength_of_valid (p : string) :
  let s := getPasswordStrength p in
  (level s = 0 <-> p = EmptyString) /\
  0 <= level s <= 4 /\
  ((level s = 0 /\ label s = "None") \/ (level s = 1 /\ label s = "Weak") \/
   (level s = 2 /\ label s = "Fair") \/ (level s = 3 /\ label s = "Good") \/
   (level s = 4 /\ label s = "Strong")) /\
  (valid (validatePassword p) = true ->
     2 <= level s /\
     (8 <= len p -> 3 <= level s) /\
     (12 <= len p -> level s = 4) /\
     (8 <= len p -> test is_other p = true -> level s = 4)) /\
  (level s = 1 -> valid (validatePassword p) = false).
Proof.
  intros s.
  assert (Hlabel := label_of_level p). cbv zeta in Hlabel. fold s in Hlabel.
  assert (Hvalid : valid (validatePassword p) = true ->
            2 <= level s /\ (8 <= len p -> 3 <= level s) /\
            (12 <= len p -> level s = 4) /\
            (8 <= len p -> test is_other p = true -> level s = 4)).
  { intros Hv. apply validatePassword_valid_iff in Hv.
    destruct Hv as ((Hmin & _) & Hl & Hu & Hd). subst s.
    destruct p as [| c p']; [unfold len in Hmin; cbn in Hmin; lia |].
    unfold getPasswordStrength. cbn [truthy negb]. rewrite Hl, Hu, Hd, !Z.geb_leb.
    set (n := len (String c p')) in *. set (other := test is_other (String c p')).
    clearbody n other.
    destruct (Z.leb_spec 6 n); [| lia].
    destruct (Z.leb_spec 8 n); destruct (Z.leb_spec 12 n); destruct other;
      cbn; repeat split; intros; try lia; try discriminate. }
  split; [| split; [| split; [exact Hlabel | split; [exact Hvalid |]]]].
  - subst s. destruct p as [| c p']; [split; reflexivity |].
    split; [| discriminate]. unfold getPasswordStrength. cbn [truthy negb].
    repeat match goal with
           | |- context [if ?b then mkStrength _ _ _ else _] => destruct b
           end; cbn [level]; discriminate.
  - destruct Hlabel as [[-> _] | [[-> _] | [[-> _] | [[-> _] | [-> _]]]]]; lia.
  - intros Hweak. destruct (valid (validatePassword p)) eqn:Hv; [| reflexivity].
    destruct (Hvalid eq_refl) as [Hfair _]. lia.
Qed.

Lemma getPasswordStrength_of_valid_witness :
  2 <= level (getPasswordStrength "Owner@123") /\
  level (getPasswordStrength "Owner@123") = 4 /\
  level (getPasswordStrength "Milkshop2024") = 4 /\
  valid (validatePassword "owner") = false.
Proof.
  destruct (getPasswordStrength_of_valid "Owner@123") as (_ & _ & _ & Hv & _).
  destruct (getPasswordStrength_of_valid "Milkshop2024") as (_ & _ & _ & Hv' & _).
  destruct (getPasswordStrength_of_valid "owner") as (_ & _ & _ & _ & Hweak).
  destruct (Hv eq_refl) as (H2 & _ & _ & Hother).
  destruct (Hv' eq_refl) as (_ & _ & H12 & _).
  split; [exact H2 |].
  split; [apply Hother; [vm_compute; discriminate | reflexivity] |].
  split; [apply H12; vm_compute; discriminate |].
  apply Hweak. reflexivity.
Defined.

(** ** Rate limiting: what the log keeps and what the status can be *)

Lemma isLoginLocked_result_failures now st st' :
  recentFailures now (ls_attempts st) = recentFailures now (ls_attempts st') ->
  result (isLoginLocked now) st = result (isLoginLocked now) st'.
Proof.
  intros H. unfold result, isLoginLocked, bind, getLoginAttempts, gets, ret.
  cbn [fst snd]. rewrite H.
  destruct (Z.of_nat (List.length (recentFailures now (ls_attempts st'))) >=? MAX_LOGIN_ATTEMPTS);
    reflexivity.
Qed.

(** A successful attempt is recorded without clearing anything: at every
    time from 10 minutes before its recording on, [isLoginLocked] answers
    as it did before the recording. *)
Theorem success_keeps_failures (username : string) (t q : Z) (st : State) :
  t <= q + 600000 ->
  result (isLoginLocked q) (after (recordLoginAttempt username true t) st) =
  result (isLoginLocked q) st.
Proof.
  intros Ht. apply isLoginLocked_result_failures.
  rewrite recentFailures_record by exact Ht. apply app_nil_r.
Qed.

Lemma success_keeps_failures_witness :
  let st := after (recordFailures five_failures) freshState in
  result (isLoginLocked 250000) (after (recordLoginAttempt "owner" true 245000) st) =
  result (isLoginLocked 250000) st /\
  locked (result (isLoginLocked 250000) st) = true.
Proof.
  intros st. split; [| reflexivity].
  apply (success_keeps_failures "owner" 245000 250000 st). lia.
Defined.

Lemma isLoginLocked_one_reading now st :
  Readings.isLoginLocked now now st = isLoginLocked now st.
Proof. reflexivity. Qed.

(** [isLoginLocked] with its two readings of the clock kept apart.  When
    not locked, it reports between 1 and 5 remaining attempts, 5 less the
    failures of the five minutes before the first reading.  When locked,
    with no recorded attempt later than the first reading and the second
    reading not before the first, [remainingMinutes] is at most 5; it is
    at least 1 exactly when the second reading is still before the unlock
    time, as it is when the clock has not moved between the readings, and
    0 or less when the clock has passed the unlock time in between. *)
Theorem isLoginLocked_bounds (now now2 : Z) (st : State) :
  let r := result (Readings.isLoginLocked now now2) st in
  let failures := recentFailures now (ls_attempts st) in
  (locked r = true <-> 5 <= Z.of_nat (List.length failures)) /\
  (locked r = false ->
     exists k, r = NotLocked k /\ 1 <= k <= 5 /\
               k = 5 - Z.of_nat (List.length failures)) /\
  ((forall a, In a (ls_attempts st) -> a_timestamp a <= now) ->
   now <= now2 ->
   locked r = true ->
     exists m msg, r = Locked m msg /\ m <= 5 /\
                   (1 <= m <-> now2 < unlockTime failures) /\
                   (now2 = now -> 1 <= m)).
Proof.
  intros r failures. subst r.
  assert (Hrun : result (Readings.isLoginLocked now now2) st =
                 if Z.of_nat (List.length failures) >=? MAX_LOGIN_ATTEMPTS then
                   let m := Math_ceil_div (unlockTime failures - now2) 60000 in
                   Locked m
                     ("Too many failed attempts. Try again in " ++ decimal m
                      ++ " minute" ++ (if (m >? 1)%Z then "s" else EmptyString) ++ ".")%string
                 else NotLocked (MAX_LOGIN_ATTEMPTS - Z.of_nat (List.length failures))).
  { unfold result, Readings.isLoginLocked, bind, getLoginAttempts, gets, ret. cbn [fst].
    fold (recentFailures now (ls_attempts st)). fold failures.
    destruct (Z.of_nat (List.length failures) >=? MAX_LOGIN_ATTEMPTS); reflexivity. }
  rewrite Hrun. clear Hrun. rewrite Z.geb_leb. unfold MAX_LOGIN_ATTEMPTS.
  destruct (Z.leb_spec 5 (Z.of_nat (List.length failures))) as [Hcount | Hcount];
    cbv zeta; cbn [locked].
  - split; [tauto |]. split; [discriminate |].
    intros Hpast Hclock _.
    assert (Hne : failures <> []).
    { intros Hnil. rewrite Hnil in Hcount. cbn in Hcount. lia. }
    destruct (unlockTime_oldest failures Hne) as (oldest & Hin & _ & Hunlock).
    apply recentFailures_In in Hin. destruct Hin as (Hstored & _ & Hts).
    specialize (Hpast oldest Hstored).
    pose proof (Math_ceil_div_spec (unlockTime failures - now2) 60000 ltac:(lia)) as [Hc1 Hc2].
    eexists. eexists. split; [reflexivity |].
    rewrite LOCKOUT_DURATION_MS_value in *. lia.
  - split; [split; [discriminate | lia] |]. split; [| discriminate].
    intros _. eexists. split; [reflexivity |]. lia.
Qed.

Lemma isLoginLocked_bounds_witness :
  let st := after (recordFailures five_failures) freshState in
  (exists m msg, result (Readings.isLoginLocked 240000 240000) st = Locked m msg /\
                 1 <= m <= 5) /\
  (exists m msg, result (Readings.isLoginLocked 299999 300001) st = Locked m msg /\
                 m <= 0) /\
  (exists k, result (Readings.isLoginLocked 300000 300000) st = NotLocked k /\ 1 <= k <= 5).
Proof.
  intros st.
  assert (Hpast : forall now, 240000 <= now ->
                    forall a, In a (ls_attempts st) -> a_timestamp a <= now).
  { intros now Hnow a Ha. cbn in Ha.
    repeat (destruct Ha as [<- | Ha]; [cbn; lia |]). destruct Ha. }
  destruct (isLoginLocked_bounds 240000 240000 st) as (_ & _ & Hsame).
  destruct (isLoginLocked_bounds 299999 300001 st) as (_ & _ & Hmoved).
  destruct (isLoginLocked_bounds 300000 300000 st) as (_ & Hfree & _).
  split; [| split].
  - destruct (Hsame (Hpast 240000 ltac:(lia)) ltac:(lia) eq_refl)
      as (m & msg & Hr & Hle & _ & Hone).
    exists m, msg. split; [exact Hr |]. split; [now apply Hone | exact Hle].
  - destruct (Hmoved (Hpast 299999 ltac:(lia)) ltac:(lia) eq_refl)
      as (m & msg & Hr & _ & Hiff & _).
    exists m, msg. split; [exact Hr |].
    destruct (Z.le_gt_cases 1 m) as [Hm | Hm]; [| lia].
    apply Hiff in Hm. vm_compute in Hm. discriminate Hm.
  - destruct (Hfree eq_refl) as (k & Hr & Hk & _). now exists k.
Defined.

(** Five minutes after the last recorded failure the lockout is over:
    when every failure in the log is at least five minutes old,
    [isLoginLocked] reports not locked with all 5 attempts remaining. *)
Theorem lockout_lifts (now : Z) (st : State) :
  (forall a, In a (ls_attempts st) -> a_success a = false ->
             a_timestamp a + 300000 <= now) ->
  result (isLoginLocked now) st = NotLocked 5.
Proof.
  intros Hold.
  assert (Hnone : recentFailures now (ls_attempts st) = []).
  { destruct (recentFailures now (ls_attempts st)) as [| x l] eqn:Hrf; [reflexivity |].
    assert (Hx : In x (recentFailures now (ls_attempts st))) by (rewrite Hrf; now left).
    apply recentFailures_In in Hx. destruct Hx as (Hin & Hfail & Hts).
    specialize (Hold x Hin Hfail). rewrite LOCKOUT_DURATION_MS_value in Hts. lia. }
  unfold result, isLoginLocked, bind, getLoginAttempts, gets, ret. cbn [fst snd].
  rewrite Hnone. reflexivity.
Qed.

Lemma lockout_lifts_witness :
  result (isLoginLocked 540000) (after (recordFailures five_failures) freshState) =
  NotLocked 5.
Proof.
  apply lockout_lifts.
  intros a Ha _. cbn in Ha. repeat (destruct Ha as [<- | Ha]; [cbn; lia |]). destruct Ha.
Defined.

(** Attempts recorded one after the other, each at its own timestamp. *)
Fixpoint recordAttempts (attempts : list LoginAttempt) : M unit :=
  match attempts with
  | [] => ret tt
  | a :: rest =>
      recordLoginAttempt (a_username a) (a_success a) (a_timestamp a) ;;
      recordAttempts rest
  end.

Definition within_window (t : Z) (a : LoginAttempt) : bool :=
  a_timestamp a >? t - ATTEMPT_WINDOW_MS.

Lemma filter_within_window_twice t t' l :
  t <= t' ->
  filter (within_window t') (filter (within_window t) l) = filter (within_window t') l.
Proof.
  intros Ht. induction l as [| a l IH]; [reflexivity |]. cbn [filter].
  destruct (within_window t a) eqn:Ha; cbn [filter]; rewrite IH; [reflexivity |].
  assert (Ha' : within_window t' a = false).
  { unfold within_window in *. rewrite Z.gtb_ltb in *.
    apply Z.ltb_ge in Ha. apply Z.ltb_ge. lia. }
  now rewrite Ha'.
Qed.

Lemma recordAttempts_cons a rest st :
  after (recordAttempts (a :: rest)) st =
  after (recordAttempts rest)
        (after (recordLoginAttempt (a_username a) (a_success a) (a_timestamp a)) st).
Proof.
  unfold after. cbn [recordAttempts]. unfold bind.
  destruct (recordLoginAttempt _ _ _ st). reflexivity.
Qed.

(** With a clock that never goes back, the stored log after any sequence
    of recordings is exactly the attempts, old and new and in their order,
    that are younger than 15 minutes at the last recording: nothing younger
    is ever dropped and nothing older is kept. *)
Theorem recordLoginAttempt_keeps_window
    (attempts : list LoginAttempt) (st : State) :
  attempts <> [] ->
  StronglySorted Z.le (map a_timestamp attempts) ->
  let t_last := last (map a_timestamp attempts) 0 in
  ls_attempts (after (recordAttempts attempts) st) =
  filter (within_window t_last) (ls_attempts st ++ attempts).
Proof.
  intros Hne Hsorted. cbv zeta. revert st Hne.
  induction attempts as [| a rest IH]; intros st Hne; [congruence |].
  rewrite recordAttempts_cons.
  assert (Hone : ls_attempts
            (after (recordLoginAttempt (a_username a) (a_success a) (a_timestamp a)) st) =
            filter (within_window (a_timestamp a)) (ls_attempts st ++ [a])).
  { rewrite recordLoginAttempt_attempts. now destruct a. }
  destruct rest as [| b rest'].
  - unfold after at 1. cbn [recordAttempts ret snd map last]. exact Hone.
  - cbn [map] in Hsorted. apply StronglySorted_inv in Hsorted.
    destruct Hsorted as [Hrest Hle].
    rewrite IH by (try exact Hrest; discriminate).
    rewrite Hone, filter_app, filter_within_window_twice.
    + rewrite <- filter_app, <- app_assoc. reflexivity.
    + rewrite Forall_forall in Hle. apply Hle.
      change (a_timestamp b :: map a_timestamp rest') with (map a_timestamp (b :: rest')).
      generalize (b :: rest') (eq_refl (b :: rest')) (@nil_cons _ b rest').
      intros l _ Hl. clear -Hl. induction l as [| x l IHl]; [congruence |].
      destruct l as [| y l']; [now left |]. right. apply IHl. discriminate.
Qed.

Lemma recordLoginAttempt_keeps_window_witness :
  let attempts :=
    [mkAttempt "owner" 0 false; mkAttempt "owner" 400000 true;
     mkAttempt "staff" 1000000 false] in
  ls_attempts (after (recordAttempts attempts) freshState) =
  [mkAttempt "owner" 400000 true; mkAttempt "staff" 1000000 false].
Proof.
  intros attempts.
  rewrite (recordLoginAttempt_keeps_window attempts freshState).
  - reflexivity.
  - discriminate.
  - repeat constructor; cbn; lia.
Defined.

(** ** Login: when it succeeds and what each outcome leaves behind *)

Lemma auditLog_head action details username now st :
  hd_error (ls_audit (after (auditLog action details username now) st)) =
  Some (entry_of (userAgent st) (mkCall action details username now)).
Proof.
  change (auditLog action details username now)
    with (auditCall (mkCall action details username now)).
  rewrite auditCall_log.
  change 200%nat with (S 199). now rewrite firstn_cons.
Qed.

Lemma auditLog_state action details username now st :
  after (auditLog action details username now) st =
  set_audit (ls_audit (after (auditLog action details username now) st)) st.
Proof.
  unfold after, auditLog, bind, gets, modify. cbn [fst snd]. reflexivity.
Qed.

Lemma loginFailed_run username role t st :
  loginFailed username role t st =
  (false,
   after (auditLog "LOGIN_FAILED" ("Failed login attempt for role: " ++ role)%string
                   (Some username) t)
         (after (recordLoginAttempt username false t) st)).
Proof.
  unfold loginFailed, bind, after.
  destruct (recordLoginAttempt username false t st) as [[] st1]. cbn [snd].
  destruct (auditLog _ _ _ _ st1) as [[] st2]. reflexivity.
Qed.

(** What a failing, not locked-out [login] leaves: one failed attempt
    stamped [t], a LOGIN_FAILED entry, everything else as in [st]. *)
Definition failed_login_state (username : string) (t : Z) (st st' : State) : Prop :=
  ls_attempts st' =
    filter (within_window t) (ls_attempts st ++ [mkAttempt username t false]) /\
  (exists e, hd_error (ls_audit st') = Some e /\
             e_action e = "LOGIN_FAILED" /\ e_timestamp e = t) /\
  ls_session st' = ls_session st /\ currentUser st' = currentUser st /\
  monitor st' = monitor st /\ ls_users st' = ls_users st.

Lemma loginFailed_state username role t st st_v :
  same_but_rng st st_v ->
  failed_login_state username t st (snd (loginFailed username role t st_v)).
Proof.
  intros Hrng. rewrite loginFailed_run. cbn [snd]. rewrite auditLog_state.
  unfold failed_login_state. rewrite Hrng.
  split; [reflexivity |].
  split; [| repeat split].
  rewrite <- auditLog_state, auditLog_head. eexists. split; [reflexivity |]. split; reflexivity.
Qed.

Lemma createSession_result user now st :
  result (createSession user now) st =
  mkSession (c_username user) (c_role user) (c_name user) now now
            (hex_of_bytes (result (getRandomValues 32) st)) (now + SESSION_TIMEOUT_MS).
Proof. reflexivity. Qed.

Lemma createSession_after user now st :
  after (createSession user now) st =
  set_monitor true
    (set_session (Some (result (createSession user now) st))
       (after (getRandomValues 32) st)).
Proof. reflexivity. Qed.

Lemma createSession_token_length user now st :
  String.length (s_token (result (createSession user now) st)) = 64%nat.
Proof.
  rewrite createSession_result. cbn [s_token].
  now rewrite hex_of_bytes_length, getRandomValues_length.
Qed.

(** [login] returns true exactly when [isLoginLocked] is not locked at the
    start and the credentials authenticate.  It then stores a session of
    the matched record that expires 30 minutes after the verification
    resumed, sets [currentUser] to that record, starts the inactivity
    monitor, appends one successful attempt and puts a LOGIN_SUCCESS entry
    at the head of the audit log.  When it returns false it leaves the
    session, [currentUser], the monitor and the credential store as they
    were; unless locked out, it appends one failed attempt and puts a
    LOGIN_FAILED entry at the head of the audit log. *)
Theorem login_outcomes (username password role : string) (now now' : Z) (st : State) :
  let r := login username password role now now' st in
  (fst r = true <->
   locked (result (isLoginLocked now) st) = false /\
   authenticates st username password role = true) /\
  (fst r = true ->
   exists u token e,
     find (fun u => String.eqb (u_username u) username && String.eqb (u_role u) role)
          (ls_users st) = Some u /\
     ls_session (snd r) =
       Some (mkSession (u_username u) (u_role u) (u_name u) now' now' token
                       (now' + minutes 30)) /\
     String.length token = 64%nat /\
     currentUser (snd r) = Some (mkCurrentUser (u_username u) (u_role u) (u_name u)) /\
     monitor (snd r) = true /\
     ls_attempts (snd r) =
       filter (within_window now') (ls_attempts st ++ [mkAttempt username now' true]) /\
     hd_error (ls_audit (snd r)) = Some e /\
     e_action e = "LOGIN_SUCCESS" /\ e_timestamp e = now' /\
     ls_users (snd r) = ls_users st) /\
  (fst r = false ->
   ls_session (snd r) = ls_session st /\ currentUser (snd r) = currentUser st /\
   monitor (snd r) = monitor st /\ ls_users (snd r) = ls_users st /\
   (locked (result (isLoginLocked now) st) = false ->
    exists t, (t = now \/ t = now') /\ failed_login_state username t st (snd r))).
Proof.
  intros r. subst r. unfold login, bind. rewrite isLoginLocked_run.
  destruct (locked (result (isLoginLocked now) st)) eqn:Hl.
  { cbn [fst snd]. split; [split; [discriminate | intros [H _]; discriminate H] |].
    split; [discriminate |]. intros _. repeat split. discriminate. }
  unfold dbGetList_users. unfold gets. cbv beta iota. unfold authenticates.
  assert (Hfail : forall t st_v,
            (t = now \/ t = now') -> same_but_rng st st_v ->
            let r := loginFailed username role t st_v in
            (fst r = true <-> false = false /\ false = true) /\
            (fst r = true -> False) /\
            (fst r = false ->
             ls_session (snd r) = ls_session st /\ currentUser (snd r) = currentUser st /\
             monitor (snd r) = monitor st /\ ls_users (snd r) = ls_users st /\
             (false = false ->
              exists t, (t = now \/ t = now') /\ failed_login_state username t st (snd r)))).
  { intros t st_v Ht Hrng. cbv zeta.
    pose proof (loginFailed_state username role t st st_v Hrng) as Hst.
    rewrite loginFailed_run in *. cbn [fst snd] in *.
    split; [split; [discriminate | intros [_ H]; discriminate H] |].
    split; [discriminate |]. intros _.
    destruct Hst as (Ha & He & Hs & Hc & Hm & Hu).
    repeat split; auto. intros _. exists t. split; [exact Ht |].
    unfold failed_login_state. auto 10. }
  destruct (find _ (ls_users st)) as [u |] eqn:Hfind.
  2: { destruct (Hfail now st (or_introl eq_refl) (same_but_rng_refl st)) as (H1 & H2 & H3).
       split; [exact H1 |]. split; [intros H; destruct (H2 H) | exact H3]. }
  destruct (u_passwordHash u) as [h |] eqn:Hhash.
  2: { destruct (Hfail now st (or_introl eq_refl) (same_but_rng_refl st)) as (H1 & H2 & H3).
       split; [exact H1 |]. split; [intros H; destruct (H2 H) | exact H3]. }
  destruct (truthy (Some h)) eqn:Htruthy.
  2: { destruct (Hfail now st (or_introl eq_refl) (same_but_rng_refl st)) as (H1 & H2 & H3).
       split; [exact H1 |]. split; [intros H; destruct (H2 H) | exact H3]. }
  cbn [andb]. unfold result.
  pose proof (verifyPassword_same_but_rng password h (u_salt u) st) as Hrng.
  destruct (verifyPassword password h (u_salt u) st) as [b st_v]. cbn [fst snd] in *.
  destruct b.
  2: { destruct (Hfail now' st_v (or_intror eq_refl) Hrng) as (H1 & H2 & H3).
       split; [exact H1 |]. split; [intros H; destruct (H2 H) | exact H3]. }
  clear Hfail.
  set (cu := mkCurrentUser (u_username u) (u_role u) (u_name u)).
  change (modify (set_currentUser (Some cu)) st_v)
    with (tt, set_currentUser (Some cu) st_v).
  cbv beta iota.
  set (st1 := set_currentUser (Some cu) st_v).
  destruct (createSession cu now' st1) as [s st2] eqn:Hcreate.
  assert (Hs : s = result (createSession cu now') st1 /\ st2 = after (createSession cu now') st1)
    by (unfold result, after; rewrite Hcreate; split; reflexivity).
  destruct Hs as [Hs Hst2]. clear Hcreate.
  destruct (recordLoginAttempt username true now' st2) as [[] st3] eqn:Hrec.
  assert (Hst3 : st3 = after (recordLoginAttempt username true now') st2)
    by (unfold after; now rewrite Hrec).
  clear Hrec.
  destruct (auditLog "LOGIN_SUCCESS" ("User logged in as " ++ role)%string
                     (Some username) now' st3) as [[] st4] eqn:Haudit.
  assert (Hst4 : st4 = after (auditLog "LOGIN_SUCCESS" ("User logged in as " ++ role)%string
                                       (Some username) now') st3)
    by (unfold after; now rewrite Haudit).
  clear Haudit. cbn [ret fst snd].
  split; [split; [intros _; split; reflexivity | reflexivity] |].
  split; [| discriminate]. intros _.
  exists u, (s_token s),
    (entry_of (userAgent st)
       (mkCall "LOGIN_SUCCESS" ("User logged in as " ++ role)%string (Some username) now')).
  split; [reflexivity |].
  assert (Htoken : String.length (s_token s) = 64%nat)
    by (subst s; apply createSession_token_length).
  rewrite Hst4, auditLog_head, auditLog_state.
  cbn [ls_session currentUser monitor ls_attempts ls_users set_audit].
  rewrite Hst3, Hst2. subst st1. rewrite Hrng.
  split; [subst s; reflexivity |].
  split; [exact Htoken |].
  split; [reflexivity |]. split; [reflexivity |].
  split; [reflexivity |].
  split; [reflexivity |]. split; [reflexivity |]. split; reflexivity.
Qed.

Lemma login_outcomes_witness :
  let ok := login "owner" "Owner@123" "owner" 0 4 shopState in
  let ko := login "owner" "owner123" "owner" 0 4 shopState in
  fst ok = true /\
  (exists s, ls_session (snd ok) = Some s /\ s_expiresAt s = 4 + minutes 30) /\
  fst ko = false /\
  ls_session (snd ko) = None /\ currentUser (snd ko) = None /\
  ls_attempts (snd ko) = [mkAttempt "owner" 4 false].
Proof.
  intros ok ko.
  destruct (login_outcomes "owner" "Owner@123" "owner" 0 4 shopState) as (Hiff & Hok & _).
  destruct (login_outcomes "owner" "owner123" "owner" 0 4 shopState) as (_ & _ & Hko).
  assert (Htrue : fst ok = true)
    by (apply Hiff; split; vm_compute; reflexivity).
  assert (Hfalse : fst ko = false) by (vm_compute; reflexivity).
  destruct (Hok Htrue) as (u & token & e & _ & Hs & _).
  destruct (Hko Hfalse) as (Hsession & Hcu & _ & _ & _).
  split; [exact Htrue |].
  split; [eexists; split; [exact Hs | reflexivity] |].
  split; [exact Hfalse |].
  split; [exact Hsession |]. split; [exact Hcu |]. vm_compute. reflexivity.
Defined.

(** ** Logout and the inactivity monitor *)

Definition logout_entry (st : State) (now : Z) : AuditEntry :=
  entry_of (userAgent st)
           (mkCall "LOGOUT" "User logged out" (option_map c_username (currentUser st)) now).

Definition expired_entry (st : State) (now : Z) : AuditEntry :=
  entry_of (userAgent st)
           (mkCall "SESSION_EXPIRED" "Session expired due to inactivity"
                   (option_map c_username (currentUser st)) now).

Lemma auditLog_log action details username now st :
  ls_audit (after (auditLog action details username now) st) =
  firstn 200 (entry_of (userAgent st) (mkCall action details username now) :: ls_audit st).
Proof. apply (auditCall_log (mkCall action details username now)). Qed.

Lemma logout_after now st :
  after (logout now) st =
  set_monitor false
    (set_session None
       (set_currentUser None
          (set_audit (firstn 200 (logout_entry st now :: ls_audit st)) st))).
Proof.
  unfold logout, bind, gets, after. cbv beta iota.
  pose proof (auditLog_state "LOGOUT" "User logged out"
                (option_map c_username (currentUser st)) now st) as Hst.
  rewrite auditLog_log in Hst. unfold after in Hst.
  destruct (auditLog "LOGOUT" "User logged out"
              (option_map c_username (currentUser st)) now st) as [[] st1].
  cbn [snd] in Hst. subst st1. reflexivity.
Qed.

Lemma sessionExpiredHandler_after now st :
  after (sessionExpiredHandler now) st =
  set_monitor false
    (set_session None
       (set_currentUser None
          (set_audit
             (firstn 200 (logout_entry st now :: expired_entry st now :: ls_audit st))
             st))).
Proof.
  unfold sessionExpiredHandler, bind, gets, after. cbv beta iota.
  pose proof (auditLog_state "SESSION_EXPIRED" "Session expired due to inactivity"
                (option_map c_username (currentUser st)) now st) as Hst.
  rewrite auditLog_log in Hst. unfold after in Hst.
  destruct (auditLog "SESSION_EXPIRED" "Session expired due to inactivity"
              (option_map c_username (currentUser st)) now st) as [[] st1].
  cbn [snd] in Hst. subst st1.
  match goal with
  | |- context [snd (logout now ?x)] =>
      change (snd (logout now x)) with (after (logout now) x)
  end.
  rewrite logout_after. cbn [ls_audit set_audit]. unfold logout_entry at 1.
  cbn [userAgent currentUser set_audit].
  fold (logout_entry st now). fold (expired_entry st now).
  change (logout_entry st now :: firstn 200 (expired_entry st now :: ls_audit st))
    with ([logout_entry st now] ++ firstn 200 (expired_entry st now :: ls_audit st)).
  rewrite firstn_app_firstn. reflexivity.
Qed.

Lemma intervalTick_stopped now callback st :
  monitor st = false -> intervalTick now callback st = (false, st).
Proof. intros H. unfold intervalTick, bind, gets. cbv beta iota. now rewrite H. Qed.

(** The poll against the handler that [init] registers.  While the stored
    session has not expired a tick does nothing.  The first tick after
    the expiry calls the handler: the session is removed, [currentUser]
    cleared, a SESSION_EXPIRED and then a LOGOUT entry are put at the head
    of the audit log under the user's name, and the interval is cleared,
    so that no later tick does anything: the handler runs once. *)
Theorem poll_logs_out_once (now : Z) (s : Session) (st : State) :
  ls_session st = Some s ->
  monitor st = true ->
  (now <= s_expiresAt s -> forall callback, intervalTick now callback st = (false, st)) /\
  (s_expiresAt s < now ->
   let r := intervalTick now (Some (sessionExpiredHandler now)) st in
   fst r = true /\
   snd r =
     set_monitor false
       (set_session None
          (set_currentUser None
             (set_audit
                (firstn 200 (logout_entry st now :: expired_entry st now :: ls_audit st))
                st))) /\
   forall later callback, intervalTick later callback (snd r) = (false, snd r)).
Proof.
  intros Hs Hmon. split.
  - intros Hnow callback. unfold intervalTick, bind, gets. cbv beta iota.
    rewrite Hmon. unfold sessionCheck, bind.
    rewrite (getSession_valid now s st Hs Hnow). now destruct callback.
  - intros Hnow. cbv zeta.
    assert (Hrun : intervalTick now (Some (sessionExpiredHandler now)) st =
              (true, after (sessionExpiredHandler now)
                           (set_monitor false (set_session None st)))).
    { unfold intervalTick, bind, gets. cbv beta iota. rewrite Hmon.
      unfold sessionCheck, bind. rewrite (getSession_expired now s st Hs Hnow).
      unfold after.
      destruct (sessionExpiredHandler now (set_monitor false (set_session None st)))
        as [[] st']. reflexivity. }
    rewrite Hrun, sessionExpiredHandler_after. cbn [fst snd].
    split; [reflexivity |]. split; [reflexivity |].
    intros later callback. now apply intervalTick_stopped.
Qed.

(** The state after the owner has logged in at time 0 (resumed at 4). *)
Definition logged_in_state : State :=
  Eval vm_compute in snd (login "owner" "Owner@123" "owner" 0 4 shopState).

Lemma poll_logs_out_once_witness :
  intervalTick (minutes 30) (Some (sessionExpiredHandler (minutes 30))) logged_in_state =
    (false, logged_in_state) /\
  let r := intervalTick (minutes 31) (Some (sessionExpiredHandler (minutes 31)))
                        logged_in_state in
  fst r = true /\ ls_session (snd r) = None /\ currentUser (snd r) = None /\
  map e_action (firstn 2 (ls_audit (snd r))) = ["LOGOUT"; "SESSION_EXPIRED"] /\
  map e_username (firstn 2 (ls_audit (snd r))) = ["owner"; "owner"] /\
  intervalTick (minutes 32) (Some (sessionExpiredHandler (minutes 32))) (snd r) =
    (false, snd r).
Proof.
  assert (Hs : exists s, ls_session logged_in_state = Some s /\ s_expiresAt s = 4 + minutes 30)
    by (eexists; split; reflexivity).
  destruct Hs as (s & Hs & Hexp).
  destruct (poll_logs_out_once (minutes 30) s logged_in_state Hs eq_refl) as [Hquiet _].
  destruct (poll_logs_out_once (minutes 31) s logged_in_state Hs eq_refl) as [_ Hfire].
  split; [apply Hquiet; rewrite Hexp; vm_compute; discriminate |].
  destruct (Hfire ltac:(rewrite Hexp; reflexivity)) as (Hfired & Hstate & Honce).
  cbv zeta. split; [exact Hfired |]. rewrite Hstate.
  split; [reflexivity |]. split; [reflexivity |].
  split; [reflexivity |]. split; [reflexivity |].
  rewrite <- Hstate. apply Honce.
Defined.

(** An activity signal that meets the expired session before the poll
    does: [refreshSession] removes the session and clears the interval,
    [currentUser] and the audit log stay as they are, and no later tick of
    the poll calls the expiry handler. *)
Theorem activity_after_expiry_cancels_poll (now : Z) (s : Session) (st : State) :
  ls_session st = Some s ->
  s_expiresAt s < now ->
  let st' := after (handleActivity now) st in
  st' = set_monitor false (set_session None st) /\
  currentUser st' = currentUser st /\
  ls_audit st' = ls_audit st /\
  forall later callback, intervalTick later callback st' = (false, st').
Proof.
  intros Hs Hnow st'.
  assert (Hst' : st' = set_monitor false (set_session None st)).
  { subst st'. unfold after, handleActivity, refreshSession, bind.
    now rewrite (getSession_expired now s st Hs Hnow). }
  rewrite Hst'. split; [reflexivity |]. split; [reflexivity |]. split; [reflexivity |].
  intros later callback. now apply intervalTick_stopped.
Qed.

Lemma activity_after_expiry_cancels_poll_witness :
  let st' := after (handleActivity (minutes 31)) logged_in_state in
  ls_session st' = None /\
  option_map c_username (currentUser st') = Some "owner" /\
  intervalTick (minutes 32) (Some (sessionExpiredHandler (minutes 32))) st' = (false, st').
Proof.
  intros st'.
  assert (Hs : exists s, ls_session logged_in_state = Some s /\ s_expiresAt s = 4 + minutes 30)
    by (eexists; split; reflexivity).
  destruct Hs as (s & Hs & Hexp).
  destruct (activity_after_expiry_cancels_poll (minutes 31) s logged_in_state Hs
              ltac:(rewrite Hexp; reflexivity)) as (Hst & Hcu & _ & Hpoll).
  fold st' in Hst, Hcu, Hpoll.
  split; [rewrite Hst; reflexivity |].
  split; [rewrite Hcu; reflexivity |]. apply Hpoll.
Defined.

(** ** Credential management *)

Lemma hashPassword_hash_truthy password salt st :
  truthy (Some (fst (result (hashPassword password salt) st))) = true.
Proof.
  rewrite hashPassword_result. cbn [fst].
  pose proof (hex_of_bytes_length (SHA256.digest (encode (salt_used salt st ++ password)))) as H.
  rewrite digest_length in H.
  destruct (hex_of_bytes _); [discriminate H | reflexivity].
Qed.

Lemma hashPassword_salt_truthy password salt st :
  truthy (Some (snd (result (hashPassword password salt) st))) = true.
Proof.
  rewrite hashPassword_result. cbn [snd].
  pose proof (salt_used_nonempty salt st) as H.
  destruct (salt_used salt st); [congruence | reflexivity].
Qed.

Lemma verifyPassword_own_hash password salt st st' :
  result (verifyPassword password (fst (result (hashPassword password salt) st))
                         (Some (snd (result (hashPassword password salt) st)))) st' = true.
Proof.
  rewrite hashPassword_result. cbn [fst snd].
  pose proof (salt_used_nonempty salt st) as Hne.
  destruct (salt_used salt st) as [| c s]; [congruence |].
  unfold result. rewrite verifyPassword_with_salt. apply String.eqb_refl.
Qed.

Lemma hashPassword_fresh_after password st :
  after (hashPassword password None) st = snd (generateSalt st).
Proof. unfold after. now rewrite hashPassword_fresh_salt. Qed.

Lemma updateFirst_split p f (l : list UserRecord) u :
  find p l = Some u ->
  exists prefix suffix,
    l = prefix ++ u :: suffix /\
    Forall (fun v => p v = false) prefix /\ p u = true /\
    updateFirst p f l = prefix ++ f u :: suffix.
Proof.
  induction l as [| v l IH]; cbn [find updateFirst]; [discriminate |].
  destruct (p v) eqn:Hv.
  - intros H. injection H as <-. exists [], l. repeat split; auto.
  - intros H. destruct (IH H) as (prefix & suffix & -> & Hpre & Hu & Hupd).
    exists (v :: prefix), suffix. rewrite Hupd. repeat split; auto.
Qed.

Lemma find_first q (prefix suffix : list UserRecord) u :
  Forall (fun v => q v = false) prefix -> q u = true ->
  find q (prefix ++ u :: suffix) = Some u.
Proof.
  intros Hpre Hu. induction Hpre as [| v prefix Hv Hpre IH]; cbn [app find].
  - now rewrite Hu.
  - now rewrite Hv.
Qed.

(** The record that [changePassword] and [saveUser] write. *)
Definition hashed_record (username role name : string) (hashResult : string * string)
  : UserRecord :=
  mkUser username None (Some (fst hashResult)) (Some (snd hashResult)) role name.

Lemma authenticates_first st username password role prefix suffix name hr st0 :
  ls_users st = prefix ++ hashed_record username role name hr :: suffix ->
  Forall (fun v => String.eqb (u_username v) username && String.eqb (u_role v) role = false)
         prefix ->
  hr = result (hashPassword password None) st0 ->
  authenticates st username password role = true.
Proof.
  intros Husers Hpre ->. unfold authenticates. rewrite Husers.
  rewrite (find_first _ prefix suffix _ Hpre)
    by (cbn [hashed_record u_username u_role]; now rewrite !String.eqb_refl).
  cbn [hashed_record u_passwordHash u_salt].
  now rewrite hashPassword_hash_truthy, verifyPassword_own_hash.
Qed.


Definition two_sams : State :=
  set_currentUser (Some (mkCurrentUser "sam" "staff" "Sam (counter)"))
    (set_users
       [ mkUser "sam" None (Some "00") (Some "aa") "owner" "Sam (owner)";
         mkUser "sam" None (Some "11") (Some "bb") "staff" "Sam (counter)" ]
       freshState).


(** The key under which [login] looks a credential up. *)
Definition key (u : UserRecord) : string * string := (u_username u, u_role u).

Definition has_key (username role : string) (u : UserRecord) : bool :=
  String.eqb (u_username u) username && String.eqb (u_role u) role.

Lemma has_key_iff username role u :
  has_key username role u = true <-> key u = (username, role).
Proof.
  unfold has_key, key. rewrite andb_true_iff, !String.eqb_eq.
  split; [intros [-> ->]; reflexivity | intros H; injection H; auto].
Qed.

Lemma existsOther_false p editIndex start (l : list UserRecord) :
  existsOther p editIndex start l = false <->
  forall i u, nth_error l i = Some u -> start + Z.of_nat i <> editIndex -> p u = false.
Proof.
  revert start. induction l as [| v l IH]; intros start; cbn [existsOther].
  - split; [intros _ [| i] u H; discriminate H | reflexivity].
  - rewrite orb_false_iff, IH. split.
    + intros [Hv Hrest] [| i] u Hi Hne; cbn [nth_error] in Hi.
      * injection Hi as <-. apply andb_false_iff in Hv. destruct Hv as [Hv | Hv]; [exact Hv |].
        apply negb_false_iff, Z.eqb_eq in Hv. lia.
      * apply (Hrest i u Hi). lia.
    + intros H. split.
      * destruct (Z.eqb_spec start editIndex) as [Heq | Hne];
          [now rewrite andb_false_r |].
        rewrite (H 0%nat v eq_refl ltac:(lia)). reflexivity.
      * intros i u Hi Hne. apply (H (S i) u Hi). lia.
Qed.

Lemma setAt_split (i : nat) v (l : list UserRecord) :
  (i < List.length l)%nat ->
  exists pre old suf,
    l = pre ++ old :: suf /\ List.length pre = i /\ setAt i v l = pre ++ v :: suf.
Proof.
  revert i. induction l as [| u l IH]; intros i Hi; cbn [List.length] in Hi; [lia |].
  destruct i as [| i]; cbn [setAt].
  - exists [], u, l. repeat split.
  - destruct (IH i ltac:(lia)) as (pre & old & suf & -> & Hlen & Hset).
    exists (u :: pre), old, suf. rewrite Hset. cbn [List.length app]. repeat split. lia.
Qed.

Lemma NoDup_insert {A} (a : A) (l l' : list A) :
  NoDup (l ++ l') -> ~ In a (l ++ l') -> NoDup (l ++ a :: l').
Proof.
  induction l as [| x l IH]; cbn [app]; intros Hnd Hin.
  - now constructor.
  - inversion Hnd as [| ? ? Hx Hnd']; subst. constructor.
    + rewrite in_app_iff in *. cbn [In]. intros [H | [H | H]]; [tauto | | tauto].
      subst. apply Hin. now left.
    + apply IH; [exact Hnd' |]. intros H. apply Hin. now right.
Qed.

(** The guards of [saveUser] that make it return without saving. *)
Definition saveUser_rejects (displayName username password role : string)
    (editIndex : Z) (st : State) : bool :=
  negb (truthy (Some displayName)) || negb (truthy (Some username))
  || negb (truthy (Some password))
  || negb (username_valid (validateUsername username))
  || negb (valid (validatePassword password))
  || existsOther (has_key username role) editIndex 0 (ls_users st).

Definition edits_existing (editIndex : Z) (st : State) : bool :=
  (editIndex >=? 0) && (editIndex <? Z.of_nat (List.length (ls_users st))).

(** The record at [editIndex] is the one of [currentUser]. *)
Definition edits_own (editIndex : Z) (st : State) : bool :=
  edits_existing editIndex st &&
  match nth_error (ls_users st) (Z.to_nat editIndex), currentUser st with
  | Some old, Some c =>
      String.eqb (u_username old) (c_username c) && String.eqb (u_role old) (c_role c)
  | _, _ => false
  end.

Lemma saveUser_rejected displayName username password role editIndex now' st :
  saveUser_rejects displayName username password role editIndex st = true ->
  saveUser displayName username password role editIndex now' st = (tt, st).
Proof.
  unfold saveUser_rejects, saveUser. intros H.
  destruct (negb (truthy (Some displayName)) || negb (truthy (Some username))
            || negb (truthy (Some password))); [reflexivity |].
  destruct (negb (username_valid (validateUsername username))); [reflexivity |].
  destruct (negb (valid (validatePassword password))); [reflexivity |].
  cbn [orb] in H. unfold bind, dbGetList_users, gets. cbv beta iota.
  unfold has_key in H. now rewrite H.
Qed.

Lemma saveUser_accepted displayName username password role editIndex now' st :
  saveUser_rejects displayName username password role editIndex st = false ->
  let new := hashed_record username role displayName
                           (result (hashPassword password None) st) in
  let st_h := snd (generateSalt st) in
  let st_u := set_users (setAt (Z.to_nat editIndex) new (ls_users st)) st_h in
  let c' := mkCurrentUser username role displayName in
  let st_m := if edits_own editIndex st
              then after (createSession c' now') (set_currentUser (Some c') st_u)
              else st_u in
  after (saveUser displayName username password role editIndex now') st =
  if edits_existing editIndex st then
    after (auditLog "USER_UPDATED" ("Updated user: " ++ displayName)%string
                    (option_map c_username (currentUser st_m)) now') st_m
  else
    after (auditLog "USER_ADDED"
                    ("Added new user: " ++ displayName ++ " (" ++ role ++ ")")%string
                    (option_map c_username (currentUser st)) now')
          (set_users (ls_users st ++ [new]) st_h).
Proof.
  unfold saveUser_rejects, saveUser. intros H. cbv zeta.
  apply orb_false_iff in H. destruct H as [H Hdup].
  apply orb_false_iff in H. destruct H as [H Hpw].
  apply orb_false_iff in H. destruct H as [H Hun].
  rewrite H, Hun, Hpw. unfold after, bind, dbGetList_users, gets. cbv beta iota.
  unfold has_key in Hdup. rewrite Hdup.
  unfold edits_own, edits_existing.
  destruct ((editIndex >=? 0) && (editIndex <? Z.of_nat (List.length (ls_users st)))) eqn:Hr;
    [| reflexivity].
  cbn [andb].
  destruct (nth_error (ls_users st) (Z.to_nat editIndex)) as [old |] eqn:Hold.
  2: { exfalso. apply nth_error_None in Hold. apply andb_true_iff in Hr.
       rewrite Z.geb_leb, Z.leb_le, Z.ltb_lt in Hr. lia. }
  change (currentUser (snd (dbSet_users ?u (snd (hashPassword password None st)))))
    with (currentUser st).
  unfold result. rewrite !hashPassword_fresh_salt. cbv beta iota. cbn [fst snd].
  unfold dbSet_users, modify. cbv beta iota. cbn [currentUser set_users].
  change (currentUser (snd (generateSalt st))) with (currentUser st).
  destruct (currentUser st) as [c |] eqn:Hc; [| reflexivity].
  destruct (String.eqb (u_username old) (c_username c)
            && String.eqb (u_role old) (c_role c)); reflexivity.
Qed.

Lemma auditLog_users action details username now st :
  ls_users (after (auditLog action details username now) st) = ls_users st.
Proof. now rewrite auditLog_state. Qed.

Lemma saveUser_users displayName username password role editIndex now' st :
  saveUser_rejects displayName username password role editIndex st = false ->
  ls_users (after (saveUser displayName username password role editIndex now') st) =
  let new := hashed_record username role displayName
                           (result (hashPassword password None) st) in
  if edits_existing editIndex st
  then setAt (Z.to_nat editIndex) new (ls_users st)
  else ls_users st ++ [new].
Proof.
  intros Hok. rewrite (saveUser_accepted _ _ _ _ _ _ _ Hok). cbv zeta.
  destruct (edits_existing editIndex st); rewrite auditLog_users; [| reflexivity].
  destruct (edits_own editIndex st); reflexivity.
Qed.

(** [saveUser] saves nothing and changes nothing when a field is empty,
    the username or the password is not valid, or another record than the
    edited one has the same username and role.  Otherwise it writes one
    record, holding the fresh salt and hash of the password and no
    plaintext, in place of the record at [editIndex] when that index is in
    the store and at the end of the store when it is not; every other
    record stays where and as it was; the password then authenticates
    under the saved username and role; and if usernames with roles were
    unique in the store, they still are. *)
Theorem saveUser_store
    (displayName username password role : string) (editIndex now' : Z) (st : State) :
  let st' := after (saveUser displayName username password role editIndex now') st in
  let new := hashed_record username role displayName
                           (result (hashPassword password None) st) in
  (saveUser_rejects displayName username password role editIndex st = true -> st' = st) /\
  (saveUser_rejects displayName username password role editIndex st = false ->
   (edits_existing editIndex st = true ->
      nth_error (ls_users st') (Z.to_nat editIndex) = Some new /\
      List.length (ls_users st') = List.length (ls_users st)) /\
   (edits_existing editIndex st = false -> ls_users st' = ls_users st ++ [new]) /\
   (forall i u, nth_error (ls_users st) i = Some u -> Z.of_nat i <> editIndex ->
                nth_error (ls_users st') i = Some u) /\
   authenticates st' username password role = true /\
   (NoDup (map key (ls_users st)) -> NoDup (map key (ls_users st')))).
Proof.
  intros st' new. split.
  { intros Hrej. subst st'. unfold after. now rewrite saveUser_rejected. }
  intros Hok.
  pose proof (saveUser_users _ _ _ _ _ now' _ Hok) as Husers. cbv zeta in Husers.
  fold st' new in Husers.
  assert (Hdup : forall i u, nth_error (ls_users st) i = Some u ->
                             0 + Z.of_nat i <> editIndex -> has_key username role u = false).
  { apply existsOther_false. unfold saveUser_rejects in Hok.
    apply orb_false_iff in Hok. tauto. }
  assert (Hshape : exists pre suf,
            ls_users st' = pre ++ new :: suf /\
            (forall v, In v (pre ++ suf) -> has_key username role v = false) /\
            (edits_existing editIndex st = true ->
             exists old, ls_users st = pre ++ old :: suf /\
                         List.length pre = Z.to_nat editIndex) /\
            (edits_existing editIndex st = false -> pre = ls_users st /\ suf = [])).
  { destruct (edits_existing editIndex st) eqn:Hr.
    - unfold edits_existing in Hr. apply andb_true_iff in Hr.
      rewrite Z.geb_leb, Z.leb_le, Z.ltb_lt in Hr.
      destruct (setAt_split (Z.to_nat editIndex) new (ls_users st) ltac:(lia))
        as (pre & old & suf & Hsplit & Hlen & Hset).
      exists pre, suf. split; [now rewrite Husers |].
      split; [| split; [intros _; now exists old | discriminate]].
      intros v Hv. apply In_nth_error in Hv. destruct Hv as [j Hj].
      destruct (Nat.lt_ge_cases j (List.length pre)) as [Hlt | Hge].
      + rewrite nth_error_app1 in Hj by exact Hlt.
        apply (Hdup j v); [rewrite Hsplit; now rewrite nth_error_app1 | lia].
      + rewrite nth_error_app2 in Hj by exact Hge.
        apply (Hdup (S j) v).
        * rewrite Hsplit, nth_error_app2 by lia.
          replace (S j - List.length pre)%nat with (S (j - List.length pre)) by lia.
          exact Hj.
        * lia.
    - exists (ls_users st), []. split; [exact Husers |].
      split; [| split; [discriminate | intros _; split; reflexivity]].
      intros v Hv. rewrite app_nil_r in Hv. apply In_nth_error in Hv. destruct Hv as [j Hj].
      apply (Hdup j v Hj).
      unfold edits_existing in Hr. apply andb_false_iff in Hr.
      rewrite Z.geb_leb, Z.leb_gt, Z.ltb_ge in Hr.
      pose proof (proj1 (nth_error_Some (ls_users st) j) ltac:(congruence)). lia. }
  destruct Hshape as (pre & suf & Hst' & Hothers & Hedit & Hadd).
  split; [| split; [| split; [| split]]].
  - intros Hr. destruct (Hedit Hr) as (old & Hsplit & Hlen).
    rewrite Hst', Hsplit. split.
    + rewrite nth_error_app2 by lia. now rewrite <- Hlen, Nat.sub_diag.
    + rewrite !length_app. reflexivity.
  - intros Hr. destruct (Hadd Hr) as [-> ->]. exact Hst'.
  - intros i u Hi Hne. rewrite Hst'.
    destruct (edits_existing editIndex st) eqn:Hr.
    + destruct (Hedit eq_refl) as (old & Hsplit & Hlen). rewrite Hsplit in Hi.
      destruct (Nat.lt_ge_cases i (List.length pre)) as [Hlt | Hge].
      * rewrite nth_error_app1 in * by exact Hlt. exact Hi.
      * rewrite nth_error_app2 in * by exact Hge.
        destruct (i - List.length pre)%nat as [| k] eqn:Hk; [| exact Hi].
        unfold edits_existing in Hr. apply andb_true_iff in Hr.
        rewrite Z.geb_leb, Z.leb_le in Hr. lia.
    + destruct (Hadd eq_refl) as [-> ->].
      rewrite nth_error_app1 by (apply nth_error_Some; congruence). exact Hi.
  - apply (authenticates_first st' username password role pre suf displayName
             (result (hashPassword password None) st) st Hst'); [| reflexivity].
    apply Forall_forall. intros v Hv. apply Hothers. rewrite in_app_iff. now left.
  - intros Hnd. rewrite Hst', map_app. cbn [map]. apply NoDup_insert.
    + rewrite <- map_app.
      destruct (edits_existing editIndex st) eqn:Hr.
      * destruct (Hedit eq_refl) as (old & Hsplit & _).
        rewrite Hsplit, map_app in Hnd. cbn [map] in Hnd.
        rewrite map_app. now apply NoDup_remove_1 in Hnd.
      * destruct (Hadd eq_refl) as [-> ->]. now rewrite app_nil_r.
    + rewrite <- map_app. intros Hin. apply in_map_iff in Hin.
      destruct Hin as (v & Hkey & Hv). specialize (Hothers v Hv).
      assert (Hk : has_key username role v = true) by (apply has_key_iff; exact Hkey).
      congruence.
Qed.

Lemma saveUser_store_witness :
  let st' := after (saveUser "Ravi" "ravi" "Milk@2025" "staff" (-1) 5000) logged_in_state in
  List.length (ls_users st') = 2%nat /\
  nth_error (ls_users st') 0 = nth_error (ls_users logged_in_state) 0 /\
  authenticates st' "ravi" "Milk@2025" "staff" = true /\
  NoDup (map key (ls_users st')) /\
  after (saveUser "Owner Two" "owner" "Milk@2025" "owner" (-1) 5000) logged_in_state =
    logged_in_state.
Proof.
  intros st'.
  destruct (saveUser_store "Ravi" "ravi" "Milk@2025" "staff" (-1) 5000 logged_in_state)
    as [_ Hok].
  destruct (saveUser_store "Owner Two" "owner" "Milk@2025" "owner" (-1) 5000 logged_in_state)
    as [Hrej _].
  destruct (Hok ltac:(vm_compute; reflexivity)) as (_ & Hadd & Hkeep & Hauth & Hnd).
  fold st' in Hadd, Hkeep, Hauth, Hnd.
  split; [rewrite (Hadd eq_refl), length_app; reflexivity |].
  split; [apply (Hkeep 0%nat); [reflexivity | discriminate] |].
  split; [exact Hauth |].
  split; [apply Hnd; constructor; [intros [] | constructor] |].
  apply Hrej. vm_compute. reflexivity.
Defined.

(** When [saveUser] saves over the record of the logged-in user, it
    renames [currentUser] to the saved username, role and display name
    and replaces the session by a new one for that identity; the token of
    that session is the hexadecimal text of the 32 bytes that the random
    source yields after the 16 bytes of the salt, and the session expires
    30 minutes after the reading [now'] of the clock.  In every other
    accepted case [currentUser], the session and the monitor stay as they
    were.  The audit entry it writes is USER_UPDATED or USER_ADDED under
    the username that [currentUser] has after the save. *)
Theorem saveUser_session
    (displayName username password role : string) (editIndex now' : Z) (st : State) :
  saveUser_rejects displayName username password role editIndex st = false ->
  let st' := after (saveUser displayName username password role editIndex now') st in
  (edits_own editIndex st = true ->
     currentUser st' = Some (mkCurrentUser username role displayName) /\
     monitor st' = true /\
     pos (rng st') = (pos (rng st) + 48)%nat /\
     exists s,
       ls_session st' = Some s /\
       s_username s = username /\ s_role s = role /\ s_name s = displayName /\
       s_token s = hex_of_bytes (drawn 16 32 st) /\
       s_expiresAt s = now' + minutes 30) /\
  (edits_own editIndex st = false ->
     currentUser st' = currentUser st /\ ls_session st' = ls_session st /\
     monitor st' = monitor st) /\
  exists e,
    hd_error (ls_audit st') = Some e /\
    e_action e = (if edits_existing editIndex st then "USER_UPDATED" else "USER_ADDED") /\
    e_username e =
      match currentUser st' with
      | Some c => if truthy (Some (c_username c)) then c_username c else "system"
      | None => "system"
      end.
Proof.
  intros Hok st'. subst st'. rewrite (saveUser_accepted _ _ _ _ _ _ _ Hok). cbv zeta.
  assert (Hown : edits_own editIndex st = true -> edits_existing editIndex st = true)
    by (unfold edits_own; intros H; now apply andb_true_iff in H).
  destruct (edits_existing editIndex st) eqn:Hr.
  - destruct (edits_own editIndex st) eqn:Ho.
    + split; [intros _ | split; [discriminate |]].
      * rewrite auditLog_state. cbn [currentUser monitor ls_session set_audit].
        rewrite createSession_after, createSession_result.
        split; [reflexivity |]. split; [reflexivity |].
        split; [cbn; lia |].
        eexists. split; [reflexivity |]. cbn [s_username s_role s_name s_token s_expiresAt].
        split; [reflexivity |]. split; [reflexivity |]. split; [reflexivity |].
        split; reflexivity.
      * eexists. split; [apply auditLog_head |]. split; [reflexivity |].
        rewrite auditLog_state. cbn [currentUser set_audit].
        rewrite createSession_after. cbn. now destruct username.
    + split; [discriminate | split].
      * intros _. rewrite auditLog_state. repeat split.
      * eexists. split; [apply auditLog_head |]. split; [reflexivity |].
        rewrite auditLog_state. cbn [currentUser set_audit set_users].
        change (currentUser (snd (generateSalt st))) with (currentUser st).
        destruct (currentUser st) as [c |]; [| reflexivity]. cbn. now destruct (c_username c).
  - destruct (edits_own editIndex st) eqn:Ho; [specialize (Hown eq_refl); discriminate |].
    split; [discriminate | split].
    + intros _. rewrite auditLog_state. repeat split.
    + eexists. split; [apply auditLog_head |]. split; [reflexivity |].
      rewrite auditLog_state. cbn [currentUser set_audit set_users].
      change (currentUser (snd (generateSalt st))) with (currentUser st).
      destruct (currentUser st) as [c |]; [| reflexivity]. cbn. now destruct (c_username c).
Qed.

Lemma saveUser_session_witness :
  let st' := after (saveUser "The Owner" "boss" "Milk@2025" "owner" 0 5000) logged_in_state in
  currentUser st' = Some (mkCurrentUser "boss" "owner" "The Owner") /\
  option_map s_expiresAt (ls_session st') = Some (5000 + minutes 30) /\
  option_map e_username (hd_error (ls_audit st')) = Some "boss".
Proof.
  intros st'.
  destruct (saveUser_session "The Owner" "boss" "Milk@2025" "owner" 0 5000 logged_in_state
              ltac:(vm_compute; reflexivity)) as (Hown & _ & e & He & _ & Hname).
  fold st' in Hown, He, Hname.
  destruct (Hown ltac:(vm_compute; reflexivity)) as (Hcu & _ & _ & s & Hs & _ & _ & _ & _ & Hexp).
  split; [exact Hcu |]. split; [rewrite Hs; cbn [option_map]; now rewrite Hexp |].
  rewrite He, Hcu in *. cbn [option_map]. now rewrite Hname.
Defined.

(** ** Deleting a user *)

Definition is_owner (u : UserRecord) : bool := String.eqb (u_role u) "owner".

Definition owners (users : list UserRecord) : nat :=
  List.length (filter is_owner users).

Definition is_current (st : State) (u : UserRecord) : bool :=
  match currentUser st with
  | Some c => String.eqb (u_username u) (c_username c) && String.eqb (u_role u) (c_role c)
  | None => false
  end.

Lemma nth_error_split_at (l : list UserRecord) (i : nat) u :
  nth_error l i = Some u ->
  exists pre suf, l = pre ++ u :: suf /\ List.length pre = i /\
                  firstn i l = pre /\ skipn (i + 1) l = suf.
Proof.
  intros H. destruct (nth_error_split l i H) as (pre & suf & -> & Hlen).
  exists pre, suf. split; [reflexivity |]. split; [exact Hlen |]. subst i. split.
  - now rewrite firstn_app, firstn_all, Nat.sub_diag, firstn_O, app_nil_r.
  - rewrite skipn_app, skipn_all2 by lia.
    replace (List.length pre + 1 - List.length pre)%nat with 1%nat by lia. reflexivity.
Qed.

Lemma deleteUserConfirm_run index st :
  deleteUserConfirm index st =
  (match nth_error (ls_users st) (Z.to_nat index) with
   | Some user =>
       if (index <? 0) || (index >=? Z.of_nat (List.length (ls_users st))) then None
       else if is_current st user then None
       else if is_owner user && (Z.of_nat (owners (ls_users st)) <=? 1) then None
       else Some user
   | None => None
   end, st).
Proof.
  unfold deleteUserConfirm, bind, dbGetList_users, gets, is_current, is_owner, owners.
  cbv beta iota.
  destruct ((index <? 0) || (index >=? Z.of_nat (List.length (ls_users st))));
    destruct (nth_error (ls_users st) (Z.to_nat index)) as [user |]; try reflexivity.
  destruct (currentUser st) as [c |].
  - destruct (String.eqb (u_username user) (c_username c)
              && String.eqb (u_role user) (c_role c)); [reflexivity |].
    destruct (String.eqb (u_role user) "owner" && _); reflexivity.
  - destruct (String.eqb (u_role user) "owner" && _); reflexivity.
Qed.

(** [deleteUserConfirm] changes nothing by itself, and asks for
    confirmation only about a record that is in the store, is not the
    record of the logged-in user, and is not the only owner.  Confirmed on
    the same store, the deletion removes exactly that record and keeps
    the others in order: an owner remains whenever there was one, the
    record of the logged-in user remains, usernames with roles stay
    unique, and a USER_DELETED entry heads the audit log. *)
Theorem deleteUser_guards (index now : Z) (st : State) :
  after (deleteUserConfirm index) st = st /\
  forall user,
    result (deleteUserConfirm index) st = Some user ->
    0 <= index /\
    nth_error (ls_users st) (Z.to_nat index) = Some user /\
    is_current st user = false /\
    (is_owner user = true -> (2 <= owners (ls_users st))%nat) /\
    let st' := after (deleteUserConfirmed index user now) st in
    (exists pre suf,
        ls_users st = pre ++ user :: suf /\ List.length pre = Z.to_nat index /\
        ls_users st' = pre ++ suf) /\
    ((1 <= owners (ls_users st))%nat -> (1 <= owners (ls_users st'))%nat) /\
    (forall u, In u (ls_users st) -> is_current st u = true -> In u (ls_users st')) /\
    (NoDup (map key (ls_users st)) -> NoDup (map key (ls_users st'))) /\
    currentUser st' = currentUser st /\ ls_session st' = ls_session st /\
    exists e, hd_error (ls_audit st') = Some e /\ e_action e = "USER_DELETED".
Proof.
  unfold after, result. rewrite deleteUserConfirm_run. cbn [fst snd].
  split; [reflexivity |]. intros user Hasked.
  destruct (nth_error (ls_users st) (Z.to_nat index)) as [u |] eqn:Hnth; [| discriminate].
  destruct ((index <? 0) || (index >=? Z.of_nat (List.length (ls_users st)))) eqn:Hrange;
    [discriminate |].
  destruct (is_current st u) eqn:Hcur; [discriminate |].
  destruct (is_owner u && (Z.of_nat (owners (ls_users st)) <=? 1)) eqn:Hlast;
    [discriminate |].
  injection Hasked as <-.
  apply orb_false_iff in Hrange. destruct Hrange as [Hneg _]. apply Z.ltb_ge in Hneg.
  split; [exact Hneg |]. split; [reflexivity |]. split; [exact Hcur |].
  assert (Howner : is_owner u = true -> (2 <= owners (ls_users st))%nat).
  { intros Ho. rewrite Ho in Hlast. cbn [andb] in Hlast. apply Z.leb_gt in Hlast. lia. }
  split; [exact Howner |].
  destruct (nth_error_split_at _ _ _ Hnth) as (pre & suf & Hsplit & Hlen & Hfirst & Hskip).
  assert (Hst' : snd (deleteUserConfirmed index u now st) =
            after (auditLog "USER_DELETED"
                     ("Deleted user: " ++ u_name u ++ " (" ++ u_username u ++ ")")%string
                     (option_map c_username (currentUser st)) now)
                  (set_users (pre ++ suf) st)).
  { unfold deleteUserConfirmed, bind, dbGetList_users, dbSet_users, gets, modify, after.
    cbv beta iota. unfold splice1. rewrite Hfirst, Hskip. reflexivity. }
  cbv zeta. rewrite Hst', auditLog_head, auditLog_state.
  cbn [ls_users currentUser ls_session set_audit set_users].
  split; [exists pre, suf; repeat split; auto |].
  split; [| split; [| split; [| split; [reflexivity | split; [reflexivity |]]]]].
  - rewrite Hsplit in *. unfold owners in *. rewrite !filter_app, !length_app in *.
    cbn [filter] in *. destruct (is_owner u) eqn:Ho; cbn [List.length] in *.
    + specialize (Howner eq_refl). lia.
    + lia.
  - intros v Hv Hcv. rewrite Hsplit in Hv. rewrite in_app_iff in *. cbn [In] in Hv.
    destruct Hv as [Hv | [Hv | Hv]]; [now left | | now right].
    subst v. congruence.
  - rewrite Hsplit, !map_app. cbn [map]. apply NoDup_remove_1.
  - eexists. split; reflexivity.
Qed.

Definition three_users : State :=
  set_currentUser (Some (mkCurrentUser "owner" "owner" "Shop Owner"))
    (set_users
       [ mkUser "owner" None (Some "00") (Some "aa") "owner" "Shop Owner";
         mkUser "staff" None (Some "11") (Some "bb") "staff" "Staff Member";
         mkUser "ravi" None (Some "22") (Some "cc") "owner" "Ravi" ]
       freshState).

Lemma deleteUser_guards_witness :
  result (deleteUserConfirm 0) three_users = None /\
  result (deleteUserConfirm 3) three_users = None /\
  (exists user,
      result (deleteUserConfirm 2) three_users = Some user /\
      map u_username (ls_users (after (deleteUserConfirmed 2 user 9000) three_users)) =
        ["owner"; "staff"] /\
      (1 <= owners (ls_users (after (deleteUserConfirmed 2 user 9000) three_users)))%nat) /\
  result (deleteUserConfirm 0)
         (after (deleteUserConfirmed 2 (mkUser "ravi" None (Some "22") (Some "cc") "owner" "Ravi")
                                     9000)
                (set_currentUser (Some (mkCurrentUser "staff" "staff" "Staff Member"))
                                 three_users)) = None.
Proof.
  split; [reflexivity |]. split; [reflexivity |]. split; [| reflexivity].
  destruct (deleteUser_guards 2 9000 three_users) as [_ Hask].
  eexists. split; [reflexivity |].
  destruct (Hask _ eq_refl) as (_ & _ & _ & _ & _ & Howners & _).
  split; [reflexivity |]. apply Howners. vm_compute. lia.
Defined.

(** ** CSRF token *)

(** [generateCSRFToken] draws 32 bytes from the random source, returns
    their 64 lowercase hexadecimal characters and stores that very token.
    [validateCSRFToken] then accepts this token and no other string; a
    token generated elsewhere is accepted exactly when the same 32 bytes
    were drawn for it; and with no token stored no string is accepted. *)
Theorem csrf_token_accepts_only_itself (st st2 : State) :
  let token := fst (result generateCSRFToken st) in
  let item := snd (result generateCSRFToken st) in
  let token2 := fst (result generateCSRFToken st2) in
  token = hex_of_bytes (drawn 0 32 st) /\
  item = Some token /\
  String.length token = 64%nat /\
  every is_hex_char token = true /\
  pos (rng (after generateCSRFToken st)) = (pos (rng st) + 32)%nat /\
  (forall t, validateCSRFToken t item = true <-> t = token) /\
  (validateCSRFToken token2 item = true <-> drawn 0 32 st2 = drawn 0 32 st) /\
  (forall t, validateCSRFToken t None = false).
Proof.
  cbv zeta.
  assert (Htoken : forall s, fst (result generateCSRFToken s) = hex_of_bytes (drawn 0 32 s)).
  { intros s. unfold result, generateCSRFToken, generateSessionToken, bind, ret.
    pose proof (getRandomValues_drawn 0 32 s s eq_refl (eq_sym (Nat.add_0_r _))) as Hd.
    unfold result in Hd. destruct (getRandomValues 32 s) as [array s1].
    cbn [fst] in *. now rewrite Hd. }
  assert (Hitem : snd (result generateCSRFToken st) = Some (fst (result generateCSRFToken st))).
  { unfold result, generateCSRFToken, bind, ret.
    destruct (generateSessionToken st) as [token st1]. reflexivity. }
  rewrite Hitem, !Htoken.
  split; [reflexivity |]. split; [reflexivity |].
  split; [now rewrite hex_of_bytes_length, drawn_length |].
  split; [apply hex_of_bytes_is_hex, drawn_bytes |].
  split; [reflexivity |].
  unfold validateCSRFToken, getCSRFToken.
  split; [intros t; apply String.eqb_eq |]. split; [| reflexivity].
  rewrite String.eqb_eq. split.
  - apply hex_of_bytes_inj; apply drawn_bytes.
  - intros ->. reflexivity.
Qed.

(** ** Migration keeps the accounts usable *)

Lemma migrated_from_has_key username role u u' :
  migrated_from u u' -> has_key username role u' = has_key username role u.
Proof.
  unfold migrated_from, has_key. destruct (plaintext_only u).
  - intros (_ & _ & -> & -> & _). reflexivity.
  - intros ->. reflexivity.
Qed.

Lemma find_migrated username role users users' u :
  Forall2 migrated_from users users' ->
  find (has_key username role) users = Some u ->
  exists u', find (has_key username role) users' = Some u' /\ migrated_from u u'.
Proof.
  induction 1 as [| v v' l l' Hv Hl IH]; cbn [find]; [discriminate |].
  rewrite (migrated_from_has_key username role v v' Hv).
  destruct (has_key username role v).
  - intros H. injection H as <-. now exists v'.
  - exact IH.
Qed.

(** A legacy account survives the migration: if [login] would look up a
    record that holds a plaintext password and no hash, then after
    [migratePasswords] the same username and role authenticate with that
    password, or, when it was one of the known weak defaults, with the
    strong default of the record's role. *)
Theorem migrated_account_authenticates
    (now : Z) (username role p : string) (u : UserRecord) (st : State) :
  find (has_key username role) (ls_users st) = Some u ->
  u_password u = Some p ->
  plaintext_only u = true ->
  let st1 := after (migratePasswords now) st in
  (includes defaultWeakPasswords p = false -> authenticates st1 username p role = true) /\
  (includes defaultWeakPasswords p = true ->
     authenticates st1 username (if String.eqb role "owner" then "Owner@123" else "Staff@123")
                   role = true).
Proof.
  intros Hfind Hp Hplain st1.
  destruct (migrateLoop_spec (ls_users st) st) as (Hfrom & _ & _ & _).
  rewrite <- (migratePasswords_users now st) in Hfrom. fold st1 in Hfrom.
  destruct (find_migrated username role _ _ u Hfrom Hfind) as (u' & Hfind' & Hu').
  unfold migrated_from in Hu'. rewrite Hplain in Hu'.
  destruct Hu' as (_ & (salt & Hsalt & Husalt & Hhash) & _ & _ & _).
  assert (Hrole : u_role u = role).
  { apply find_some in Hfind. destruct Hfind as [_ Hk]. apply has_key_iff in Hk.
    unfold key in Hk. now injection Hk. }
  assert (Hauth : authenticates st1 username (upgraded_password u) role = true).
  { unfold authenticates. fold (has_key username role). rewrite Hfind', Hhash, Husalt.
    destruct salt as [| c s]; [congruence |].
    unfold result. rewrite verifyPassword_with_salt. cbn [fst].
    rewrite String.eqb_refl, andb_true_r.
    pose proof (hex_of_bytes_length
                  (SHA256.digest (encode (String c s ++ upgraded_password u)))) as Hlen.
    rewrite digest_length in Hlen.
    destruct (hex_of_bytes _); [discriminate Hlen | reflexivity]. }
  unfold upgraded_password, strong_default in Hauth. rewrite Hp, Hrole in Hauth.
  split; intros Hweak; rewrite Hweak in Hauth; exact Hauth.
Qed.

Lemma migrated_account_authenticates_witness :
  let st1 := after (migratePasswords 1000) (set_users legacy_users freshState) in
  authenticates st1 "ravi" "Milk#2024" "staff" = true /\
  authenticates st1 "owner" "Owner@123" "owner" = true.
Proof.
  intros st1.
  destruct (migrated_account_authenticates 1000 "ravi" "staff" "Milk#2024"
              (mkUser "ravi" (Some "Milk#2024") None None "staff" "Ravi")
              (set_users legacy_users freshState) eq_refl eq_refl eq_refl)
    as [Hkept _].
  destruct (migrated_account_authenticates 1000 "owner" "owner" "owner123"
              (mkUser "owner" (Some "owner123") None None "owner" "Shop Owner")
              (set_users legacy_users freshState) eq_refl eq_refl eq_refl)
    as [_ Hupgraded].
  split; [apply Hkept; reflexivity | apply Hupgraded; reflexivity].
Defined.

(** ** What every reachable state keeps *)

(** The entry points of the application that touch the session. *)
Inductive Action :=
| ALogin (username password role : string) (now now' : Z)
| ALogout (now : Z)
| ACheckSession (now : Z)
| ATick (now : Z)
| AActivity (now : Z)
| AChangePassword (newPass confirmPass : string) (now' : Z)
| ASaveUser (displayName username password role : string) (editIndex now' : Z)
| ADeleteUser (index now : Z)
| AMigrate (now : Z).

(** The state after the action; [ATick] is a period of the poll with the
    handler of [init], [AActivity] a call of [refreshSession] from the
    activity listener or the extend-session button, [ADeleteUser] a
    deletion that the user confirms. *)
Definition perform (a : Action) (st : State) : State :=
  match a with
  | ALogin username password role now now' =>
      after (login username password role now now') st
  | ALogout now => after (logout now) st
  | ACheckSession now => after (checkSession now) st
  | ATick now => after (intervalTick now (Some (sessionExpiredHandler now))) st
  | AActivity now => after (handleActivity now) st
  | AChangePassword newPass confirmPass now' =>
      after (changePassword newPass confirmPass now') st
  | ASaveUser displayName username password role editIndex now' =>
      after (saveUser displayName username password role editIndex now') st
  | ADeleteUser index now =>
      match result (deleteUserConfirm index) st with
      | Some user => after (deleteUserConfirmed index user now) st
      | None => st
      end
  | AMigrate now => after (migratePasswords now) st
  end.

Definition performAll (actions : list Action) (st : State) : State :=
  fold_left (fun st a => perform a st) actions st.

(** A stored session names the user that [currentUser] holds; the poll
    runs exactly while a session is stored. *)
Definition session_invariant (st : State) : Prop :=
  (forall s, ls_session st = Some s ->
     currentUser st = Some (mkCurrentUser (s_username s) (s_role s) (s_name s))) /\
  (monitor st = true <-> ls_session st <> None).

Definition same_auth (st st' : State) : Prop :=
  ls_session st' = ls_session st /\ monitor st' = monitor st /\
  currentUser st' = currentUser st.

Lemma same_auth_invariant st st' :
  same_auth st st' -> session_invariant st -> session_invariant st'.
Proof.
  unfold same_auth, session_invariant. intros (-> & -> & ->). auto.
Qed.

Lemma same_auth_refl st : same_auth st st.
Proof. repeat split. Qed.

Lemma signed_out_invariant st :
  ls_session st = None -> monitor st = false -> session_invariant st.
Proof.
  intros Hs Hm. split; [intros s H; congruence |].
  split; intros H; congruence.
Qed.

Lemma created_invariant user now st st' :
  ls_session st' = Some (result (createSession user now) st) ->
  monitor st' = true -> currentUser st' = Some user ->
  session_invariant st'.
Proof.
  intros Hs Hm Hc. split; [| split; intros _; congruence].
  intros s H. rewrite Hs in H. injection H as <-. rewrite createSession_result. cbn.
  now destruct user.
Qed.

Lemma same_but_rng_same_auth st st' : same_but_rng st st' -> same_auth st st'.
Proof. intros ->. repeat split. Qed.

Lemma login_invariant username password role now now' st :
  session_invariant st -> session_invariant (after (login username password role now now') st).
Proof.
  intros Hinv. unfold after, login, bind. rewrite isLoginLocked_run.
  destruct (locked (result (isLoginLocked now) st)); [exact Hinv |].
  unfold dbGetList_users. unfold gets. cbv beta iota.
  assert (Hfail : forall t st_v, same_but_rng st st_v ->
            session_invariant (snd (loginFailed username role t st_v))).
  { intros t st_v Hrng.
    destruct (loginFailed_state username role t st st_v Hrng) as (_ & _ & Hs & Hc & Hm & _).
    apply (same_auth_invariant st); [repeat split; assumption | exact Hinv]. }
  destruct (find _ (ls_users st)) as [u |]; [| apply Hfail, same_but_rng_refl].
  destruct (u_passwordHash u) as [h |]; [| apply Hfail, same_but_rng_refl].
  destruct (truthy (Some h)); [| apply Hfail, same_but_rng_refl].
  pose proof (verifyPassword_same_but_rng password h (u_salt u) st) as Hrng.
  destruct (verifyPassword password h (u_salt u) st) as [b st_v]. cbn [snd] in Hrng.
  destruct b; [| now apply Hfail].
  set (cu := mkCurrentUser (u_username u) (u_role u) (u_name u)).
  apply (created_invariant cu now' (set_currentUser (Some cu) st_v)); reflexivity.
Qed.

Lemma changePassword_same_auth newPass confirmPass now' st :
  same_auth st (after (changePassword newPass confirmPass now') st).
Proof.
  unfold after, changePassword. cbv zeta.
  destruct (negb (valid (validatePassword newPass))); [apply same_auth_refl |].
  destruct (negb (String.eqb newPass confirmPass)); [apply same_auth_refl |].
  unfold bind, dbGetList_users, gets. cbv beta iota.
  destruct (ls_users st) as [| u0 rest]; [apply same_auth_refl |].
  destruct (currentUser st) as [cu |] eqn:Hcu; [| apply same_auth_refl].
  destruct (find _ (u0 :: rest)); [| apply same_auth_refl].
  rewrite hashPassword_fresh_salt. cbv beta iota. unfold dbSet_users, modify. cbv beta iota.
  match goal with
  | |- context [auditLog ?a ?d ?n ?t ?s] =>
      pose proof (auditLog_state a d n t s) as Hstate; unfold after in Hstate;
      destruct (auditLog a d n t s) as [[] st2]
  end.
  cbn [ret snd] in *. rewrite Hstate. repeat split.
Qed.

Lemma saveUser_invariant displayName username password role editIndex now' st :
  session_invariant st ->
  session_invariant (after (saveUser displayName username password role editIndex now') st).
Proof.
  intros Hinv.
  destruct (saveUser_rejects displayName username password role editIndex st) eqn:Hrej.
  - unfold after. now rewrite saveUser_rejected.
  - rewrite (saveUser_accepted _ _ _ _ _ _ _ Hrej). cbv zeta.
    destruct (edits_existing editIndex st).
    + rewrite auditLog_state. destruct (edits_own editIndex st).
      * eapply created_invariant; reflexivity.
      * apply (same_auth_invariant st); [repeat split | exact Hinv].
    + rewrite auditLog_state. apply (same_auth_invariant st); [repeat split | exact Hinv].
Qed.

Lemma getSession_invariant now st :
  session_invariant st -> session_invariant (after (getSession now) st).
Proof.
  intros Hinv. unfold after. destruct (ls_session st) as [s |] eqn:Hs.
  - destruct (Z.le_gt_cases now (s_expiresAt s)) as [Hle | Hgt].
    + now rewrite (getSession_valid now s st Hs Hle).
    + rewrite (getSession_expired now s st Hs ltac:(lia)).
      now apply signed_out_invariant.
  - now rewrite (getSession_absent now st Hs).
Qed.

Lemma perform_invariant a st :
  session_invariant st -> session_invariant (perform a st).
Proof.
  intros Hinv. destruct a; cbn [perform].
  - now apply login_invariant.
  - rewrite logout_after. now apply signed_out_invariant.
  - unfold after, checkSession, bind. destruct (ls_session st) as [s |] eqn:Hs.
    + destruct (Z.le_gt_cases now (s_expiresAt s)) as [Hle | Hgt].
      * rewrite (getSession_valid now s st Hs Hle). cbn [modify snd].
        destruct Hinv as [Hsess Hmon].
        split; [| exact Hmon]. intros s' Hs'. cbn in Hs'. rewrite Hs in Hs'.
        injection Hs' as <-. reflexivity.
      * rewrite (getSession_expired now s st Hs ltac:(lia)).
        now apply signed_out_invariant.
    + now rewrite (getSession_absent now st Hs).
  - destruct (monitor st) eqn:Hmon;
      [| unfold after; now rewrite intervalTick_stopped].
    unfold after, intervalTick, bind, gets. cbv beta iota. rewrite Hmon.
    unfold sessionCheck, bind.
    assert (Hfire : forall st_d,
              session_invariant
                (snd (let (_, st') := sessionExpiredHandler now st_d in ret true st'))).
    { intros st_d.
      pose proof (sessionExpiredHandler_after now st_d) as H. unfold after in H.
      destruct (sessionExpiredHandler now st_d) as [[] st']. cbn [snd ret] in *.
      rewrite H. now apply signed_out_invariant. }
    destruct (ls_session st) as [s |] eqn:Hs.
    + destruct (Z.le_gt_cases now (s_expiresAt s)) as [Hle | Hgt].
      * now rewrite (getSession_valid now s st Hs Hle).
      * rewrite (getSession_expired now s st Hs ltac:(lia)). apply Hfire.
    + rewrite (getSession_absent now st Hs). apply Hfire.
  - unfold after, handleActivity, refreshSession, bind.
    destruct (ls_session st) as [s |] eqn:Hs.
    + destruct (Z.le_gt_cases now (s_expiresAt s)) as [Hle | Hgt].
      * rewrite (getSession_valid now s st Hs Hle). cbn [modify ret snd].
        destruct Hinv as [Hsess Hmon]. pose proof (Hsess s Hs) as Hcu.
        assert (Hrun : monitor st = true) by (apply Hmon; congruence).
        split; [| split; intros _; [discriminate | exact Hrun]].
        intros s' Hs'. cbn in Hs'.
        injection Hs' as <-. exact Hcu.
      * rewrite (getSession_expired now s st Hs ltac:(lia)).
        now apply signed_out_invariant.
    + now rewrite (getSession_absent now st Hs).
  - apply (same_auth_invariant st); [apply changePassword_same_auth | exact Hinv].
  - now apply saveUser_invariant.
  - unfold result. rewrite deleteUserConfirm_run. cbn [fst].
    match goal with
    | |- session_invariant (match ?asked with Some _ => _ | None => _ end) =>
        destruct asked as [user |]; [| exact Hinv]
    end.
    apply (same_auth_invariant st); [| exact Hinv].
    unfold deleteUserConfirmed, bind, dbGetList_users, dbSet_users, gets, modify, after.
    cbv beta iota.
    match goal with
    | |- context [auditLog ?a ?d ?n ?t ?s] =>
        pose proof (auditLog_state a d n t s) as Hstate; unfold after in Hstate;
        destruct (auditLog a d n t s) as [[] st2]
    end.
    cbn [snd] in *. rewrite Hstate. repeat split.
  - apply (same_auth_invariant st); [| exact Hinv].
    unfold after. rewrite migratePasswords_unfold. cbn [snd].
    destruct (migrateLoop_spec (ls_users st) st) as (_ & _ & _ & Hrng).
    destruct (snd (fst (migrateLoop (ls_users st) st))).
    + rewrite auditLog_state. rewrite Hrng. repeat split.
    + now apply same_but_rng_same_auth.
Qed.

(** Within the life of a page that was opened with no stored session and
    the poll stopped: whatever sequence of logins, logouts, session
    checks, polls, activity signals, password changes, user saves,
    confirmed deletions and migrations runs, at whatever times and with
    whatever arguments: whenever a session is stored, [currentUser] is
    the user that it names, and the poll runs exactly while a session is
    stored. *)
Theorem session_invariant_reachable (actions : list Action) (st : State) :
  ls_session st = None -> monitor st = false ->
  session_invariant (performAll actions st).
Proof.
  intros Hs Hm. pose proof (signed_out_invariant st Hs Hm) as Hinv.
  clear Hs Hm. revert st Hinv. unfold performAll.
  induction actions as [| a actions IH]; intros st Hinv; cbn [fold_left]; [exact Hinv |].
  apply IH. now apply perform_invariant.
Qed.

Definition owner_day : list Action :=
  [ ALogin "owner" "owner123" "owner" 0 4;
    ALogin "owner" "Owner@123" "owner" 1000 1004;
    AActivity (minutes 10);
    ASaveUser "Shop Owner" "boss" "Owner@456" "owner" 0 (minutes 11);
    ATick (minutes 12);
    AChangePassword "Owner@789" "Owner@789" (minutes 13) ].

Lemma session_invariant_reachable_witness :
  session_invariant (performAll owner_day shopState) /\
  session_invariant (performAll (owner_day ++ [ATick (minutes 45)]) shopState).
Proof.
  split; apply session_invariant_reachable; reflexivity.
Defined.

(** ** Reloading the page *)

(** What a reload leaves: [localStorage] persists, the variables of the
    two scripts start again from their initialisers ([let currentUser =
    null], [let sessionCheckInterval = null]). *)
Definition pageLoad (st : State) : State :=
  set_monitor false (set_currentUser None st).

Definition session_user (s : Session) : CurrentUser :=
  mkCurrentUser (s_username s) (s_role s) (s_name s).

(** [checkSession] on a reloaded page.  A stored session that has not
    expired logs its user in again and stays stored as it is, but nothing
    starts the inactivity monitor: no tick of the poll ever does anything
    afterwards, whatever the time and the handler, so the page never
    expires the restored login by itself.  A stored session that has
    expired is removed, and nobody is logged in. *)
Theorem checkSession_after_reload (now : Z) (s : Session) (st : State) :
  ls_session st = Some s ->
  let st' := after (checkSession now) (pageLoad st) in
  (now <= s_expiresAt s ->
     st' = set_currentUser (Some (session_user s)) (pageLoad st) /\
     ls_session st' = Some s /\
     monitor st' = false /\
     forall later callback,
       intervalTick later callback st' = (false, st') /\
       currentUser (after (intervalTick later callback) st') = Some (session_user s)) /\
  (s_expiresAt s < now ->
     ls_session st' = None /\ currentUser st' = None /\ monitor st' = false /\
     ls_users st' = ls_users st /\ ls_audit st' = ls_audit st).
Proof.
  intros Hs st'. subst st'. unfold after, checkSession, bind.
  assert (Hs' : ls_session (pageLoad st) = Some s) by exact Hs.
  split.
  - intros Hle. rewrite (getSession_valid now s (pageLoad st) Hs' Hle).
    cbn [modify snd]. fold (session_user s).
    split; [reflexivity |]. split; [exact Hs |]. split; [reflexivity |].
    intros later callback.
    assert (Htick : intervalTick later callback
                      (set_currentUser (Some (session_user s)) (pageLoad st)) =
                    (false, set_currentUser (Some (session_user s)) (pageLoad st)))
      by (apply intervalTick_stopped; reflexivity).
    split; [exact Htick |]. unfold after. now rewrite Htick.
  - intros Hgt. rewrite (getSession_expired now s (pageLoad st) Hs' ltac:(lia)).
    cbn. repeat split.
Qed.

Lemma checkSession_after_reload_witness :
  let st' := after (checkSession (minutes 20)) (pageLoad logged_in_state) in
  currentUser st' = Some (mkCurrentUser "owner" "owner" "Shop Owner") /\
  monitor st' = false /\
  intervalTick (minutes 90) (Some (sessionExpiredHandler (minutes 90))) st' = (false, st').
Proof.
  intros st'.
  destruct (checkSession_after_reload (minutes 20) _ logged_in_state eq_refl)
    as [Hvalid _].
  destruct (Hvalid ltac:(vm_compute; discriminate)) as (Hst & _ & Hmon & Hpoll).
  split; [subst st'; rewrite Hst; reflexivity |].
  split; [exact Hmon | apply Hpoll].
Defined.
